(** * byfood: book validation and URL cleanup

    A shallow embedding of the two pure engines of the backend:

    - [internal/app/validation.go]: [ValidationError], the ISBN checksums,
      [hasMax2Decimals], [validateAndNormalizeCreate] and
      [validateAndNormalizeUpdate];
    - [internal/adapters/http/handlers.go]: [processURL], [applyRedirection],
      [needsWWW] and [cloneURL].

    Go strings are byte sequences: they are modelled by [string], whose
    characters are the 256 byte values.  Go's [int] is modelled by [Z] (no
    computation below leaves the 64-bit range), [float64] by the primitive
    binary64 floats, maps by [gmap].  The parts of Go's standard library that
    the two engines call ([strings], [unicode/utf8], [math], [net/url]) are
    modelled in the modules [Go] and [url]. *)

From Stdlib Require Import ZArith Lia Bool List Ascii String.
From Stdlib Require Floats.PrimFloat Floats.FloatOps Floats.SpecFloat.
Import (notations) PrimFloat.
From stdpp Require Import base option list sorting gmap strings.

Local Open Scope Z_scope.

(** The case tables of package [unicode] for the runes above U+007F.  They are
    data of the Go distribution, not of the repository: the development is
    parametric in them.  ASCII letters are handled by the code of
    [unicode.ToUpper] and [unicode.ToLower] themselves. *)
Class UnicodeCase := {
  upperNonASCII : Z → Z;
  lowerNonASCII : Z → Z
}.

(** The table that leaves every rune above U+007F alone; it is used to run the
    engines on ASCII inputs, whose results do not depend on the table. *)
Definition asciiCase : UnicodeCase :=
  {| upperNonASCII := λ r, r; lowerNonASCII := λ r, r |}.

(* ================================================================== *)
(** * Package [strings], [unicode] and [unicode/utf8] *)
(* ================================================================== *)

Module Go.

(** ** Bytes and slices *)

Definition byteZ (c : ascii) : Z := Z.of_N (N_of_ascii c).

(** Conversion [byte(z)]: truncation to eight bits. *)
Definition Zbyte (z : Z) : ascii := ascii_of_N (Z.to_N (z mod 256)).

Definition len (s : string) : Z := Z.of_nat (String.length s).

(** [s[i]]; the zero byte stands for the run-time panic of an index out of
    range, which no call below can reach. *)
Definition at_ (s : string) (i : nat) : ascii :=
  match String.get i s with Some c => c | None => Ascii.zero end.

(** [s[n:]] and [s[:n]]. *)
Fixpoint dropS (n : nat) (s : string) : string :=
  match n, s with
  | O, _ => s
  | S n', String _ t => dropS n' t
  | S _, EmptyString => EmptyString
  end.

Fixpoint takeS (n : nat) (s : string) : string :=
  match n, s with
  | O, _ => EmptyString
  | S n', String c t => String c (takeS n' t)
  | S _, EmptyString => EmptyString
  end.

Fixpoint allS (p : ascii → bool) (s : string) : bool :=
  match s with
  | EmptyString => true
  | String c t => p c && allS p t
  end.

Fixpoint mapS (f : ascii → ascii) (s : string) : string :=
  match s with
  | EmptyString => EmptyString
  | String c t => String (f c) (mapS f t)
  end.

Definition isEmpty (s : string) : bool :=
  match s with EmptyString => true | _ => false end.

(** ** Searching *)

Fixpoint HasPrefix (s prefix : string) : bool :=
  match prefix, s with
  | EmptyString, _ => true
  | String p ps, String c cs => if Ascii.eqb p c then HasPrefix cs ps else false
  | String _ _, EmptyString => false
  end.

Definition HasSuffix (s suffix : string) : bool :=
  (String.length suffix <=? String.length s)%nat &&
  String.eqb (dropS (String.length s - String.length suffix) s) suffix.

(** [strings.TrimSuffix]: at most one copy of [suffix] is removed. *)
Definition TrimSuffix (s suffix : string) : string :=
  if HasSuffix s suffix
  then takeS (String.length s - String.length suffix) s
  else s.

(** [strings.IndexByte]; [None] is Go's [-1]. *)
Fixpoint IndexByte (s : string) (c : ascii) : option nat :=
  match s with
  | EmptyString => None
  | String a t =>
      if Ascii.eqb a c then Some O
      else match IndexByte t c with Some i => Some (S i) | None => None end
  end.

(** [strings.LastIndex] for a one-byte separator. *)
Fixpoint LastIndexByte (s : string) (c : ascii) : option nat :=
  match s with
  | EmptyString => None
  | String a t =>
      match LastIndexByte t c with
      | Some i => Some (S i)
      | None => if Ascii.eqb a c then Some O else None
      end
  end.

(** [strings.Index] for an arbitrary separator. *)
Fixpoint Index (s sep : string) : option nat :=
  if HasPrefix s sep then Some O
  else match s with
       | EmptyString => None
       | String _ t =>
           match Index t sep with Some i => Some (S i) | None => None end
       end.

Definition Contains (s sep : string) : bool :=
  match Index s sep with Some _ => true | None => false end.

(** [strings.Cut] for a one-byte separator: [(before, after, found)]. *)
Definition Cut (s : string) (c : ascii) : string * string * bool :=
  match IndexByte s c with
  | Some i => (takeS i s, dropS (S i) s, true)
  | None => (s, EmptyString, false)
  end.

(** [strings.Count] for a one-byte separator. *)
Fixpoint Count (s : string) (c : ascii) : Z :=
  match s with
  | EmptyString => 0
  | String a t => (if Ascii.eqb a c then 1 else 0) + Count t c
  end.

(** [strings.ReplaceAll(s, old, new)] for a one-byte [old]. *)
Fixpoint ReplaceAll (s : string) (old : ascii) (new : string) : string :=
  match s with
  | EmptyString => EmptyString
  | String a t =>
      if Ascii.eqb a old then new +:+ ReplaceAll t old new
      else String a (ReplaceAll t old new)
  end.

(** ** UTF-8 *)

Definition RuneError : Z := 0xFFFD.
Definition RuneSelf : Z := 0x80.
Definition MaxRune : Z := 0x10FFFF.

(** The second byte of an encoding must lie in a range that depends on the
    first one ([acceptRanges]). *)
Definition acceptRange (s0 : Z) : Z * Z :=
  if s0 =? 0xE0 then (0xA0, 0xBF)
  else if s0 =? 0xED then (0x80, 0x9F)
  else if s0 =? 0xF0 then (0x90, 0xBF)
  else if s0 =? 0xF4 then (0x80, 0x8F)
  else (0x80, 0xBF).

Definition isCont (b : Z) : bool := (0x80 <=? b) && (b <=? 0xBF).

(** [utf8.DecodeRuneInString]: the first rune of [s] and its width in
    bytes; [(RuneError, 1)] on an invalid encoding, [(RuneError, 0)] on the
    empty string. *)
Definition DecodeRuneInString (s : string) : Z * nat :=
  match s with
  | EmptyString => (RuneError, O)
  | String c0 t0 =>
      let s0 := byteZ c0 in
      if s0 <? RuneSelf then (s0, 1%nat)
      else if (s0 <? 0xC2) || (0xF4 <? s0) then (RuneError, 1%nat)
      else
        let sz := if s0 <? 0xE0 then 2%nat else if s0 <? 0xF0 then 3%nat else 4%nat in
        let '(lo, hi) := acceptRange s0 in
        if (String.length s <? sz)%nat then (RuneError, 1%nat)
        else
          match t0 with
          | EmptyString => (RuneError, 1%nat)
          | String c1 t1 =>
              let s1 := byteZ c1 in
              if (s1 <? lo) || (hi <? s1) then (RuneError, 1%nat)
              else if (sz <=? 2)%nat then
                (Z.lor (Z.shiftl (Z.land s0 0x1F) 6) (Z.land s1 0x3F), 2%nat)
              else
                match t1 with
                | EmptyString => (RuneError, 1%nat)
                | String c2 t2 =>
                    let s2 := byteZ c2 in
                    if negb (isCont s2) then (RuneError, 1%nat)
                    else if (sz <=? 3)%nat then
                      (Z.lor (Z.lor (Z.shiftl (Z.land s0 0x0F) 12)
                                    (Z.shiftl (Z.land s1 0x3F) 6))
                             (Z.land s2 0x3F), 3%nat)
                    else
                      match t2 with
                      | EmptyString => (RuneError, 1%nat)
                      | String c3 _ =>
                          let s3 := byteZ c3 in
                          if negb (isCont s3) then (RuneError, 1%nat)
                          else
                            (Z.lor (Z.lor (Z.lor (Z.shiftl (Z.land s0 0x07) 18)
                                                 (Z.shiftl (Z.land s1 0x3F) 12))
                                          (Z.shiftl (Z.land s2 0x3F) 6))
                                   (Z.land s3 0x3F), 4%nat)
                      end
                end
          end
  end.

(** [utf8.RuneStart]. *)
Definition RuneStart (c : ascii) : bool := negb (Z.land (byteZ c) 0xC0 =? 0x80).

(** The loop of [DecodeLastRuneInString] that walks [start] back from
    [end - 2] down to [lim] until it meets a byte that can start a rune;
    [k] counts the positions still to try and the result is the final
    value of [start] ([-1] is possible, as in the source). *)
Fixpoint backToStart (s : string) (k : nat) (start lim : Z) : Z :=
  match k with
  | O => start
  | S k' =>
      if start <? lim then start
      else if RuneStart (at_ s (Z.to_nat start)) then start
      else backToStart s k' (start - 1) lim
  end.

(** [utf8.DecodeLastRuneInString]. *)
Definition DecodeLastRuneInString (s : string) : Z * nat :=
  let end_ := len s in
  if end_ =? 0 then (RuneError, O)
  else
    let r := byteZ (at_ s (Z.to_nat (end_ - 1))) in
    if r <? RuneSelf then (r, 1%nat)
    else
      let lim := Z.max 0 (end_ - 4) in
      let start := Z.max 0 (backToStart s 4 (end_ - 2) lim) in
      let '(r, size) :=
        DecodeRuneInString (takeS (Z.to_nat (end_ - start)) (dropS (Z.to_nat start) s)) in
      if start + Z.of_nat size =? end_ then (r, size) else (RuneError, 1%nat).

(** [utf8.AppendRune] on an empty buffer: the UTF-8 encoding of [r]; runes
    out of range and surrogates are written as U+FFFD. *)
Definition encode3 (r : Z) : string :=
  String (Zbyte (Z.lor 0xE0 (Z.shiftr r 12)))
    (String (Zbyte (Z.lor 0x80 (Z.land (Z.shiftr r 6) 0x3F)))
       (String (Zbyte (Z.lor 0x80 (Z.land r 0x3F))) EmptyString)).

Definition EncodeRune (r : Z) : string :=
  if (0 <=? r) && (r <=? 0x7F) then String (Zbyte r) EmptyString
  else if (0 <=? r) && (r <=? 0x7FF) then
    String (Zbyte (Z.lor 0xC0 (Z.shiftr r 6)))
      (String (Zbyte (Z.lor 0x80 (Z.land r 0x3F))) EmptyString)
  else if (r <? 0) || (MaxRune <? r) || ((0xD800 <=? r) && (r <=? 0xDFFF)) then
    encode3 RuneError
  else if r <=? 0xFFFF then encode3 r
  else
    String (Zbyte (Z.lor 0xF0 (Z.shiftr r 18)))
      (String (Zbyte (Z.lor 0x80 (Z.land (Z.shiftr r 12) 0x3F)))
         (String (Zbyte (Z.lor 0x80 (Z.land (Z.shiftr r 6) 0x3F)))
            (String (Zbyte (Z.lor 0x80 (Z.land r 0x3F))) EmptyString))).

(** [utf8.RuneCountInString]: the number of runes ("characters") of [s];
    every byte of an invalid encoding counts for one.  [fuel] bounds the
    number of runes and is the byte length in [RuneCountInString]. *)
Fixpoint runeCount (fuel : nat) (s : string) : Z :=
  match fuel with
  | O => 0
  | S k =>
      match s with
      | EmptyString => 0
      | _ => 1 + runeCount k (dropS (snd (DecodeRuneInString s)) s)
      end
  end.

Definition RuneCountInString (s : string) : Z := runeCount (String.length s) s.

(** ** Package [unicode] *)

(** [unicode.IsSpace]: the Latin-1 spaces and the [White_Space] table. *)
Definition IsSpace (r : Z) : bool :=
  if (0 <=? r) && (r <=? 0xFF) then
    ((0x09 <=? r) && (r <=? 0x0D)) || (r =? 0x20) || (r =? 0x85) || (r =? 0xA0)
  else
    (r =? 0x1680) || ((0x2000 <=? r) && (r <=? 0x200A)) || (r =? 0x2028)
    || (r =? 0x2029) || (r =? 0x202F) || (r =? 0x205F) || (r =? 0x3000).

Definition isUpperASCII (b : Z) : bool := (65 <=? b) && (b <=? 90).
Definition isLowerASCII (b : Z) : bool := (97 <=? b) && (b <=? 122).

Definition unicode_ToUpper `{UnicodeCase} (r : Z) : Z :=
  if r <=? 0x7F then (if isLowerASCII r then r - 32 else r) else upperNonASCII r.

Definition unicode_ToLower `{UnicodeCase} (r : Z) : Z :=
  if r <=? 0x7F then (if isUpperASCII r then r + 32 else r) else lowerNonASCII r.

(** ** Trimming *)

(** [strings.TrimLeftFunc]: drop the leading runes that satisfy [f]. *)
Fixpoint trimLeft (fuel : nat) (f : Z → bool) (s : string) : string :=
  match fuel with
  | O => s
  | S k =>
      match s with
      | EmptyString => EmptyString
      | _ =>
          let '(r, w) := DecodeRuneInString s in
          if f r then trimLeft k f (dropS w s) else s
      end
  end.

Definition TrimLeftFunc (s : string) (f : Z → bool) : string :=
  trimLeft (String.length s) f s.

(** [strings.TrimRightFunc]: drop the trailing runes that satisfy [f],
    found from the end with [DecodeLastRuneInString]. *)
Fixpoint trimRight (fuel : nat) (f : Z → bool) (s : string) : string :=
  match fuel with
  | O => s
  | S k =>
      match s with
      | EmptyString => EmptyString
      | _ =>
          let '(r, size) := DecodeLastRuneInString s in
          if f r then trimRight k f (takeS (String.length s - size) s) else s
      end
  end.

Definition TrimRightFunc (s : string) (f : Z → bool) : string :=
  trimRight (String.length s) f s.

(** [strings.TrimSpace]: leading and trailing white space, as defined by
    Unicode, removed.  (The source first scans ASCII bytes from both ends
    and falls back to the two functions above at the first byte that is
    not ASCII; the result is the same.) *)
Definition TrimSpace (s : string) : string :=
  TrimRightFunc (TrimLeftFunc s IsSpace) IsSpace.

(** ** Case mapping *)

Definition isASCII (s : string) : bool := allS (λ c, byteZ c <? RuneSelf) s.

(** [strings.Map]: the runes of [s] are mapped one by one; a rune that the
    mapping leaves alone keeps its bytes, a byte that is no valid encoding
    is written as U+FFFD, a negative result drops the rune. *)
Fixpoint mapRunes (fuel : nat) (mapping : Z → Z) (s : string) : string :=
  match fuel with
  | O => EmptyString
  | S k =>
      match s with
      | EmptyString => EmptyString
      | _ =>
          let '(c, w) := DecodeRuneInString s in
          let r := mapping c in
          let invalid := (c =? RuneError) && (w =? 1)%nat in
          (if (r =? c) && negb invalid then takeS w s
           else if r <? 0 then EmptyString
           else EncodeRune r)
          +:+ mapRunes k mapping (dropS w s)
      end
  end.

Definition Map (mapping : Z → Z) (s : string) : string :=
  mapRunes (String.length s) mapping s.

Definition upperByte (c : ascii) : ascii :=
  if isLowerASCII (byteZ c) then Zbyte (byteZ c - 32) else c.

Definition lowerByte (c : ascii) : ascii :=
  if isUpperASCII (byteZ c) then Zbyte (byteZ c + 32) else c.

(** [strings.ToUpper] and [strings.ToLower]: byte-wise on ASCII strings,
    rune-wise through [Map] otherwise. *)
Definition ToUpper `{UnicodeCase} (s : string) : string :=
  if isASCII s then mapS upperByte s else Map unicode_ToUpper s.

Definition ToLower `{UnicodeCase} (s : string) : string :=
  if isASCII s then mapS lowerByte s else Map unicode_ToLower s.

End Go.

(* ================================================================== *)
(** * Package [math] on [float64] *)
(* ================================================================== *)

Module math.

Import SpecFloat.

Definition float64 : Set := PrimFloat.float.

(** [math.Float64bits]: the IEEE 754 binary representation, as a 64-bit
    integer.  Go's NaN is [uvnan]. *)
Definition Float64bits (x : float64) : Z :=
  match FloatOps.Prim2SF x with
  | S754_zero s => if s then 2 ^ 63 else 0
  | S754_infinity s => (if s then 2 ^ 63 else 0) + 0x7FF0000000000000
  | S754_nan => 0x7FF8000000000001
  | S754_finite s m e =>
      let sign := if s then 2 ^ 63 else 0 in
      if 2 ^ 52 <=? Z.pos m
      then sign + (e + 1075) * 2 ^ 52 + (Z.pos m - 2 ^ 52)
      else sign + Z.pos m
  end.

(** [math.Float64frombits]. *)
Definition Float64frombits (b : Z) : float64 :=
  let s := Z.testbit b 63 in
  let e := Z.land (Z.shiftr b 52) 0x7FF in
  let frac := Z.land b (2 ^ 52 - 1) in
  FloatOps.SF2Prim
    (if e =? 0x7FF then (if frac =? 0 then S754_infinity s else S754_nan)
     else if e =? 0 then
       match frac with Z.pos m => S754_finite s m (-1074) | _ => S754_zero s end
     else
       match 2 ^ 52 + frac with
       | Z.pos m => S754_finite s m (e - 1075)
       | _ => S754_zero s
       end).

Definition mask : Z := 0x7FF.
Definition shift : Z := 64 - 11 - 1.
Definition bias : Z := 1023.
Definition signMask : Z := 2 ^ 63.
Definition fracMask : Z := 2 ^ shift - 1.
Definition uvone : Z := 0x3FF0000000000000.

(** [math.Round]: the nearest integer, half away from zero, computed on the
    bit pattern as in [math/floor.go]. *)
Definition Round (x : float64) : float64 :=
  let bits := Float64bits x in
  let e := Z.land (Z.shiftr bits shift) mask in
  let bits :=
    if e <? bias then
      let bits := Z.land bits signMask in
      if e =? bias - 1 then Z.lor bits uvone else bits
    else if e <? bias + shift then
      let half := 2 ^ (shift - 1) in
      let e := e - bias in
      let bits := (bits + Z.shiftr half e) mod 2 ^ 64 in
      Z.land bits (Z.lxor (2 ^ 64 - 1) (Z.shiftr fracMask e))
    else bits in
  Float64frombits bits.

Definition IsNaN (x : float64) : bool := PrimFloat.is_nan x.
(** [math.IsInf(x, 0)]. *)
Definition IsInf (x : float64) : bool := PrimFloat.is_infinity x.
Definition Abs (x : float64) : float64 := PrimFloat.abs x.

End math.

(* ================================================================== *)
(** * The book validator ([internal/app/validation.go]) *)
(* ================================================================== *)

(** [ports.CreateBookInput]. *)
Module CreateBookInput.
Record t := mk {
  Title : string;
  Author : string;
  ISBN : string;
  Price : math.float64;
  PublicationYear : Z
}.
End CreateBookInput.

(** [ports.UpdateBookInput]: every field is a pointer, [None] is [nil].  The
    five pointers of a decoded request are distinct cells, so that a store
    through one of them is the replacement of that field's value. *)
Module UpdateBookInput.
Record t := mk {
  Title : option string;
  Author : option string;
  ISBN : option string;
  Price : option math.float64;
  PublicationYear : option Z
}.
End UpdateBookInput.

Module app.

Import Go.

(** [ValidationError]: [Fields] is a Go map, [None] when it is [nil]. *)
Record ValidationError := { Fields : option (gmap string string) }.

Definition fieldsOf (v : ValidationError) : gmap string string :=
  match Fields v with Some m => m | None => ∅ end.

(** Method [add] of [ValidationError]: keep the first error of a field. *)
Definition add (field msg : string) (v : ValidationError) : ValidationError :=
  let fields := fieldsOf v in
  match fields !! field with
  | Some _ => {| Fields := Some fields |}
  | None => {| Fields := Some (<[field := msg]> fields) |}
  end.

(** Method [ok] of [ValidationError]. *)
Definition ok (v : ValidationError) : bool :=
  bool_decide (size (fieldsOf v) = 0%nat).

Definition minYear : Z := 1000.
Definition maxYear : Z := 9999.

Definition isValidFourDigitYearInt (y : Z) : bool :=
  (minYear <=? y) && (y <=? maxYear).

Definition normalizeISBN `{UnicodeCase} (s : string) : string :=
  ToUpper (ReplaceAll (ReplaceAll s " " "") "-" "").

Definition isDigit (c : ascii) : bool :=
  (48 <=? byteZ c) && (byteZ c <=? 57).

(** [reIsbn10.MatchString], for the pattern [^\d{9}[\dX]$]: Go's [\d] is
    the ASCII digits and [$] matches at the end of the text only. *)
Definition reIsbn10_MatchString (s : string) : bool :=
  (String.length s =? 10)%nat
  && allS isDigit (takeS 9 s)
  && (isDigit (at_ s 9) || Ascii.eqb (at_ s 9) "X").

(** [reIsbn13.MatchString], for the pattern [^\d{13}$]. *)
Definition reIsbn13_MatchString (s : string) : bool :=
  (String.length s =? 13)%nat && allS isDigit s.

(** [int(c - '0')]: the subtraction is on [uint8] and wraps around. *)
Definition digitVal (c : ascii) : Z := (byteZ c - 48) mod 256.

Definition isValidISBN10 (s : string) : bool :=
  if negb (reIsbn10_MatchString s) then false
  else
    let sum :=
      fold_left (λ sum i, sum + (10 - Z.of_nat i) * digitVal (at_ s i)) (seq 0 9) 0 in
    let last := at_ s 9 in
    let sum := if Ascii.eqb last "X" then sum + 10 else sum + digitVal last in
    sum mod 11 =? 0.

Definition isValidISBN13 (s : string) : bool :=
  if negb (reIsbn13_MatchString s) then false
  else
    let sum :=
      fold_left
        (λ sum i,
           let d := digitVal (at_ s i) in
           if Z.of_nat i mod 2 =? 0 then sum + d else sum + d * 3)
        (seq 0 12) 0 in
    let check := (10 - sum mod 10) mod 10 in
    check =? digitVal (at_ s 12).

Definition isValidISBN `{UnicodeCase} (s : string) : bool :=
  let n := normalizeISBN s in
  if len n =? 10 then isValidISBN10 n
  else if len n =? 13 then isValidISBN13 n
  else false.

Definition hasMax2Decimals (n : math.float64) : bool :=
  if math.IsNaN n || math.IsInf n then false
  else
    let scaled := PrimFloat.mul n 100%float in
    let rounded := math.Round scaled in
    PrimFloat.ltb (math.Abs (PrimFloat.sub scaled rounded)) 0x1.12e0be826d695p-30%float.

(** The three checks on a price, shared by both validators. *)
Definition checkPrice (p : math.float64) (errs : ValidationError) : ValidationError :=
  if PrimFloat.ltb p 0%float then add "price" "Price must be ≥ 0" errs
  else if PrimFloat.ltb 1000000%float p then add "price" "Price is too large" errs
  else if negb (hasMax2Decimals p) then add "price" "Max 2 decimal places" errs
  else errs.

(** [validateAndNormalizeCreate]: the returned error is [None] for Go's
    [nil]. *)
Definition validateAndNormalizeCreate `{UnicodeCase} (in_ : CreateBookInput.t)
  : CreateBookInput.t * option ValidationError :=
  let errs := {| Fields := None |} in
  let title := TrimSpace (CreateBookInput.Title in_) in
  let errs :=
    if isEmpty title then add "title" "Title is required" errs
    else if len title >? 120 then add "title" "Title must be ≤ 120 characters" errs
    else errs in
  let author := TrimSpace (CreateBookInput.Author in_) in
  let errs :=
    if isEmpty author then add "author" "Author is required" errs
    else if len author >? 80 then add "author" "Author must be ≤ 80 characters" errs
    else errs in
  let isbn := TrimSpace (CreateBookInput.ISBN in_) in
  let '(isbn, errs) :=
    if isEmpty isbn then (isbn, add "isbn" "ISBN is required" errs)
    else if negb (isValidISBN isbn)
    then (isbn, add "isbn" "Invalid ISBN (must be ISBN-10 or ISBN-13)" errs)
    else (normalizeISBN isbn, errs) in
  let year := CreateBookInput.PublicationYear in_ in
  let errs :=
    if year =? 0 then add "publication_year" "Publication year is required" errs
    else if negb (isValidFourDigitYearInt year)
    then add "publication_year" "Publication year must be a 4-digit number" errs
    else errs in
  let errs := checkPrice (CreateBookInput.Price in_) errs in
  let out := CreateBookInput.mk title author isbn (CreateBookInput.Price in_) year in
  if negb (ok errs) then (out, Some errs) else (out, None).

(** [validateAndNormalizeUpdate]. *)
Definition validateAndNormalizeUpdate `{UnicodeCase} (in_ : UpdateBookInput.t)
  : UpdateBookInput.t * option ValidationError :=
  let errs := {| Fields := None |} in
  let '(title, errs) :=
    match UpdateBookInput.Title in_ with
    | None => (None, errs)
    | Some v =>
        let t := TrimSpace v in
        if isEmpty t then (Some v, add "title" "Title is required" errs)
        else if len t >? 120
        then (Some v, add "title" "Title must be ≤ 120 characters" errs)
        else (Some t, errs)
    end in
  let '(author, errs) :=
    match UpdateBookInput.Author in_ with
    | None => (None, errs)
    | Some v =>
        let a := TrimSpace v in
        if isEmpty a then (Some v, add "author" "Author is required" errs)
        else if len a >? 80
        then (Some v, add "author" "Author must be ≤ 80 characters" errs)
        else (Some a, errs)
    end in
  let '(isbn, errs) :=
    match UpdateBookInput.ISBN in_ with
    | None => (None, errs)
    | Some v =>
        let s := TrimSpace v in
        if isEmpty s then (Some v, add "isbn" "ISBN is required" errs)
        else if negb (isValidISBN s)
        then (Some v, add "isbn" "Invalid ISBN (must be ISBN-10 or ISBN-13)" errs)
        else (Some (normalizeISBN s), errs)
    end in
  let errs :=
    match UpdateBookInput.PublicationYear in_ with
    | None => errs
    | Some y =>
        if negb (isValidFourDigitYearInt y)
        then add "publication_year" "Publication year must be a 4-digit number" errs
        else errs
    end in
  let errs :=
    match UpdateBookInput.Price in_ with
    | None => errs
    | Some p => checkPrice p errs
    end in
  let out :=
    UpdateBookInput.mk title author isbn (UpdateBookInput.Price in_)
      (UpdateBookInput.PublicationYear in_) in
  if negb (ok errs) then (out, Some errs) else (out, None).

End app.

(* ================================================================== *)
(** * Package [net/url] *)
(* ================================================================== *)

(** The functions of [net/url] that the handler reaches, after the sources of
    Go 1.22: [Parse], [URL.String], [URL.Query] and [Values.Encode],
    with the unexported helpers they go through.  Errors are [None]: the
    handler only tests them against [nil]. *)
Module url.

Import Go.

Inductive encoding :=
| encodePath | encodePathSegment | encodeHost | encodeZone
| encodeUserPassword | encodeQueryComponent | encodeFragment.

Definition encoding_eqb (a b : encoding) : bool :=
  match a, b with
  | encodePath, encodePath | encodePathSegment, encodePathSegment
  | encodeHost, encodeHost | encodeZone, encodeZone
  | encodeUserPassword, encodeUserPassword
  | encodeQueryComponent, encodeQueryComponent
  | encodeFragment, encodeFragment => true
  | _, _ => false
  end.

Definition isAlnum (b : Z) : bool :=
  isLowerASCII b || isUpperASCII b || ((48 <=? b) && (b <=? 57)).

Definition inBytes (c : ascii) (set : string) : bool :=
  match IndexByte set c with Some _ => true | None => false end.

(** [shouldEscape]: whether byte [c] must be written [%XX] in the part of
    a URL that [mode] names. *)
Definition shouldEscape (c : ascii) (mode : encoding) : bool :=
  if isAlnum (byteZ c) then false
  else if (encoding_eqb mode encodeHost || encoding_eqb mode encodeZone)
          && (inBytes c "!$&'()*+,;=:[]<>" || (byteZ c =? 34)) then false
  else if inBytes c "-_.~" then false
  else if inBytes c "$&+,/:;=?@" then
    match mode with
    | encodePath => Ascii.eqb c "?"
    | encodePathSegment =>
        Ascii.eqb c "/" || Ascii.eqb c ";" || Ascii.eqb c "," || Ascii.eqb c "?"
    | encodeUserPassword =>
        Ascii.eqb c "@" || Ascii.eqb c "/" || Ascii.eqb c "?" || Ascii.eqb c ":"
    | encodeQueryComponent => true
    | encodeFragment => false
    | encodeHost | encodeZone => true
    end
  else if encoding_eqb mode encodeFragment && inBytes c "!()*" then false
  else true.

Definition ishex (c : ascii) : bool :=
  let b := byteZ c in
  ((48 <=? b) && (b <=? 57)) || ((97 <=? b) && (b <=? 102)) || ((65 <=? b) && (b <=? 70)).

Definition unhex (c : ascii) : Z :=
  let b := byteZ c in
  if (48 <=? b) && (b <=? 57) then b - 48
  else if (97 <=? b) && (b <=? 102) then b - 97 + 10
  else if (65 <=? b) && (b <=? 70) then b - 65 + 10
  else 0.

Definition upperhex : string := "0123456789ABCDEF".

(** [unescape]: the first pass of the source rejects a malformed or
    forbidden escape anywhere in [s], the second one decodes; here both
    are one traversal. *)
Fixpoint unescape (s : string) (mode : encoding) : option string :=
  match s with
  | EmptyString => Some EmptyString
  | String c t =>
      if Ascii.eqb c "%" then
        match t with
        | String a (String b t') =>
            if negb (ishex a && ishex b) then None
            else
              let is25 := Ascii.eqb a "2" && Ascii.eqb b "5" in
              let v := Zbyte (Z.lor (Z.shiftl (unhex a) 4) (unhex b)) in
              if encoding_eqb mode encodeHost && (unhex a <? 8) && negb is25 then None
              else if encoding_eqb mode encodeZone && negb is25
                      && negb (Ascii.eqb v " ") && shouldEscape v encodeHost then None
              else
                match unescape t' mode with
                | Some r => Some (String v r)
                | None => None
                end
        | _ => None
        end
      else if Ascii.eqb c "+" then
        match unescape t mode with
        | Some r =>
            Some (String (if encoding_eqb mode encodeQueryComponent then " " else "+")%char r)
        | None => None
        end
      else if (encoding_eqb mode encodeHost || encoding_eqb mode encodeZone)
              && (byteZ c <? 0x80) && shouldEscape c encodeHost then None
      else
        match unescape t mode with
        | Some r => Some (String c r)
        | None => None
        end
  end.

Fixpoint escape (s : string) (mode : encoding) : string :=
  match s with
  | EmptyString => EmptyString
  | String c t =>
      if shouldEscape c mode then
        if Ascii.eqb c " " && encoding_eqb mode encodeQueryComponent
        then String "+" (escape t mode)
        else String "%"
               (String (at_ upperhex (Z.to_nat (Z.shiftr (byteZ c) 4)))
                  (String (at_ upperhex (Z.to_nat (Z.land (byteZ c) 15)))
                     (escape t mode)))
      else String c (escape t mode)
  end.

Definition QueryUnescape (s : string) : option string := unescape s encodeQueryComponent.
Definition QueryEscape (s : string) : string := escape s encodeQueryComponent.

(** [validEncoded]: [s] is a valid encoded path or fragment. *)
Fixpoint validEncoded (s : string) (mode : encoding) : bool :=
  match s with
  | EmptyString => true
  | String c t =>
      (if inBytes c "!$&'()*+,;=:@[]%" then true else negb (shouldEscape c mode))
      && validEncoded t mode
  end.

Record Userinfo := {
  username : string;
  password : string;
  passwordSet : bool
}.

(** [url.URL]; [User] is a pointer, [None] when [nil]. *)
Record URL := mkURL {
  Scheme : string;
  Opaque : string;
  User : option Userinfo;
  Host : string;
  Path : string;
  RawPath : string;
  OmitHost : bool;
  ForceQuery : bool;
  RawQuery : string;
  Fragment : string;
  RawFragment : string
}.

Definition emptyURL : URL :=
  mkURL "" "" None "" "" "" false false "" "" "".

Definition set_Host (h : string) (u : URL) : URL :=
  mkURL (Scheme u) (Opaque u) (User u) h (Path u) (RawPath u) (OmitHost u)
    (ForceQuery u) (RawQuery u) (Fragment u) (RawFragment u).
Definition set_Path (p : string) (u : URL) : URL :=
  mkURL (Scheme u) (Opaque u) (User u) (Host u) p (RawPath u) (OmitHost u)
    (ForceQuery u) (RawQuery u) (Fragment u) (RawFragment u).
Definition set_RawQuery (q : string) (u : URL) : URL :=
  mkURL (Scheme u) (Opaque u) (User u) (Host u) (Path u) (RawPath u) (OmitHost u)
    (ForceQuery u) q (Fragment u) (RawFragment u).
Definition set_Fragment (f : string) (u : URL) : URL :=
  mkURL (Scheme u) (Opaque u) (User u) (Host u) (Path u) (RawPath u) (OmitHost u)
    (ForceQuery u) (RawQuery u) f (RawFragment u).

(** [getScheme]: [Some (scheme, rest)], or [None] for "missing protocol
    scheme".  [i] is the loop index, [raw] the whole input. *)
Fixpoint getSchemeFrom (raw s : string) (i : nat) : option (string * string) :=
  match s with
  | EmptyString => Some (EmptyString, raw)
  | String c t =>
      let b := byteZ c in
      if isLowerASCII b || isUpperASCII b then getSchemeFrom raw t (S i)
      else if ((48 <=? b) && (b <=? 57)) || inBytes c "+-." then
        if (i =? 0)%nat then Some (EmptyString, raw) else getSchemeFrom raw t (S i)
      else if Ascii.eqb c ":" then
        if (i =? 0)%nat then None else Some (takeS i raw, t)
      else Some (EmptyString, raw)
  end.

Definition getScheme (rawURL : string) : option (string * string) :=
  getSchemeFrom rawURL rawURL 0.

Definition stringContainsCTLByte (s : string) : bool :=
  negb (allS (λ c, negb ((byteZ c <? 32) || (byteZ c =? 0x7F))) s).

Definition validOptionalPort (port : string) : bool :=
  match port with
  | EmptyString => true
  | String c t => Ascii.eqb c ":" && allS (λ b, (48 <=? byteZ b) && (byteZ b <=? 57)) t
  end.

(** [validUserinfo]: the loop ranges over runes, and every rune it accepts
    is an ASCII byte. *)
Definition validUserinfo (s : string) : bool :=
  allS (λ c, isAlnum (byteZ c) || inBytes c "-._:~!$&'()*+,;=%@") s.

(** [parseHost]. *)
Definition parseHost (host : string) : option string :=
  if HasPrefix host "[" then
    match LastIndexByte host "]" with
    | None => None
    | Some i =>
        let colonPort := dropS (S i) host in
        if negb (validOptionalPort colonPort) then None
        else
          match Index (takeS i host) "%25" with
          | Some zone =>
              match unescape (takeS zone host) encodeHost with
              | None => None
              | Some host1 =>
                  match unescape (takeS (i - zone) (dropS zone host)) encodeZone with
                  | None => None
                  | Some host2 =>
                      match unescape (dropS i host) encodeHost with
                      | None => None
                      | Some host3 => Some (host1 +:+ host2 +:+ host3)
                      end
                  end
              end
          | None => unescape host encodeHost
          end
    end
  else
    match LastIndexByte host ":" with
    | Some i =>
        if negb (validOptionalPort (dropS i host)) then None
        else unescape host encodeHost
    | None => unescape host encodeHost
    end.

(** [parseAuthority]. *)
Definition parseAuthority (authority : string) : option (option Userinfo * string) :=
  let i := LastIndexByte authority "@" in
  match parseHost (match i with None => authority | Some i => dropS (S i) authority end) with
  | None => None
  | Some host =>
      match i with
      | None => Some (None, host)
      | Some i =>
          let userinfo := takeS i authority in
          if negb (validUserinfo userinfo) then None
          else if negb (inBytes ":" userinfo) then
            match unescape userinfo encodeUserPassword with
            | None => None
            | Some name => Some (Some {| username := name; password := ""; passwordSet := false |}, host)
            end
          else
            let '(name, pass, _) := Cut userinfo ":" in
            match unescape name encodeUserPassword with
            | None => None
            | Some name =>
                match unescape pass encodeUserPassword with
                | None => None
                | Some pass =>
                    Some (Some {| username := name; password := pass; passwordSet := true |}, host)
                end
            end
      end
  end.

(** [URL.setPath]: the decoded path and, when the default encoding
    would differ from the input, the input as [RawPath]. *)
Definition setPath (p : string) : option (string * string) :=
  match unescape p encodePath with
  | None => None
  | Some path =>
      Some (path, if String.eqb p (escape path encodePath) then EmptyString else p)
  end.

(** [URL.setFragment]. *)
Definition setFragment (f : string) : option (string * string) :=
  match unescape f encodeFragment with
  | None => None
  | Some frag =>
      Some (frag, if String.eqb f (escape frag encodeFragment) then EmptyString else f)
  end.

(** [parse(rawURL, viaRequest = false)]. *)
Definition parse `{UnicodeCase} (rawURL : string) : option URL :=
  if stringContainsCTLByte rawURL then None
  else if String.eqb rawURL "*" then Some (set_Path "*" emptyURL)
  else
    match getScheme rawURL with
    | None => None
    | Some (scheme, rest) =>
        let scheme := ToLower scheme in
        let '(rest, rawQuery, forceQuery) :=
          if HasSuffix rest "?" && (Count rest "?" =? 1)
          then (takeS (String.length rest - 1) rest, EmptyString, true)
          else let '(before, after, _) := Cut rest "?" in (before, after, false) in
        if negb (HasPrefix rest "/") && negb (isEmpty scheme) then
          Some (mkURL scheme rest None "" "" "" false forceQuery rawQuery "" "")
        else if negb (HasPrefix rest "/")
                && inBytes ":" (fst (fst (Cut rest "/"))) then None
        else
          let auth :=
            if (negb (isEmpty scheme) || negb (HasPrefix rest "///")) && HasPrefix rest "//"
            then
              let authority := dropS 2 rest in
              let '(authority, rest) :=
                match IndexByte authority "/" with
                | Some i => (takeS i authority, dropS i authority)
                | None => (authority, EmptyString)
                end in
              match parseAuthority authority with
              | None => None
              | Some (user, host) => Some (user, host, false, rest)
              end
            else Some (None, EmptyString,
                       negb (isEmpty scheme) && HasPrefix rest "/", rest) in
          match auth with
          | None => None
          | Some (user, host, omitHost, rest) =>
              match setPath rest with
              | None => None
              | Some (path, rawPath) =>
                  Some (mkURL scheme "" user host path rawPath omitHost forceQuery
                          rawQuery "" "")
              end
          end
    end.

(** [url.Parse]. *)
Definition Parse `{UnicodeCase} (rawURL : string) : option URL :=
  let '(u, frag, _) := Cut rawURL "#" in
  match parse u with
  | None => None
  | Some url =>
      if isEmpty frag then Some url
      else
        match setFragment frag with
        | None => None
        | Some (f, rawf) =>
            Some (mkURL (Scheme url) (Opaque url) (User url) (Host url) (Path url)
                    (RawPath url) (OmitHost url) (ForceQuery url) (RawQuery url) f rawf)
        end
  end.

(** [URL.EscapedPath]. *)
Definition EscapedPath (u : URL) : string :=
  if negb (isEmpty (RawPath u)) && validEncoded (RawPath u) encodePath
     && match unescape (RawPath u) encodePath with
        | Some p => String.eqb p (Path u)
        | None => false
        end
  then RawPath u
  else if String.eqb (Path u) "*" then "*"
  else escape (Path u) encodePath.

(** [URL.EscapedFragment]. *)
Definition EscapedFragment (u : URL) : string :=
  if negb (isEmpty (RawFragment u)) && validEncoded (RawFragment u) encodeFragment
     && match unescape (RawFragment u) encodeFragment with
        | Some f => String.eqb f (Fragment u)
        | None => false
        end
  then RawFragment u
  else escape (Fragment u) encodeFragment.

(** [Userinfo.String]. *)
Definition Userinfo_String (ui : Userinfo) : string :=
  escape (username ui) encodeUserPassword
  +:+ (if passwordSet ui then ":" +:+ escape (password ui) encodeUserPassword else "").

(** [URL.String]: the text written before the query is [buf]. *)
Definition String_ (u : URL) : string :=
  let buf := if isEmpty (Scheme u) then "" else Scheme u +:+ ":" in
  let buf :=
    if negb (isEmpty (Opaque u)) then buf +:+ Opaque u
    else
      let hasUser := match User u with Some _ => true | None => false end in
      let buf :=
        if negb (isEmpty (Scheme u)) || negb (isEmpty (Host u)) || hasUser then
          if OmitHost u && isEmpty (Host u) && negb hasUser then buf
          else
            let buf :=
              if negb (isEmpty (Host u)) || negb (isEmpty (Path u)) || hasUser
              then buf +:+ "//" else buf in
            let buf :=
              match User u with
              | Some ui => buf +:+ Userinfo_String ui +:+ "@"
              | None => buf
              end in
            if negb (isEmpty (Host u)) then buf +:+ escape (Host u) encodeHost else buf
        else buf in
      let path := EscapedPath u in
      let buf :=
        if negb (isEmpty path) && negb (Ascii.eqb (at_ path 0) "/")
           && negb (isEmpty (Host u))
        then buf +:+ "/" else buf in
      let buf :=
        if isEmpty buf && inBytes ":" (fst (fst (Cut path "/")))
        then buf +:+ "./" else buf in
      buf +:+ path in
  let buf :=
    if ForceQuery u || negb (isEmpty (RawQuery u))
    then buf +:+ "?" +:+ RawQuery u else buf in
  if negb (isEmpty (Fragment u)) then buf +:+ "#" +:+ EscapedFragment u else buf.

(** ** [url.Values] *)

(** [parseQuery]: pairs with a semicolon, an empty text or a malformed
    escape are skipped ([Query] drops the error).  [fuel] bounds the
    number of pairs. *)
Fixpoint parseQuery (fuel : nat) (m : gmap string (list string)) (query : string)
  : gmap string (list string) :=
  match fuel with
  | O => m
  | S k =>
      if isEmpty query then m
      else
        let '(key, query, _) := Cut query "&" in
        if inBytes ";" key then parseQuery k m query
        else if isEmpty key then parseQuery k m query
        else
          let '(key, value, _) := Cut key "=" in
          match QueryUnescape key with
          | None => parseQuery k m query
          | Some key =>
              match QueryUnescape value with
              | None => parseQuery k m query
              | Some value =>
                  parseQuery k (<[key := default [] (m !! key) ++ [value]]> m) query
              end
          end
  end.

(** [URL.Query]. *)
Definition Query (u : URL) : gmap string (list string) :=
  parseQuery (String.length (RawQuery u)) ∅ (RawQuery u).

(** The keys of [v] in the order of [slices.Sort]. *)
Definition sortedKeys (v : gmap string (list string)) : list string :=
  merge_sort String.le (elements (dom v)).

Definition encodePairs (v : gmap string (list string)) : list string :=
  k ← sortedKeys v;
  (λ val, QueryEscape k +:+ "=" +:+ QueryEscape val) <$> default [] (v !! k).

Fixpoint joinAmp (l : list string) : string :=
  match l with
  | [] => ""
  | [x] => x
  | x :: r => x +:+ "&" +:+ joinAmp r
  end.

(** [Values.Encode]: "URL encoded" form, sorted by key. *)
Definition Encode (v : gmap string (list string)) : string :=
  joinAmp (encodePairs v).

End url.

(* ================================================================== *)
(** * The URL cleanup handler ([internal/adapters/http/handlers.go]) *)
(* ================================================================== *)

Module handlers.

Import Go url.

(** The two errors of [processURL] that are its own, and the one of the
    defensive re-parse of operation [all]. *)
Inductive error :=
| invalid_url
| invalid_operation
| unexpected_parse_error.

Definition error_message (e : error) : string :=
  match e with
  | invalid_url => "invalid url"
  | invalid_operation => "invalid operation (use: redirection|canonical|all)"
  | unexpected_parse_error => "unexpected parse error"
  end.

(** [needsWWW]. *)
Definition needsWWW (host : string) : bool :=
  if HasPrefix host "www." then false else Count host "." =? 1.

(** [cloneURL]: a copy of the structure. *)
Definition cloneURL (u : URL) : URL := u.

(** The host of a redirection: lower case, and [www.] before a root
    domain; a port is set aside for the decision. *)
Definition redirectHost `{UnicodeCase} (h : string) : string :=
  let host := ToLower h in
  match IndexByte host ":" with
  | Some idx =>
      let hostOnly := takeS idx host in
      let hostOnly := if needsWWW hostOnly then "www." +:+ hostOnly else hostOnly in
      hostOnly +:+ dropS idx host
  | None => if needsWWW host then "www." +:+ host else host
  end.

(** The loop over [u.Query()]: every value loses one trailing slash. *)
Definition trimValues (q : gmap string (list string)) : gmap string (list string) :=
  (λ vals : list string, (λ v, TrimSuffix v "/") <$> vals) <$> q.

(** The state of [*u] when [applyRedirection] returns. *)
Definition redirected `{UnicodeCase} (u : URL) : URL :=
  let host := redirectHost (Host u) in
  let path := TrimSuffix (ToLower (Path u)) "/" in
  let q := trimValues (Query u) in
  set_Fragment "" (set_RawQuery (Encode q) (set_Path path (set_Host host u))).

(** [applyRedirection]. *)
Definition applyRedirection `{UnicodeCase} (u : URL) : string :=
  String_ (redirected u).

(** The state of [*u] at the [return] of the [canonical] case. *)
Definition canonicalized (u : URL) : URL :=
  set_Path (TrimSuffix (Path u) "/") (set_Fragment "" (set_RawQuery "" u)).

(** [processURL]. *)
Definition processURL `{UnicodeCase} (op raw : string) : string + error :=
  match Parse raw with
  | None => inr invalid_url
  | Some u =>
      if isEmpty (Scheme u) || isEmpty (Host u) then inr invalid_url
      else if String.eqb op "canonical" then inl (String_ (canonicalized u))
      else if String.eqb op "redirection" then inl (applyRedirection u)
      else if String.eqb op "all" then
        let redir := applyRedirection (cloneURL u) in
        match Parse redir with
        | None => inr unexpected_parse_error
        | Some u2 => inl (String_ (set_Fragment "" (set_RawQuery "" u2)))
        end
      else inr invalid_operation
  end.

End handlers.

From Stdlib Require Floats.FloatAxioms.

(* ================================================================== *)
(** * The service, the HTTP handlers and the start-up helpers

    The rest of the backend, around the two engines:

    - [internal/app/book_service.go]: the methods of [bookService], over an
      arbitrary implementation of [ports.BookRepository];
    - [internal/adapters/http/handlers.go]: the handlers of the five book
      routes and of [/url/cleanup], with [parseIDParam];
    - [cmd/.../main.go]: [splitAndTrim], [getEnv], [loadConfig] and [DSN].

    A repository is a state machine: each of its methods takes the state of
    the store and returns its results with the next state.  Books are
    passed by value: the MySQL repository reads from and writes to the rows
    of a table and keeps no pointer that it is handed.  The instant that
    [time.Now] returns is a parameter of the method that reads the clock.
    The decoding of a JSON body is not modelled: a handler takes the decoded
    value, or [None] when [Decode] returns an error. *)
(* ================================================================== *)

(** ** Package [strconv] *)

Module strconv.

Import Go.

(** The two errors of a [NumError]. *)
Inductive NumError := ErrSyntax | ErrRange.

Definition maxUint64 : Z := 2 ^ 64 - 1.

(** [lower(c)]: the byte with bit [0x20] set. *)
Definition lower (c : ascii) : Z := Z.lor (byteZ c) 0x20.

(** The loop of [ParseUint(s, 10, 64)] over the bytes of [s]; [n] is the
    value read so far, a [uint64].  A range error comes with the largest
    value, a syntax error with zero. *)
Fixpoint parseUintLoop (s : string) (n : Z) : Z * option NumError :=
  match s with
  | EmptyString => (n, None)
  | String c t =>
      let d :=
        if (48 <=? byteZ c) && (byteZ c <=? 57) then Some (byteZ c - 48)
        else if (97 <=? lower c) && (lower c <=? 122) then Some (lower c - 97 + 10)
        else None in
      match d with
      | None => (0, Some ErrSyntax)
      | Some d =>
          if 10 <=? d then (0, Some ErrSyntax)
          else if maxUint64 / 10 + 1 <=? n then (maxUint64, Some ErrRange)
          else
            let n := (n * 10) mod 2 ^ 64 in
            let n1 := (n + d) mod 2 ^ 64 in
            if (n1 <? n) || (maxUint64 <? n1) then (maxUint64, Some ErrRange)
            else parseUintLoop t n1
      end
  end.

(** [ParseUint(s, 10, 64)]. *)
Definition ParseUint (s : string) : Z * option NumError :=
  if isEmpty s then (0, Some ErrSyntax) else parseUintLoop s 0.

(** The conversion [int64(z)]. *)
Definition int64 (z : Z) : Z := (z + 2 ^ 63) mod 2 ^ 64 - 2 ^ 63.

(** [ParseInt(s, 10, 64)]. *)
Definition ParseInt (s : string) : Z * option NumError :=
  if isEmpty s then (0, Some ErrSyntax)
  else
    let '(neg, s1) :=
      if Ascii.eqb (at_ s 0) "+" then (false, dropS 1 s)
      else if Ascii.eqb (at_ s 0) "-" then (true, dropS 1 s)
      else (false, s) in
    let '(un, err) := ParseUint s1 in
    match err with
    | Some ErrSyntax => (0, Some ErrSyntax)
    | _ =>
        let cutoff := 2 ^ 63 in
        if negb neg && (cutoff <=? un) then (int64 (cutoff - 1), Some ErrRange)
        else if neg && (cutoff <? un) then (int64 (- int64 cutoff), Some ErrRange)
        else
          let n := int64 un in
          (if neg then int64 (- n) else n, None)
    end.

End strconv.

(** ** Package [strings]: [Split] *)

Module Strings.

Import Go.

(** [strings.Count(s, sep)] for a separator that is not empty: the
    occurrences that do not overlap, from the left.  [fuel] bounds the
    number of steps and is the length of [s]. *)
Fixpoint countFrom (fuel : nat) (s sep : string) : nat :=
  match fuel with
  | O => O
  | S k =>
      match Index s sep with
      | None => O
      | Some i => S (countFrom k (dropS (i + String.length sep) s) sep)
      end
  end.

(** [explode(s, n)]: the first [n - 1] UTF-8 sequences of [s], each a string
    of its own, and the rest. *)
Fixpoint explode (s : string) (n : nat) : list string :=
  match n with
  | O => []
  | S O => [s]
  | S k =>
      let size := snd (DecodeRuneInString s) in
      takeS size s :: explode (dropS size s) k
  end.

(** The loop of [genSplit]: at most [n] cuts. *)
Fixpoint splitLoop (n : nat) (s sep : string) : list string :=
  match n with
  | O => [s]
  | S k =>
      match Index s sep with
      | None => [s]
      | Some m => takeS m s :: splitLoop k (dropS (m + String.length sep) s) sep
      end
  end.

(** [strings.Split(s, sep)], which is [genSplit(s, sep, 0, -1)]. *)
Definition Split (s sep : string) : list string :=
  if isEmpty sep then explode s (Z.to_nat (RuneCountInString s))
  else
    let n := S (countFrom (String.length s) s sep) in
    let n := Nat.min n (S (String.length s)) in
    splitLoop (n - 1) s sep.

End Strings.

(** ** Package [domain] *)

Module domain.

(** [time.Time]: an instant. *)
Definition Time : Type := Z.

(** [Book]. *)
Record Book := mk {
  ID : Z;
  Title : string;
  Author : string;
  ISBN : string;
  Price : math.float64;
  PublicationYear : Z;
  CreatedAt : Time;
  UpdatedAt : Time
}.

End domain.

(** ** Errors *)

Module builtin.

(** The values of Go's interface [error] that the service and the handlers
    tell apart: a [ValidationError], found by the type assertion of the
    handlers, and any other error, of which only the text of [Error] is
    ever read. *)
Inductive error :=
| validationError (v : app.ValidationError)
| errorString (msg : string).

(** Method [Error]. *)
Definition Error (e : error) : string :=
  match e with
  | validationError _ => "validation error"
  | errorString msg => msg
  end.

End builtin.

(** ** Package [ports]: the repository *)

Module ports.

Import domain.

(** [BookRepository], over the states [S] of a store.  Every method returns
    what the Go method returns, value and error, and the next state. *)
Class BookRepository (S : Type) := {
  List : S → (list Book * option builtin.error) * S;
  GetByID : Z → S → (option Book * option builtin.error) * S;
  Create : Book → S → (Z * option builtin.error) * S;
  Update : Book → S → option builtin.error * S;
  Delete : Z → S → option builtin.error * S
}.

End ports.

(** The test double of [book_service_test.go]: a repository made of five
    functions.  The functions of the tests keep no state of their own that a
    later call reads, so that the store has a single state. *)
Module mockRepo.

Import domain.

Record t := mk {
  ListFn : list Book * option builtin.error;
  GetByIDFn : Z → option Book * option builtin.error;
  CreateFn : Book → Z * option builtin.error;
  UpdateFn : Book → option builtin.error;
  DeleteFn : Z → option builtin.error
}.

Definition repository (m : t) : ports.BookRepository unit :=
  {| ports.List := λ st, (ListFn m, st);
     ports.GetByID := λ id st, (GetByIDFn m id, st);
     ports.Create := λ b st, (CreateFn m b, st);
     ports.Update := λ b st, (UpdateFn m b, st);
     ports.Delete := λ id st, (DeleteFn m id, st) |}.

End mockRepo.

(** ** [bookService] *)

Module bookService.

Import Go app domain ports.

Section Service.
Context `{UnicodeCase} {S : Type} `{BookRepository S}.

Definition ListBooks (st : S) : (list Book * option builtin.error) * S :=
  List st.

Definition GetBook (id : Z) (st : S) : (option Book * option builtin.error) * S :=
  GetByID id st.

(** [CreateBook]; [now] is the value of [time.Now().UTC()]. *)
Definition CreateBook (now : Time) (in_ : CreateBookInput.t) (st : S)
  : (option Book * option builtin.error) * S :=
  let '(inNorm, err) := validateAndNormalizeCreate in_ in
  match err with
  | Some ve => ((None, Some (builtin.validationError ve)), st)
  | None =>
      let book :=
        mk 0 (CreateBookInput.Title inNorm) (CreateBookInput.Author inNorm)
          (CreateBookInput.ISBN inNorm) (CreateBookInput.Price inNorm)
          (CreateBookInput.PublicationYear inNorm) now now in
      let '((id, err), st) := Create book st in
      match err with
      | Some e => ((None, Some e), st)
      | None =>
          ((Some (mk id (Title book) (Author book) (ISBN book) (Price book)
                    (PublicationYear book) (CreatedAt book) (UpdatedAt book)),
            None), st)
      end
  end.

(** The assignments of [UpdateBook] to the book that was read: every field
    that the patch holds, and the time of the update. *)
Definition applyPatch (existing : Book) (inNorm : UpdateBookInput.t) (now : Time) : Book :=
  mk (ID existing)
    (match UpdateBookInput.Title inNorm with Some v => v | None => Title existing end)
    (match UpdateBookInput.Author inNorm with Some v => v | None => Author existing end)
    (match UpdateBookInput.ISBN inNorm with Some v => v | None => ISBN existing end)
    (match UpdateBookInput.Price inNorm with Some v => v | None => Price existing end)
    (match UpdateBookInput.PublicationYear inNorm with
     | Some v => v
     | None => PublicationYear existing
     end)
    (CreatedAt existing)
    now.

(** [UpdateBook]; [now] is the value of [time.Now().UTC()]. *)
Definition UpdateBook (now : Time) (id : Z) (in_ : UpdateBookInput.t) (st : S)
  : (option Book * option builtin.error) * S :=
  let '((existing, err), st) := GetByID id st in
  match err with
  | Some e => ((None, Some e), st)
  | None =>
      match existing with
      | None => ((None, Some (builtin.errorString "book not found")), st)
      | Some existing =>
          let '(inNorm, err) := validateAndNormalizeUpdate in_ in
          match err with
          | Some ve => ((None, Some (builtin.validationError ve)), st)
          | None =>
              let existing := applyPatch existing inNorm now in
              let '(err, st) := Update existing st in
              match err with
              | Some e => ((None, Some e), st)
              | None => ((Some existing, None), st)
              end
          end
      end
  end.

Definition DeleteBook (id : Z) (st : S) : option builtin.error * S :=
  Delete id st.

End Service.

End bookService.

(** ** The HTTP handlers *)

Module Handler.

Import Go app domain ports.

(** What a handler encodes into the body of its response. *)
Inductive payload :=
| encBooks (books : list Book)
| encBook (book : option Book)
| encError (msg : string)
| encValidation (error : string) (fields : option (gmap string string))
| encCleanup (processedURL : string)
| noBody.

(** The status code and the body that a handler writes. *)
Record response := mkResponse { status : Z; body : payload }.

Definition jsonOK (v : payload) : response := mkResponse 200 v.
Definition jsonCreated (v : payload) : response := mkResponse 201 v.
Definition httpError (code : Z) (msg : string) : response := mkResponse code (encError msg).
Definition httpValidation (ve : ValidationError) : response :=
  mkResponse 422 (encValidation "validation error" (Fields ve)).

(** [parseIDParam] on the text of the route parameter: [None] when the
    handler has answered [400 invalid id]. *)
Definition parseIDParam (idStr : string) : option Z :=
  let '(id, err) := strconv.ParseInt idStr in
  match err with
  | Some _ => None
  | None => if id <=? 0 then None else Some id
  end.

Record cleanupRequest := mkCleanupRequest { URL : string; Operation : string }.

Section Handlers.
Context `{UnicodeCase} {S : Type} `{BookRepository S}.

Definition ListBooks (st : S) : response * S :=
  let '((books, err), st) := bookService.ListBooks st in
  match err with
  | Some e => (httpError 500 (builtin.Error e), st)
  | None => (jsonOK (encBooks books), st)
  end.

Definition CreateBook (now : Time) (decoded : option CreateBookInput.t) (st : S)
  : response * S :=
  match decoded with
  | None => (httpError 400 "invalid JSON body", st)
  | Some in_ =>
      let '((book, err), st) := bookService.CreateBook now in_ st in
      match err with
      | Some (builtin.validationError ve) => (httpValidation ve, st)
      | Some e => (httpError 400 (builtin.Error e), st)
      | None => (jsonCreated (encBook book), st)
      end
  end.

Definition GetBook (idStr : string) (st : S) : response * S :=
  match parseIDParam idStr with
  | None => (httpError 400 "invalid id", st)
  | Some id =>
      let '((book, err), st) := bookService.GetBook id st in
      match err with
      | Some e => (httpError 500 (builtin.Error e), st)
      | None =>
          match book with
          | None => (httpError 404 "not found", st)
          | Some b => (jsonOK (encBook (Some b)), st)
          end
      end
  end.

Definition UpdateBook (now : Time) (idStr : string) (decoded : option UpdateBookInput.t)
    (st : S) : response * S :=
  match parseIDParam idStr with
  | None => (httpError 400 "invalid id", st)
  | Some id =>
      match decoded with
      | None => (httpError 400 "invalid JSON body", st)
      | Some in_ =>
          let '((book, err), st) := bookService.UpdateBook now id in_ st in
          match err with
          | Some (builtin.validationError ve) => (httpValidation ve, st)
          | Some e =>
              if String.eqb (builtin.Error e) "book not found"
              then (httpError 404 "not found", st)
              else (httpError 400 (builtin.Error e), st)
          | None => (jsonOK (encBook book), st)
          end
      end
  end.

Definition DeleteBook (idStr : string) (st : S) : response * S :=
  match parseIDParam idStr with
  | None => (httpError 400 "invalid id", st)
  | Some id =>
      let '(err, st) := bookService.DeleteBook id st in
      match err with
      | Some e => (httpError 500 (builtin.Error e), st)
      | None => (mkResponse 204 noBody, st)
      end
  end.

End Handlers.

(** [CleanupURL]. *)
Definition CleanupURL `{UnicodeCase} (decoded : option cleanupRequest) : response :=
  match decoded with
  | None => httpError 400 "invalid JSON body"
  | Some req =>
      let op := ToLower (TrimSpace (Operation req)) in
      match handlers.processURL op (URL req) with
      | inr err => httpError 400 (handlers.error_message err)
      | inl out => jsonOK (encCleanup out)
      end
  end.

End Handler.

(** ** Package [main] *)

Module main.

Import Go.

(** [os.Getenv] on an environment: the empty string for a variable that is
    not set. *)
Definition Getenv (env : gmap string string) (k : string) : string :=
  default "" (env !! k).

Definition getEnv (env : gmap string string) (k def : string) : string :=
  let v := Getenv env k in
  if negb (isEmpty v) then v else def.

Record config := mkConfig {
  User : string;
  Pass : string;
  Host : string;
  PortDB : string;
  DBName : string;
  Params : string;
  Port : string
}.

Definition loadConfig (env : gmap string string) : config :=
  mkConfig (Getenv env "MYSQL_USER") (Getenv env "MYSQL_PASSWORD")
    (getEnv env "MYSQL_HOST" "db") (getEnv env "MYSQL_PORT" "3306")
    (getEnv env "MYSQL_DATABASE" "booksdb")
    (getEnv env "MYSQL_PARAMS" "parseTime=true&charset=utf8mb4&loc=UTC")
    (getEnv env "PORT" "8080").

(** [DSN]: the format [%s:%s@tcp(%s:%s)/%s?%s]. *)
Definition DSN (c : config) : string :=
  User c +:+ ":" +:+ Pass c +:+ "@tcp(" +:+ Host c +:+ ":" +:+ PortDB c +:+ ")/"
  +:+ DBName c +:+ "?" +:+ Params c.

(** [ping], over the states [S] of a database connection: [Ping] is
    [db.Ping] and the number counts the calls of [time.Sleep], one second
    each. *)
Fixpoint pingLoop {S : Type} (Ping : S → option builtin.error * S) (k : nat) (st : S)
    (sleeps : nat) : (option builtin.error * S) * nat :=
  match k with
  | O => ((Some (builtin.errorString "unable to connect to DB after retries"), st), sleeps)
  | Datatypes.S k' =>
      let '(err, st) := Ping st in
      match err with
      | None => ((None, st), sleeps)
      | Some _ => pingLoop Ping k' st (Datatypes.S sleeps)
      end
  end.

Definition ping {S : Type} (Ping : S → option builtin.error * S) (st : S)
  : (option builtin.error * S) * nat :=
  pingLoop Ping 20 st 0.

(** [splitAndTrim]. *)
Definition splitAndTrim (s sep : string) : list string :=
  fold_left
    (λ out p, let p := TrimSpace p in if negb (isEmpty p) then out ++ [p] else out)
    (Strings.Split s sep) [].

End main.

(* ================================================================== *)
(** * Vocabulary of the statements *)
(* ================================================================== *)

Import Go app url handlers.

(** The rules of section 4.1, field by field, and the message that the first
    violated rule of a field records. *)
Definition titleInvalid (t : string) : bool :=
  isEmpty (TrimSpace t) || (len (TrimSpace t) >? 120).
Definition authorInvalid (a : string) : bool :=
  isEmpty (TrimSpace a) || (len (TrimSpace a) >? 80).
Definition isbnInvalid `{UnicodeCase} (s : string) : bool :=
  isEmpty (TrimSpace s) || negb (isValidISBN (TrimSpace s)).
Definition yearInvalid (y : Z) : bool :=
  (y =? 0) || negb (isValidFourDigitYearInt y).
Definition priceInvalid (p : math.float64) : bool :=
  PrimFloat.ltb p 0%float || PrimFloat.ltb 1000000%float p || negb (hasMax2Decimals p).

Definition titleMessage (t : string) : string :=
  if isEmpty (TrimSpace t) then "Title is required" else "Title must be ≤ 120 characters".
Definition authorMessage (a : string) : string :=
  if isEmpty (TrimSpace a) then "Author is required" else "Author must be ≤ 80 characters".
Definition isbnMessage (s : string) : string :=
  if isEmpty (TrimSpace s) then "ISBN is required"
  else "Invalid ISBN (must be ISBN-10 or ISBN-13)".
Definition yearMessage (y : Z) : string :=
  if y =? 0 then "Publication year is required"
  else "Publication year must be a 4-digit number".
Definition priceMessage (p : math.float64) : string :=
  if PrimFloat.ltb p 0%float then "Price must be ≥ 0"
  else if PrimFloat.ltb 1000000%float p then "Price is too large"
  else "Max 2 decimal places".

Definition fieldNames : gset string :=
  {[ "title"; "author"; "isbn"; "publication_year"; "price" ]}.

(** The value of a decimal digit character. *)
Definition digit (s : string) (i : nat) : Z := byteZ (at_ s i) - 48.

(** [Σ_{i = 0 .. n-1} f i]. *)
Fixpoint bigsum (f : nat → Z) (n : nat) : Z :=
  match n with
  | O => 0
  | S k => bigsum f k + f k
  end.

Definition isbn10Candidate (n : string) : Prop :=
  String.length n = 10%nat
  ∧ (∀ i, (i < 9)%nat → isDigit (at_ n i) = true)
  ∧ (isDigit (at_ n 9) = true ∨ at_ n 9 = "X"%char).

Definition isbn10Sum (n : string) : Z :=
  bigsum (λ i, (10 - Z.of_nat i) * digit n i) 9
  + (if Ascii.eqb (at_ n 9) "X" then 10 else digit n 9).

Definition isbn13Candidate (n : string) : Prop :=
  String.length n = 13%nat ∧ (∀ i, (i < 13)%nat → isDigit (at_ n i) = true).

Definition isbn13Sum (n : string) : Z :=
  bigsum (λ i, digit n i * (if Nat.even i then 1 else 3)) 12.

Definition isbnSpec (n : string) : Prop :=
  (isbn10Candidate n ∧ isbn10Sum n mod 11 = 0)
  ∨ (isbn13Candidate n ∧ digit n 12 = (10 - isbn13Sum n mod 10) mod 10).

(** The normal form as the specification words it: the bytes of [s] that
    are neither a space nor a hyphen, in their order... *)
Fixpoint withoutSpacesAndHyphens (s : string) : string :=
  match s with
  | EmptyString => EmptyString
  | String a t =>
      if Ascii.eqb a " " || Ascii.eqb a "-" then withoutSpacesAndHyphens t
      else String a (withoutSpacesAndHyphens t)
  end.

(** ... and then in upper case. *)
Definition specNormalForm `{UnicodeCase} (s : string) : string :=
  ToUpper (withoutSpacesAndHyphens s).

(** Upper case on ASCII text, written out: the bytes a to z move to A to Z,
    every other byte stays. *)
Definition upperASCII (c : ascii) : ascii :=
  if (97 <=? byteZ c) && (byteZ c <=? 122) then Zbyte (byteZ c - 32) else c.

(** [s] with its byte at index [i] replaced by [c]. *)
Fixpoint setAt (i : nat) (c : ascii) (s : string) : string :=
  match s, i with
  | EmptyString, _ => EmptyString
  | String _ t, O => String c t
  | String a t, S k => String a (setAt k c t)
  end.

Definition dv (c : ascii) : Z := byteZ c - 48.

Definition create_all_invalid_input : CreateBookInput.t :=
  CreateBookInput.mk "" "" "" (-1)%float 0.

Definition create_bad_title_good_isbn : CreateBookInput.t :=
  CreateBookInput.mk "  " " Robert C. Martin " " 0-8044-2957-x " 33.5%float 2008.

(** The value of a finite float64 counted in units of 2^-1074, the distance
    between the smallest float64s: every finite float64 is a whole number of
    them.  NaN and the infinities have no value. *)
Definition units (x : math.float64) : option Z :=
  match FloatOps.Prim2SF x with
  | SpecFloat.S754_zero _ => Some 0
  | SpecFloat.S754_finite s m e =>
      Some ((if s then -1 else 1) * (Z.pos m * 2 ^ (e + 1074)))
  | _ => None
  end.

(** The number one in these units. *)
Definition unitsOfOne : Z := 2 ^ 1074.

(** [k] is the integer nearest to the value [v] (in units): at most one half
    away, and the one of larger magnitude when [v] is half way between two
    integers. *)
Definition nearestInteger (v k : Z) : Prop :=
  2 * Z.abs (v - k * unitsOfOne) ≤ unitsOfOne
  ∧ (2 * Z.abs (v - k * unitsOfOne) = unitsOfOne
     → Z.abs v < Z.abs (k * unitsOfOne)).

(** The three fields of a bit pattern. *)
Definition packBits (s : bool) (E frac : Z) : Z :=
  (if s then 2 ^ 63 else 0) + E * 2 ^ 52 + frac.

(** The float a bit pattern stands for. *)
Definition bitsFloat (s : bool) (E frac : Z) : SpecFloat.spec_float :=
  if E =? 0x7FF then
    (if frac =? 0 then SpecFloat.S754_infinity s else SpecFloat.S754_nan)
  else if E =? 0 then
    match frac with
    | Z.pos m => SpecFloat.S754_finite s m (-1074)
    | _ => SpecFloat.S754_zero s
    end
  else
    match 2 ^ 52 + frac with
    | Z.pos m => SpecFloat.S754_finite s m (E - 1075)
    | _ => SpecFloat.S754_zero s
    end.

(** The value, in units, of the finite float with the fields [E], [frac]. *)
Definition magnitude (E frac : Z) : Z :=
  if E =? 0 then frac else (2 ^ 52 + frac) * 2 ^ (E - 1).

(** The exponent and fraction fields that [math.Round] leaves, from those
    of its argument. *)
Definition roundFields (E frac : Z) : Z * Z :=
  if E <? 1022 then (0, 0)
  else if E =? 1022 then (1023, 0)
  else if E <? 1075 then
    if frac + 2 ^ (1074 - E) <? 2 ^ 52
    then (E, (frac + 2 ^ (1074 - E)) / 2 ^ (1075 - E) * 2 ^ (1075 - E))
    else (E + 1, 0)
  else (E, frac).

(** [strings.Repeat]. *)
Fixpoint Repeat (s : string) (count : nat) : string :=
  match count with
  | O => EmptyString
  | S k => s +:+ Repeat s k
  end.

(** [x] is a float64 nearest to the positive fraction [num / den]: it is
    positive and at most half of the distance to its neighbours away. *)
Definition nearestFloat64 (num den : Z) (x : math.float64) : Prop :=
  match FloatOps.Prim2SF x with
  | SpecFloat.S754_finite false m e =>
      2 * Z.abs (Z.pos m * 2 ^ (e + 1074) * den - num * unitsOfOne)
      ≤ 2 ^ (e + 1074) * den
  | _ => False
  end.

(** A title of 61 characters, each of two bytes in UTF-8. *)
Definition title61 : string := Repeat "é" 61.

(** A raw string is a valid URL for the handler when it parses into [u] with
    a scheme and a host. *)
Definition validURL `{UnicodeCase} (raw : string) (u : URL) : Prop :=
  Parse raw = Some u ∧ Scheme u ≠ "" ∧ Host u ≠ "".

Definition knownOperation (op : string) : Prop :=
  op = "canonical" ∨ op = "redirection" ∨ op = "all".

(** The switch of [processURL], once the URL has passed the guard. *)
Definition dispatch `{UnicodeCase} (op : string) (u : URL) : string + error :=
  if String.eqb op "canonical" then inl (String_ (canonicalized u))
  else if String.eqb op "redirection" then inl (applyRedirection u)
  else if String.eqb op "all" then
    match Parse (applyRedirection u) with
    | None => inr unexpected_parse_error
    | Some u2 => inl (String_ (set_Fragment "" (set_RawQuery "" u2)))
    end
  else inr invalid_operation.

Definition noByte (c : ascii) (s : string) : Prop :=
  allS (λ a, negb (Ascii.eqb a c)) s = true.

Definition hexHi (c : ascii) : ascii := at_ upperhex (Z.to_nat (Z.shiftr (byteZ c) 4)).
Definition hexLo (c : ascii) : ascii := at_ upperhex (Z.to_nat (Z.land (byteZ c) 15)).

(** The bytes that [escape] can write in a component. *)
Definition escapeOutput (mode : encoding) (a : ascii) : bool :=
  Ascii.eqb a "%" || inBytes a upperhex
  || (Ascii.eqb a "+" && encoding_eqb mode encodeQueryComponent)
  || negb (shouldEscape a mode).

Definition plainMode (mode : encoding) : bool :=
  negb (encoding_eqb mode encodeHost || encoding_eqb mode encodeZone).

(** One [key=value] pair as [Values.Encode] writes it. *)
Definition encPair (kv : string * string) : string :=
  QueryEscape kv.1 +:+ "=" +:+ QueryEscape kv.2.

(** [m[key] = append(m[key], value)]. *)
Definition addPair (m : gmap string (list string)) (kv : string * string)
  : gmap string (list string) :=
  <[kv.1 := default [] (m !! kv.1) ++ [kv.2]]> m.

(** The pairs of [v] for the keys [keys], in that order. *)
Definition pairsOf (v : gmap string (list string)) (keys : list string)
  : list (string * string) :=
  k ← keys; (λ val, (k, val)) <$> default [] (v !! k).

(** No key of a [Values] map built by the parser has an empty list. *)
Definition noEmptyValues (v : gmap string (list string)) : Prop :=
  ∀ k vals, v !! k = Some vals → vals ≠ [].






(** The two tests that [unescape] makes on an escape [%ab] of a host or of a
    zone. *)
Definition escapeAllowed (mode : encoding) (a b : ascii) : bool :=
  let is25 := Ascii.eqb a "2" && Ascii.eqb b "5" in
  let v := Zbyte (Z.lor (Z.shiftl (unhex a) 4) (unhex b)) in
  negb (encoding_eqb mode encodeHost && (unhex a <? 8) && negb is25)
  && negb (encoding_eqb mode encodeZone && negb is25
           && negb (Ascii.eqb v " ") && shouldEscape v encodeHost).

(** The test on a byte that is no escape. *)
Definition rawAllowed (mode : encoding) (c : ascii) : bool :=
  negb ((encoding_eqb mode encodeHost || encoding_eqb mode encodeZone)
        && (byteZ c <? 0x80) && shouldEscape c encodeHost).

Definition decodeEscape (a b : ascii) : ascii :=
  Zbyte (Z.lor (Z.shiftl (unhex a) 4) (unhex b)).

(** The bytes of a decoded host: bytes above 0x7F, the percent sign (written
    [%25]) and the ASCII bytes that need no escape. *)
Definition hostOK (c : ascii) : bool :=
  (0x80 <=? byteZ c) || Ascii.eqb c "%" || negb (shouldEscape c encodeHost).

(** The bytes of a decoded zone, which may hold a space as well. *)
Definition zoneOK (c : ascii) : bool := hostOK c || Ascii.eqb c " ".

Definition isASCIIByte (c : ascii) : bool := byteZ c <? 0x80.

Definition isDigitByte (c : ascii) : bool := (48 <=? byteZ c) && (byteZ c <=? 57).

(** In a host in brackets, the zone (everything from the first percent sign
    on) is ASCII. *)
Definition bracketedZoneASCII (h : string) : bool :=
  if HasPrefix h "[" then
    match IndexByte h "%" with
    | Some z => allS isASCIIByte (dropS z h)
    | None => true
    end
  else true.

(** The shape of a host that [parseHost] returns: a name with an optional
    port, or an address in brackets with an optional zone and port. *)
Definition plainHost (h : string) : Prop :=
  HasPrefix h "[" = false ∧ allS hostOK h = true
  ∧ ∃ name port, h = name +:+ port
      ∧ ((port = "" ∧ noByte ":" name)
         ∨ (∃ digits, port = String ":" digits ∧ allS isDigitByte digits = true)).

Definition bracketHost (h : string) : Prop :=
  ∃ addr zone port,
    h = addr +:+ zone +:+ String "]" port
    ∧ HasPrefix addr "[" = true ∧ allS hostOK addr = true ∧ noByte "%" addr
    ∧ (zone = "" ∨ HasPrefix zone "%" = true) ∧ allS zoneOK zone = true
    ∧ validOptionalPort port = true.

(** The bytes of a zone that survive a round trip: the zone of a decoded
    host without its bytes above 0x7F. *)
Definition zoneASCIIOK (c : ascii) : bool :=
  Ascii.eqb c "%" || Ascii.eqb c " " || negb (shouldEscape c encodeHost).

(** A [Userinfo] without password has the empty password. *)
Definition userinfoWF (user : option Userinfo) : Prop :=
  ∀ ui, user = Some ui → passwordSet ui = false → password ui = "".

(** The authority that [String] writes: user information and host. *)
Definition authorityText (user : option Userinfo) (h : string) : string :=
  match user with
  | Some ui => Userinfo_String ui +:+ String "@" (escape h encodeHost)
  | None => escape h encodeHost
  end.

Definition isLetterByte (c : ascii) : bool :=
  isLowerASCII (byteZ c) || isUpperASCII (byteZ c).

(** The bytes that [getScheme] lets through after the first one. *)
Definition schemeByte (c : ascii) : bool :=
  isLetterByte c || isDigitByte c || inBytes c "+-.".

(** A scheme as [getScheme] returns it: a letter, then scheme bytes. *)
Definition schemeText (s : string) : Prop :=
  ∃ c t, s = String c t ∧ isLetterByte c = true ∧ allS schemeByte t = true.

(** A scheme in lower case, as [Parse] stores it. *)
Definition lowerSchemeText (s : string) : Prop :=
  schemeText s ∧ allS (λ c, negb (isUpperASCII (byteZ c))) s = true.

Definition notCTL (c : ascii) : bool := negb ((byteZ c <? 32) || (byteZ c =? 0x7F)).

Definition noCTL (s : string) : Prop := allS notCTL s = true.

(** The text of a path as it stands in a URL that parsed: after the
    authority, before the query. *)
Definition rawPathOK (r : string) : Prop :=
  HasPrefix r "/" = true ∧ noByte "?" r ∧ noByte "#" r ∧ noCTL r.

(** The path of a URL with a host is empty or absolute, and [RawPath], when
    it is kept, is the text that was parsed. *)
Definition pathWF (u : URL) : Prop :=
  (Path u = "" ∨ HasPrefix (Path u) "/" = true)
  ∧ (RawPath u ≠ "" → rawPathOK (RawPath u)).

(** A URL as [Parse] builds it from [scheme://authority/path]: a scheme in
    lower case, no opaque part, user and host read from one authority, and a
    well-formed path. *)
Definition hierarchical (u : URL) : Prop :=
  lowerSchemeText (Scheme u) ∧ Opaque u = ""
  ∧ (∃ authority, parseAuthority authority = Some (User u, Host u))
  ∧ pathWF u.

(** What [String] writes for a URL with a scheme, a host, no opaque part, no
    query and no fragment. *)
Definition canonicalText (sch : string) (user : option Userinfo) (h ep : string)
    (fq : bool) : string :=
  sch +:+ String ":" (String "/" (String "/"
    (authorityText user h +:+ ep +:+ (if fq then "?" else "")))).

(** The entry that an invalid field leaves in the error set. *)
Definition entry (b : bool) (field msg : string) : gmap string string :=
  if b then {[ field := msg ]} else ∅.

(** [add] under a condition. *)
Definition addIf (b : bool) (field msg : string) (e : ValidationError) : ValidationError :=
  if b then add field msg e else e.

(** The error set of a create request: one entry for each invalid field. *)
Definition createIssues `{UnicodeCase} (in_ : CreateBookInput.t) : gmap string string :=
  entry (priceInvalid (CreateBookInput.Price in_)) "price"
        (priceMessage (CreateBookInput.Price in_))
  ∪ (entry (yearInvalid (CreateBookInput.PublicationYear in_)) "publication_year"
           (yearMessage (CreateBookInput.PublicationYear in_))
  ∪ (entry (isbnInvalid (CreateBookInput.ISBN in_)) "isbn"
           (isbnMessage (CreateBookInput.ISBN in_))
  ∪ (entry (authorInvalid (CreateBookInput.Author in_)) "author"
           (authorMessage (CreateBookInput.Author in_))
  ∪ entry (titleInvalid (CreateBookInput.Title in_)) "title"
          (titleMessage (CreateBookInput.Title in_))))).

(** The input that a create request is turned into. *)
Definition createNormalized `{UnicodeCase} (in_ : CreateBookInput.t) : CreateBookInput.t :=
  CreateBookInput.mk
    (TrimSpace (CreateBookInput.Title in_))
    (TrimSpace (CreateBookInput.Author in_))
    (if isbnInvalid (CreateBookInput.ISBN in_) then TrimSpace (CreateBookInput.ISBN in_)
     else normalizeISBN (TrimSpace (CreateBookInput.ISBN in_)))
    (CreateBookInput.Price in_)
    (CreateBookInput.PublicationYear in_).

(** The error value for a set of issues: [nil] when there is none. *)
Definition issuesError (m : gmap string string) : option ValidationError :=
  if decide (m = ∅) then None else Some {| Fields := Some m |}.

(** An error set as the validators build it: the initial one, or one whose
    map has been allocated by [add]. *)
Definition built (e : ValidationError) : Prop :=
  e = {| Fields := None |} ∨ Fields e = Some (fieldsOf e).

(** The same for a field of a patch, which may be absent. *)
Definition optEntry {A : Type} (o : option A) (bad : A → bool) (field : string)
    (msg : A → string) : gmap string string :=
  match o with
  | Some v => entry (bad v) field (msg v)
  | None => ∅
  end.

Definition addOpt {A : Type} (o : option A) (bad : A → bool) (field : string)
    (msg : A → string) (e : ValidationError) : ValidationError :=
  match o with
  | Some v => addIf (bad v) field (msg v) e
  | None => e
  end.

(** The year rule of a patch: zero is no special case. *)
Definition yearInvalidUpdate (y : Z) : bool := negb (isValidFourDigitYearInt y).

Definition yearMessageUpdate (y : Z) : string := "Publication year must be a 4-digit number".

(** The error set of an update request. *)
Definition updateIssues `{UnicodeCase} (in_ : UpdateBookInput.t) : gmap string string :=
  optEntry (UpdateBookInput.Price in_) priceInvalid "price" priceMessage
  ∪ (optEntry (UpdateBookInput.PublicationYear in_) yearInvalidUpdate "publication_year"
       yearMessageUpdate
  ∪ (optEntry (UpdateBookInput.ISBN in_) isbnInvalid "isbn" isbnMessage
  ∪ (optEntry (UpdateBookInput.Author in_) authorInvalid "author" authorMessage
  ∪ optEntry (UpdateBookInput.Title in_) titleInvalid "title" titleMessage))).

(** The patch that an update request is turned into: a field that fails
    keeps the text it came with. *)
Definition updateNormalized `{UnicodeCase} (in_ : UpdateBookInput.t) : UpdateBookInput.t :=
  UpdateBookInput.mk
    ((λ v, if titleInvalid v then v else TrimSpace v) <$> UpdateBookInput.Title in_)
    ((λ v, if authorInvalid v then v else TrimSpace v) <$> UpdateBookInput.Author in_)
    ((λ v, if isbnInvalid v then v else normalizeISBN (TrimSpace v))
       <$> UpdateBookInput.ISBN in_)
    (UpdateBookInput.Price in_)
    (UpdateBookInput.PublicationYear in_).

(** The bytes of a normalized ISBN that is valid. *)
Definition isbnByte (c : ascii) : bool := isDigit c || Ascii.eqb c "X".

(** The patch that sets every field of a create request. *)
Definition patchOf (in_ : CreateBookInput.t) : UpdateBookInput.t :=
  UpdateBookInput.mk
    (Some (CreateBookInput.Title in_)) (Some (CreateBookInput.Author in_))
    (Some (CreateBookInput.ISBN in_)) (Some (CreateBookInput.Price in_))
    (Some (CreateBookInput.PublicationYear in_)).

(** A text field is within its limit: not empty once trimmed, and at most
    [limit] bytes long. *)
Definition withinBytes (limit : nat) (s : string) : Prop :=
  (1 <= String.length (TrimSpace s) <= limit)%nat.

(** The number that a string of decimal digits denotes, after the digits
    that gave [acc]. *)
Fixpoint digitsValue (s : string) (acc : Z) : Z :=
  match s with
  | EmptyString => acc
  | String c t => digitsValue t (acc * 10 + (byteZ c - 48))
  end.

(** The invariant of a stored book: title and author trimmed, not empty and
    within their limits in bytes; an ISBN of digits and X that is valid; a
    year of four digits; a price that passes the three tests. *)
Definition validBook `{UnicodeCase} (b : domain.Book) : Prop :=
  withinBytes 120 (domain.Title b) ∧ TrimSpace (domain.Title b) = domain.Title b
  ∧ withinBytes 80 (domain.Author b) ∧ TrimSpace (domain.Author b) = domain.Author b
  ∧ allS isbnByte (domain.ISBN b) = true ∧ isValidISBN (domain.ISBN b) = true
  ∧ 1000 <= domain.PublicationYear b <= 9999
  ∧ priceInvalid (domain.Price b) = false.

(** The book that [CreateBook] builds from a validated request. *)
Definition bookOf (n : CreateBookInput.t) (now : domain.Time) : domain.Book :=
  domain.mk 0 (CreateBookInput.Title n) (CreateBookInput.Author n) (CreateBookInput.ISBN n)
    (CreateBookInput.Price n) (CreateBookInput.PublicationYear n) now now.

(** [book.ID = id]. *)
Definition withID (id : Z) (b : domain.Book) : domain.Book :=
  domain.mk id (domain.Title b) (domain.Author b) (domain.ISBN b) (domain.Price b)
    (domain.PublicationYear b) (domain.CreatedAt b) (domain.UpdatedAt b).

(** What the service returns after a call of the repository that gives a
    book. *)
Definition afterCreate {S : Type} (b : domain.Book)
    (r : (Z * option builtin.error) * S) : (option domain.Book * option builtin.error) * S :=
  match r with
  | ((_, Some e), st) => ((None, Some e), st)
  | ((id, None), st) => ((Some (withID id b), None), st)
  end.

Definition afterUpdate {S : Type} (b : domain.Book)
    (r : option builtin.error * S) : (option domain.Book * option builtin.error) * S :=
  match r with
  | (Some e, st) => ((None, Some e), st)
  | (None, st) => ((Some b, None), st)
  end.

(** A book that satisfies the invariant, and a repository that holds it
    under every identifier. *)
Definition dune : domain.Book :=
  domain.mk 7 "Dune" "Frank Herbert" "0306406152" 10.5%float 1965 100 100.

Definition duneRepo : mockRepo.t :=
  mockRepo.mk ([dune], None) (λ _, (Some dune, None)) (λ _, (8, None)) (λ _, None)
    (λ _, None).

(** A repository that holds no book. *)
Definition emptyRepo : mockRepo.t :=
  mockRepo.mk ([], None) (λ _, (None, None)) (λ _, (1, None)) (λ _, None) (λ _, None).

(** The patch that sets the price alone. *)
Definition pricePatch (p : math.float64) : UpdateBookInput.t :=
  UpdateBookInput.mk None None None (Some p) None.

(** The state of the connection after [i] calls of [Ping], and the result of
    the call that follows. *)
Fixpoint pingState {S : Type} (Ping : S → option builtin.error * S) (i : nat) (st : S) : S :=
  match i with
  | O => st
  | Datatypes.S j => snd (Ping (pingState Ping j st))
  end.

Definition pingResult {S : Type} (Ping : S → option builtin.error * S) (i : nat) (st : S)
  : option builtin.error :=
  fst (Ping (pingState Ping i st)).

(* ================================================================== *)
(** * Properties *)
(* ================================================================== *)

Section Book.
Context `{UnicodeCase}.

Lemma fieldsOf_add_fresh f m v :
  fieldsOf v !! f = None → fieldsOf (add f m v) = <[f := m]> (fieldsOf v).
Proof. intros Hf. unfold add. rewrite Hf. reflexivity. Qed.

Lemma fieldsOf_add_present f m v :
  is_Some (fieldsOf v !! f) → fieldsOf (add f m v) = fieldsOf v.
Proof. intros [x Hx]. unfold add. rewrite Hx. reflexivity. Qed.

Lemma lookup_add f g m v :
  fieldsOf (add f m v) !! g =
  if decide (f = g) then Some (default m (fieldsOf v !! f)) else fieldsOf v !! g.
Proof.
  unfold add. destruct (fieldsOf v !! f) as [x|] eqn:E; cbn [fieldsOf Fields].
  - case_decide; subst; rewrite ?E; reflexivity.
  - rewrite lookup_insert. case_decide; subst; reflexivity.
Qed.

Lemma add_first_wins f m1 m2 v :
  fieldsOf (add f m2 (add f m1 v)) = fieldsOf (add f m1 v).
Proof.
  apply fieldsOf_add_present. rewrite lookup_add. rewrite decide_True by done. eauto.
Qed.

Lemma ok_true_iff v : ok v = true ↔ fieldsOf v = ∅.
Proof.
  unfold ok. rewrite bool_decide_eq_true. apply map_size_empty_iff.
Qed.

Lemma ok_add f m v : ok (add f m v) = false.
Proof.
  apply not_true_is_false. intros Hok%ok_true_iff.
  pose proof (lookup_add f f m v) as Hl. rewrite Hok, lookup_empty in Hl.
  rewrite decide_True in Hl by done. discriminate.
Qed.

Lemma ok_init : ok {| Fields := None |} = true.
Proof. reflexivity. Qed.

End Book.

Section Book.
Context `{UnicodeCase}.

Lemma checkPrice_invalid p v :
  priceInvalid p = true → checkPrice p v = add "price" (priceMessage p) v.
Proof.
  unfold priceInvalid, checkPrice, priceMessage.
  destruct (PrimFloat.ltb p 0); [done|].
  destruct (PrimFloat.ltb 1000000 p); [done|].
  destruct (hasMax2Decimals p); [discriminate|done].
Qed.

Lemma checkPrice_valid p v : priceInvalid p = false → checkPrice p v = v.
Proof.
  unfold priceInvalid, checkPrice.
  destruct (PrimFloat.ltb p 0); [discriminate|].
  destruct (PrimFloat.ltb 1000000 p); [discriminate|].
  destruct (hasMax2Decimals p); [done|discriminate].
Qed.

(** C2: [validateAndNormalizeCreate] checks each of the five fields whatever
    the earlier ones gave.  When title, author, ISBN, publication year and
    price are all invalid, the error set that is returned has exactly the
    five keys title, author, isbn, publication_year and price, and the
    message under each key is the first one the code records for that
    field ([add] discards a later message for a key that is present). *)
Theorem create_reports_all_five_fields (in_ : CreateBookInput.t) :
  titleInvalid (CreateBookInput.Title in_) = true →
  authorInvalid (CreateBookInput.Author in_) = true →
  isbnInvalid (CreateBookInput.ISBN in_) = true →
  yearInvalid (CreateBookInput.PublicationYear in_) = true →
  priceInvalid (CreateBookInput.Price in_) = true →
  ∃ errs : ValidationError,
    snd (validateAndNormalizeCreate in_) = Some errs
    ∧ fieldsOf errs =
        {[ "title" := titleMessage (CreateBookInput.Title in_);
           "author" := authorMessage (CreateBookInput.Author in_);
           "isbn" := isbnMessage (CreateBookInput.ISBN in_);
           "publication_year" := yearMessage (CreateBookInput.PublicationYear in_);
           "price" := priceMessage (CreateBookInput.Price in_) ]}
    ∧ dom (fieldsOf errs) = fieldNames
    ∧ size (fieldsOf errs) = 5%nat
    ∧ ∀ field msg, field ∈ fieldNames → fieldsOf (add field msg errs) = fieldsOf errs.
Proof.
  destruct in_ as [t a i p y]; cbn [CreateBookInput.Title CreateBookInput.Author
    CreateBookInput.ISBN CreateBookInput.Price CreateBookInput.PublicationYear].
  intros Ht Ha Hi Hy Hp.
  set (M := ({[ "title" := titleMessage t; "author" := authorMessage a;
              "isbn" := isbnMessage i; "publication_year" := yearMessage y;
              "price" := priceMessage p ]} : gmap string string)).
  assert (Hdom : dom M = fieldNames).
  { unfold M, fieldNames. rewrite !dom_insert_L, dom_singleton_L. set_solver. }
  assert (Hrun : ∃ errs, snd (validateAndNormalizeCreate
            (CreateBookInput.mk t a i p y)) = Some errs ∧ fieldsOf errs = M).
  { unfold validateAndNormalizeCreate; cbn [CreateBookInput.Title CreateBookInput.Author
      CreateBookInput.ISBN CreateBookInput.Price CreateBookInput.PublicationYear].
    cbv zeta.
    assert (Et : ∀ e, (if isEmpty (TrimSpace t) then add "title" "Title is required" e
                       else if len (TrimSpace t) >? 120
                            then add "title" "Title must be ≤ 120 characters" e else e)
                      = add "title" (titleMessage t) e).
    { intros e. unfold titleInvalid, titleMessage in *.
      destruct (isEmpty (TrimSpace t)); cbn [orb] in Ht; [done|]. by rewrite Ht. }
    assert (Ea : ∀ e, (if isEmpty (TrimSpace a) then add "author" "Author is required" e
                       else if len (TrimSpace a) >? 80
                            then add "author" "Author must be ≤ 80 characters" e else e)
                      = add "author" (authorMessage a) e).
    { intros e. unfold authorInvalid, authorMessage in *.
      destruct (isEmpty (TrimSpace a)); cbn [orb] in Ha; [done|]. by rewrite Ha. }
    assert (Ei : ∀ e, (if isEmpty (TrimSpace i)
                       then (TrimSpace i, add "isbn" "ISBN is required" e)
                       else if negb (isValidISBN (TrimSpace i))
                            then (TrimSpace i,
                                  add "isbn" "Invalid ISBN (must be ISBN-10 or ISBN-13)" e)
                            else (normalizeISBN (TrimSpace i), e))
                      = (TrimSpace i, add "isbn" (isbnMessage i) e)).
    { intros e. unfold isbnInvalid, isbnMessage in *.
      destruct (isEmpty (TrimSpace i)); cbn [orb] in Hi; [done|]. by rewrite Hi. }
    assert (Ey : ∀ e, (if y =? 0
                       then add "publication_year" "Publication year is required" e
                       else if negb (isValidFourDigitYearInt y)
                            then add "publication_year"
                                   "Publication year must be a 4-digit number" e
                            else e)
                      = add "publication_year" (yearMessage y) e).
    { intros e. unfold yearInvalid, yearMessage in *.
      destruct (y =? 0); cbn [orb] in Hy; [done|]. by rewrite Hy. }
    rewrite Et, Ea, Ei, Ey, (checkPrice_invalid _ _ Hp).
    subst M.
    generalize (titleMessage t) (authorMessage a) (isbnMessage i) (yearMessage y)
      (priceMessage p). intros m1 m2 m3 m4 m5.
    eexists; split; [reflexivity|].
    apply map_eq; intros k; rewrite !lookup_add; cbn [fieldsOf Fields].
    repeat (rewrite lookup_insert; case_decide; subst; [try done|]).
    repeat (case_decide; subst; try done); rewrite ?lookup_empty, ?lookup_singleton_ne by done; done. }
  destruct Hrun as (errs & Hrun & HM). exists errs.
  split; [exact Hrun|]. split; [exact HM|]. rewrite HM. split; [exact Hdom|]. split.
  - rewrite <- size_dom, Hdom. reflexivity.
  - intros f m Hf. rewrite <- HM. apply fieldsOf_add_present. rewrite HM.
    apply elem_of_dom. rewrite Hdom. exact Hf.
Qed.

End Book.

(** ** The checksums as the specification words them *)

Section ISBN.

Lemma isDigit_range c : isDigit c = true ↔ 48 <= byteZ c <= 57.
Proof. unfold isDigit. rewrite andb_true_iff, !Z.leb_le. tauto. Qed.

Lemma digitVal_digit c : isDigit c = true → digitVal c = byteZ c - 48.
Proof.
  intros Hc%isDigit_range. unfold digitVal. rewrite Z.mod_small; lia.
Qed.

Lemma byteZ_inj c d : byteZ c = byteZ d → c = d.
Proof.
  unfold byteZ. intros Hcd. apply N2Z.inj in Hcd.
  rewrite <- (ascii_N_embedding c), <- (ascii_N_embedding d). by rewrite Hcd.
Qed.

Lemma byteZ_X c : Ascii.eqb c "X" = true ↔ byteZ c = 88.
Proof.
  rewrite Ascii.eqb_eq. split; [by intros ->|]. intros Hc.
  apply byteZ_inj. by rewrite Hc.
Qed.

Lemma not_digit_X c : Ascii.eqb c "X" = true → isDigit c = false.
Proof.
  intros ->%Ascii.eqb_eq. reflexivity.
Qed.

(** A string of known length is a sequence of that many bytes. *)
Lemma length_S_inv s n :
  String.length s = S n → ∃ c t, s = String c t ∧ String.length t = n.
Proof. destruct s as [|c t]; [discriminate|]. intros [= Hn]. eauto. Qed.

Lemma length_0_inv s : String.length s = 0%nat → s = EmptyString.
Proof. by destruct s. Qed.

Ltac explode s Hlen :=
  repeat (let c := fresh "c" in let t := fresh "t" in let E := fresh "E" in
          apply length_S_inv in Hlen as (c & t & E & Hlen); subst);
  apply length_0_inv in Hlen; subst.

Lemma allS_forall p s :
  allS p s = true ↔ ∀ i, (i < String.length s)%nat → p (at_ s i) = true.
Proof.
  induction s as [|c t IH]; cbn [allS String.length].
  - split; [intros _ i Hi; lia|done].
  - rewrite andb_true_iff, IH. split.
    + intros [Hc Ht] [|i] Hi; [exact Hc|]. apply (Ht i). lia.
    + intros Hall. split; [apply (Hall O); lia|].
      intros i Hi. apply (Hall (S i)). lia.
Qed.

Lemma reIsbn10_spec s : reIsbn10_MatchString s = true ↔ isbn10Candidate s.
Proof.
  unfold reIsbn10_MatchString, isbn10Candidate.
  rewrite !andb_true_iff, orb_true_iff, Nat.eqb_eq, Ascii.eqb_eq. split.
  - intros [[Hlen Hd] Hl]. split; [exact Hlen|]. split; [|exact Hl].
    explode s Hlen. cbn in Hd. intros i Hi.
    do 9 (destruct i as [|i]; [cbn; repeat (apply andb_true_iff in Hd as [? Hd]); try done|]). lia.
  - intros (Hlen & Hd & Hl). split; [split; [exact Hlen|]|exact Hl].
    explode s Hlen. cbn.
    rewrite !andb_true_iff. repeat split;
     first [ apply (Hd 0%nat); lia | apply (Hd 1%nat); lia | apply (Hd 2%nat); lia
           | apply (Hd 3%nat); lia | apply (Hd 4%nat); lia | apply (Hd 5%nat); lia
           | apply (Hd 6%nat); lia | apply (Hd 7%nat); lia | apply (Hd 8%nat); lia ].
Qed.

Lemma reIsbn13_spec s : reIsbn13_MatchString s = true ↔ isbn13Candidate s.
Proof.
  unfold reIsbn13_MatchString, isbn13Candidate.
  rewrite andb_true_iff, Nat.eqb_eq, allS_forall. split.
  - intros [Hlen Hd]. rewrite Hlen in Hd. done.
  - intros [Hlen Hd]. rewrite Hlen. done.
Qed.

(** The loop of [isValidISBN10] computes the weighted sum of the
    specification on every candidate. *)
Lemma isValidISBN10_spec s :
  isValidISBN10 s = true ↔ isbn10Candidate s ∧ isbn10Sum s mod 11 = 0.
Proof.
  unfold isValidISBN10.
  destruct (reIsbn10_MatchString s) eqn:Hre; cbn [negb].
  - apply reIsbn10_spec in Hre. rewrite Z.eqb_eq.
    assert (Hsum : fold_left (λ sum i, sum + (10 - Z.of_nat i) * digitVal (at_ s i))
                     (seq 0 9) 0 = bigsum (λ i, (10 - Z.of_nat i) * digit s i) 9).
    { destruct Hre as (_ & Hd & _). cbn [seq fold_left bigsum]. unfold digit.
      rewrite !digitVal_digit by (apply Hd; lia). lia. }
    rewrite Hsum. unfold isbn10Sum.
    destruct (Ascii.eqb (at_ s 9) "X") eqn:HX.
    + tauto.
    + destruct Hre as (Hl & Hd & [H9|H9]).
      * rewrite (digitVal_digit _ H9). unfold digit.
        split; [intros; split; [repeat split; auto|done]|tauto].
      * apply Ascii.eqb_eq in H9. congruence.
  - split; [discriminate|]. intros [Hc%reIsbn10_spec _]. congruence.
Qed.

Lemma isValidISBN13_spec s :
  isValidISBN13 s = true
  ↔ isbn13Candidate s ∧ digit s 12 = (10 - isbn13Sum s mod 10) mod 10.
Proof.
  unfold isValidISBN13.
  destruct (reIsbn13_MatchString s) eqn:Hre; cbn [negb].
  - apply reIsbn13_spec in Hre. cbv zeta. rewrite Z.eqb_eq.
    assert (Hsum : fold_left (λ sum i,
                       if Z.of_nat i mod 2 =? 0 then sum + digitVal (at_ s i)
                       else sum + digitVal (at_ s i) * 3)
                     (seq 0 12) 0 = isbn13Sum s).
    { destruct Hre as (_ & Hd). unfold isbn13Sum. cbn [seq fold_left bigsum]. unfold digit.
      rewrite !digitVal_digit by (apply Hd; lia).
      repeat match goal with |- context [Z.of_nat ?k mod 2 =? 0] =>
        let b := eval vm_compute in (Z.of_nat k mod 2 =? 0) in
        change (Z.of_nat k mod 2 =? 0) with b end.
      cbn [Nat.even]. lia. }
    rewrite Hsum. destruct Hre as [Hl Hd].
    rewrite (digitVal_digit (at_ s 12)) by (apply Hd; lia). unfold digit.
    split; [intros ->; split; [split; auto|done]|intros [_ ->]; done].
  - split; [discriminate|]. intros [Hc%reIsbn13_spec _]. congruence.
Qed.

Context `{UnicodeCase}.

Lemma ReplaceAll_withoutSpacesAndHyphens s :
  ReplaceAll (ReplaceAll s " " "") "-" "" = withoutSpacesAndHyphens s.
Proof.
  induction s as [|a t IH]; [done|]. cbn [ReplaceAll withoutSpacesAndHyphens].
  destruct (Ascii.eqb a " ") eqn:Hsp; cbn [orb String.append]; [done|].
  cbn [ReplaceAll]. destruct (Ascii.eqb a "-"); cbn [String.append]; [done|].
  by rewrite IH.
Qed.

Lemma normalizeISBN_specNormalForm s : normalizeISBN s = specNormalForm s.
Proof.
  unfold normalizeISBN, specNormalForm.
  by rewrite ReplaceAll_withoutSpacesAndHyphens.
Qed.

Lemma upperByte_upperASCII c : upperByte c = upperASCII c.
Proof. reflexivity. Qed.

Lemma isASCII_withoutSpacesAndHyphens s :
  isASCII s = true → isASCII (withoutSpacesAndHyphens s) = true.
Proof.
  unfold isASCII. induction s as [|a t IH]; [done|].
  cbn [allS withoutSpacesAndHyphens]. intros [Ha Ht]%andb_true_iff.
  destruct (Ascii.eqb a " " || Ascii.eqb a "-"); [by apply IH|].
  cbn [allS]. by rewrite Ha, IH.
Qed.

Lemma specNormalForm_ASCII s :
  isASCII s = true → specNormalForm s = mapS upperASCII (withoutSpacesAndHyphens s).
Proof.
  intros Hs. unfold specNormalForm, ToUpper.
  by rewrite (isASCII_withoutSpacesAndHyphens _ Hs).
Qed.

Lemma isValidISBN_isbnSpec s : isValidISBN s = true ↔ isbnSpec (normalizeISBN s).
Proof.
  unfold isValidISBN, isbnSpec, len.
  set (n := normalizeISBN s).
  destruct (Z.of_nat (String.length n) =? 10) eqn:H10.
  - apply Z.eqb_eq in H10. rewrite isValidISBN10_spec. split; [tauto|].
    intros [?|[[Hl _] _]]; [done|]. lia.
  - apply Z.eqb_neq in H10.
    destruct (Z.of_nat (String.length n) =? 13) eqn:H13.
    + rewrite isValidISBN13_spec. split; [tauto|].
      intros [[[Hl _] _]|?]; [|done]. lia.
    + apply Z.eqb_neq in H13. split; [discriminate|].
      intros [[[Hl _] _]|[[Hl _] _]]; lia.
Qed.

(** C3: [isValidISBN] accepts a string exactly when its normalized form
    (the bytes of the string other than spaces and hyphens, in their order,
    in upper case) is a 10-character candidate, nine digits then a digit or
    X, whose sum of (10 - i) times digit i for i from 0 to 8, plus 10 for X
    or the value of the last digit, is divisible by 11, or a 13-digit
    candidate whose last digit is
    (10 - (sum of digit i times 1 or 3, for i from 0 to 11) mod 10) mod 10.
    The normalized form is the one the code computes; on ASCII text upper
    case moves a to z to A to Z and nothing else.  So hyphens, spaces and a
    lower-case x are accepted, on their own and together, and a wrong check
    digit is not. *)
Theorem isValidISBN_iff_checksum (s : string) :
  (isValidISBN s = true ↔ isbnSpec (specNormalForm s))
  ∧ normalizeISBN s = specNormalForm s
  ∧ (isASCII s = true →
     specNormalForm s = mapS upperASCII (withoutSpacesAndHyphens s)
     ∧ (isValidISBN s = true
        ↔ isbnSpec (mapS upperASCII (withoutSpacesAndHyphens s))))
  ∧ specNormalForm "978-0-306 40615-7" = "9780306406157"
  ∧ specNormalForm " 0-8044 2957-x " = "080442957X"
  ∧ isValidISBN "978-0-306-40615-7" = true
  ∧ isValidISBN "978 0 306 40615 7" = true
  ∧ isValidISBN "0-8044-2957-X" = true
  ∧ isValidISBN "080442957x" = true
  ∧ isValidISBN " 0-8044 2957-x " = true
  ∧ isValidISBN "978-0-306-40615-8" = false
  ∧ isValidISBN "080442957Y" = false.
Proof.
  split; [by rewrite isValidISBN_isbnSpec, normalizeISBN_specNormalForm|].
  split; [apply normalizeISBN_specNormalForm|].
  split.
  - intros Hs. split; [by apply specNormalForm_ASCII|].
    by rewrite isValidISBN_isbnSpec, normalizeISBN_specNormalForm,
      (specNormalForm_ASCII _ Hs).
  - repeat split; vm_compute; reflexivity.
Qed.

End ISBN.

Section Detect.

Lemma isDigit_not_X c : isDigit c = true → Ascii.eqb c "X" = false.
Proof.
  intros Hc. destruct (Ascii.eqb c "X") eqn:E; [|done].
  apply not_digit_X in E. congruence.
Qed.

Lemma byteZ_neq c d : c ≠ d → byteZ c ≠ byteZ d.
Proof. intros Hne Heq. apply Hne, byteZ_inj, Heq. Qed.

(** Eleven is prime and every weight of ISBN-10 lies in 1..10: a change of
    one digit moves the sum off the multiples of eleven. *)
Lemma mod11_shift w d d' R :
  1 <= w <= 10 → 0 <= d <= 9 → 0 <= d' <= 9 → d ≠ d' →
  (R + w * d) mod 11 = 0 → (R + w * d') mod 11 = 0 → False.
Proof.
  intros Hw Hd Hd' Hne H1 H2.
  assert (Hw' : w = 1 ∨ w = 2 ∨ w = 3 ∨ w = 4 ∨ w = 5 ∨ w = 6 ∨ w = 7 ∨ w = 8
                ∨ w = 9 ∨ w = 10) by lia.
  repeat destruct Hw' as [->|Hw']; try subst w; Z.div_mod_to_equations; lia.
Qed.

(** The weights 1 and 3 of ISBN-13 are coprime to ten. *)
Lemma mod10_shift w d d' R :
  w = 1 ∨ w = 3 → 0 <= d <= 9 → 0 <= d' <= 9 → d ≠ d' →
  (10 - (R + w * d) mod 10) mod 10 = (10 - (R + w * d') mod 10) mod 10 → False.
Proof.
  intros [-> | ->] Hd Hd' Hne H1; Z.div_mod_to_equations; lia.
Qed.

Ltac explode Hlen :=
  repeat (let c := fresh "c" in let t := fresh "t" in let E := fresh "E" in
          apply length_S_inv in Hlen as (c & t & E & Hlen); subst);
  apply length_0_inv in Hlen; subst.

Ltac shift11 Hsum Hsum' w old new :=
  match type of Hsum with
  | ?T mod 11 = 0 =>
      match type of Hsum' with
      | ?T' mod 11 = 0 =>
          apply (mod11_shift w (byteZ old - 48) (byteZ new - 48)
                   (T - w * (byteZ old - 48)));
          [ lia | lia | lia | lia
          | replace (T - w * (byteZ old - 48) + w * (byteZ old - 48)) with T by ring;
            exact Hsum
          | replace (T - w * (byteZ old - 48) + w * (byteZ new - 48)) with T' by ring;
            exact Hsum' ]
      end
  end.

Lemma isbn10Sum_explicit c0 c1 c2 c3 c4 c5 c6 c7 c8 c9 :
  isbn10Sum (String c0 (String c1 (String c2 (String c3 (String c4 (String c5
    (String c6 (String c7 (String c8 (String c9 EmptyString))))))))))
  = 10 * dv c0 + 9 * dv c1 + 8 * dv c2 + 7 * dv c3 + 6 * dv c4 + 5 * dv c5
    + 4 * dv c6 + 3 * dv c7 + 2 * dv c8
    + (if Ascii.eqb c9 "X" then 10 else dv c9).
Proof. reflexivity. Qed.

Lemma isbn10_digit_change s i c :
  isValidISBN10 s = true → isDigit (at_ s i) = true → isDigit c = true →
  c ≠ at_ s i → isValidISBN10 (setAt i c s) = false.
Proof.
  intros Hv Hi Hc Hne.
  apply isValidISBN10_spec in Hv as [(Hlen & Hd & Hl) Hsum].
  apply not_true_is_false. intros [_ Hsum']%isValidISBN10_spec.
  clear Hd Hl. explode Hlen.
  pose proof (proj1 (isDigit_range _) Hc) as Dc.
  pose proof (proj1 (isDigit_range _) Hi) as Di.
  rewrite isbn10Sum_explicit in Hsum.
  do 9 (destruct i as [|i];
    [ cbn [setAt] in Hsum'; cbn [at_ String.get] in Hne, Di;
      rewrite isbn10Sum_explicit in Hsum'; unfold dv in *;
      pose proof (byteZ_neq _ _ Hne);
      match goal with
      | _ : c ≠ ?old |- _ =>
          match type of Hsum with
          | context [?w * (byteZ old - 48)] => shift11 Hsum Hsum' w old c
          end
      end | ]).
  destruct i as [|i]; [|cbn in Hi; discriminate].
  cbn [setAt] in Hsum'; cbn [at_ String.get] in Hne, Di, Hi.
  rewrite isbn10Sum_explicit in Hsum'. unfold dv in *.
  pose proof (byteZ_neq _ _ Hne).
  rewrite (isDigit_not_X _ Hi) in Hsum. rewrite (isDigit_not_X _ Hc) in Hsum'.
  match type of Hsum with
  | (?T + (byteZ ?old - 48)) mod 11 = 0 =>
      apply (mod11_shift 1 (byteZ old - 48) (byteZ c - 48) T); [lia|lia|lia|lia| |];
      rewrite Z.mul_1_l; assumption
  end.
Qed.

Ltac shift13 Hsum Hsum' w old new :=
  match type of Hsum with
  | _ = (10 - ?T mod 10) mod 10 =>
      match type of Hsum' with
      | _ = (10 - ?T' mod 10) mod 10 =>
          apply (mod10_shift w (byteZ old - 48) (byteZ new - 48)
                   (T - w * (byteZ old - 48)));
          [ lia | lia | lia | lia
          | replace (T - w * (byteZ old - 48) + w * (byteZ old - 48)) with T by ring;
            replace (T - w * (byteZ old - 48) + w * (byteZ new - 48)) with T' by ring;
            rewrite <- Hsum, <- Hsum'; reflexivity ]
      end
  end.

Lemma isbn13Sum_explicit c0 c1 c2 c3 c4 c5 c6 c7 c8 c9 c10 c11 c12 :
  let s := String c0 (String c1 (String c2 (String c3 (String c4 (String c5
    (String c6 (String c7 (String c8 (String c9 (String c10 (String c11
    (String c12 EmptyString)))))))))))) in
  isbn13Sum s
  = 1 * dv c0 + 3 * dv c1 + 1 * dv c2 + 3 * dv c3 + 1 * dv c4 + 3 * dv c5
    + 1 * dv c6 + 3 * dv c7 + 1 * dv c8 + 3 * dv c9 + 1 * dv c10 + 3 * dv c11
  ∧ digit s 12 = dv c12.
Proof. cbv zeta. split; [|reflexivity]. unfold isbn13Sum, digit, dv. cbn [bigsum Nat.even at_ String.get]. ring. Qed.

Lemma isbn13_digit_change s i c :
  isValidISBN13 s = true → isDigit (at_ s i) = true → isDigit c = true →
  c ≠ at_ s i → isValidISBN13 (setAt i c s) = false.
Proof.
  intros Hv Hi Hc Hne.
  apply isValidISBN13_spec in Hv as [(Hlen & Hd) Hsum].
  apply not_true_is_false. intros [_ Hsum']%isValidISBN13_spec.
  clear Hd. explode Hlen.
  pose proof (proj1 (isDigit_range _) Hc) as Dc.
  pose proof (proj1 (isDigit_range _) Hi) as Di.
  match type of Hsum with
  | context [isbn13Sum (String ?a0 (String ?a1 (String ?a2 (String ?a3 (String ?a4
      (String ?a5 (String ?a6 (String ?a7 (String ?a8 (String ?a9 (String ?a10
      (String ?a11 (String ?a12 EmptyString)))))))))))))] =>
      destruct (isbn13Sum_explicit a0 a1 a2 a3 a4 a5 a6 a7 a8 a9 a10 a11 a12) as [E1 E2];
      rewrite E1, E2 in Hsum; clear E1 E2
  end.
  do 13 (destruct i as [|i];
    [ cbn [setAt] in Hsum'; cbn [at_ String.get] in Hne, Di;
      match type of Hsum' with
      | context [isbn13Sum (String ?a0 (String ?a1 (String ?a2 (String ?a3 (String ?a4
          (String ?a5 (String ?a6 (String ?a7 (String ?a8 (String ?a9 (String ?a10
          (String ?a11 (String ?a12 EmptyString)))))))))))))] =>
          destruct (isbn13Sum_explicit a0 a1 a2 a3 a4 a5 a6 a7 a8 a9 a10 a11 a12) as [E1 E2];
          rewrite E1, E2 in Hsum'; clear E1 E2
      end;
      unfold dv in *; pose proof (byteZ_neq _ _ Hne);
      first
        [ lia
        | match goal with
          | _ : c ≠ ?old |- _ =>
              match type of Hsum with
              | context [?w * (byteZ old - 48)] => shift13 Hsum Hsum' w old c
              end
          end ] | ]).
  cbn in Hi. discriminate.
Qed.

End Detect.

Section Claims.
Context `{UnicodeCase}.

(** C7: 0306406152 and 9780306406157 are valid under [isValidISBN], and in
    a string that [isValidISBN10] (or [isValidISBN13]) accepts, replacing one
    digit by a different digit gives a string that the same function
    rejects: each checksum detects every single-digit error. *)
Theorem isbn_checksum_detects_single_digit_errors :
  isValidISBN "0306406152" = true
  ∧ isValidISBN "9780306406157" = true
  ∧ (∀ s i c, isValidISBN10 s = true → isDigit (at_ s i) = true →
       isDigit c = true → c ≠ at_ s i → isValidISBN10 (setAt i c s) = false)
  ∧ (∀ s i c, isValidISBN13 s = true → isDigit (at_ s i) = true →
       isDigit c = true → c ≠ at_ s i → isValidISBN13 (setAt i c s) = false).
Proof.
  split; [vm_compute; reflexivity|]. split; [vm_compute; reflexivity|].
  split; [exact isbn10_digit_change | exact isbn13_digit_change].
Qed.

(** C6: [validateAndNormalizeUpdate] on a patch in which only the price is
    present returns a patch whose title, author, ISBN and publication year
    are still absent and whose price is the given one, records no error
    under any key but price, and returns no error at all when the price is
    valid. *)
Theorem update_price_only_leaves_other_fields_absent (in_ : UpdateBookInput.t) (p : math.float64) :
  UpdateBookInput.Title in_ = None →
  UpdateBookInput.Author in_ = None →
  UpdateBookInput.ISBN in_ = None →
  UpdateBookInput.PublicationYear in_ = None →
  UpdateBookInput.Price in_ = Some p →
  let out := fst (validateAndNormalizeUpdate in_) in
  let err := snd (validateAndNormalizeUpdate in_) in
  UpdateBookInput.Title out = None
  ∧ UpdateBookInput.Author out = None
  ∧ UpdateBookInput.ISBN out = None
  ∧ UpdateBookInput.PublicationYear out = None
  ∧ UpdateBookInput.Price out = Some p
  ∧ (∀ errs field, err = Some errs → field ≠ "price" → fieldsOf errs !! field = None)
  ∧ (priceInvalid p = false → err = None).
Proof.
  destruct in_ as [t a i pr y]; cbn [UpdateBookInput.Title UpdateBookInput.Author
    UpdateBookInput.ISBN UpdateBookInput.Price UpdateBookInput.PublicationYear].
  intros -> -> -> -> ->. cbv zeta.
  unfold validateAndNormalizeUpdate; cbn [UpdateBookInput.Title UpdateBookInput.Author
    UpdateBookInput.ISBN UpdateBookInput.Price UpdateBookInput.PublicationYear].
  destruct (priceInvalid p) eqn:Hp.
  - rewrite (checkPrice_invalid _ _ Hp), ok_add. cbn [negb fst snd
      UpdateBookInput.Title UpdateBookInput.Author
      UpdateBookInput.ISBN UpdateBookInput.Price UpdateBookInput.PublicationYear].
    repeat split; try reflexivity; try discriminate.
    intros errs field [= <-] Hne. rewrite lookup_add.
    rewrite decide_False by done. apply lookup_empty.
  - rewrite (checkPrice_valid _ _ Hp), ok_init. cbn [negb fst snd
      UpdateBookInput.Title UpdateBookInput.Author
      UpdateBookInput.ISBN UpdateBookInput.Price UpdateBookInput.PublicationYear].
    repeat split; try reflexivity; try discriminate.
Qed.

Lemma lookup_checkPrice p v field :
  field ≠ "price" → fieldsOf (checkPrice p v) !! field = fieldsOf v !! field.
Proof.
  intros Hne. unfold checkPrice.
  repeat match goal with
         | |- context [if ?b then _ else _] => destruct b
         end; rewrite ?lookup_add, ?decide_False by done; reflexivity.
Qed.

(** C10: normalization is not undone when validation fails.  When
    [validateAndNormalizeCreate] returns an error set, the input it returns
    still has title and author trimmed; its ISBN is the trimmed text when
    the ISBN is invalid, and the normalized form (no space or hyphen, upper
    case) when the ISBN is valid, in which case no error is recorded under
    isbn although another field failed. *)
Theorem create_normalizes_even_on_failure (in_ out : CreateBookInput.t) (errs : ValidationError) :
  validateAndNormalizeCreate in_ = (out, Some errs) →
  CreateBookInput.Title out = TrimSpace (CreateBookInput.Title in_)
  ∧ CreateBookInput.Author out = TrimSpace (CreateBookInput.Author in_)
  ∧ (isbnInvalid (CreateBookInput.ISBN in_) = true →
       CreateBookInput.ISBN out = TrimSpace (CreateBookInput.ISBN in_))
  ∧ (isbnInvalid (CreateBookInput.ISBN in_) = false →
       CreateBookInput.ISBN out = normalizeISBN (TrimSpace (CreateBookInput.ISBN in_))
       ∧ fieldsOf errs !! "isbn" = None).
Proof.
  destruct in_ as [t a i p y]. unfold validateAndNormalizeCreate, isbnInvalid.
  cbn [CreateBookInput.Title CreateBookInput.Author
    CreateBookInput.ISBN CreateBookInput.Price CreateBookInput.PublicationYear].
  cbv zeta.
  destruct (isEmpty (TrimSpace i)) eqn:Ei; cbn [orb negb];
    [|destruct (isValidISBN (TrimSpace i)) eqn:Hv; cbn [negb]];
  match goal with
  | |- (if negb (ok ?e) then _ else _) = _ → _ =>
      destruct (ok e) eqn:Hok; cbn [negb]; intros [= <- Herrs];
      cbn [CreateBookInput.Title CreateBookInput.Author CreateBookInput.ISBN]
  end;
  (split; [reflexivity|]); (split; [reflexivity|]);
  (split; [try discriminate; reflexivity|]); try discriminate.
  intros _. split; [reflexivity|]. subst errs.
  rewrite lookup_checkPrice by done.
  repeat match goal with
         | |- context [if ?b then _ else _] => destruct b
         end;
  rewrite ?lookup_add, ?decide_False by done; reflexivity.
Qed.

End Claims.

Lemma create_reports_all_five_fields_witness :
  ∃ errs : ValidationError,
    snd (@validateAndNormalizeCreate asciiCase create_all_invalid_input) = Some errs
    ∧ fieldsOf errs =
        {[ "title" := "Title is required"; "author" := "Author is required";
           "isbn" := "ISBN is required";
           "publication_year" := "Publication year is required";
           "price" := "Price must be ≥ 0" ]}
    ∧ dom (fieldsOf errs) = fieldNames
    ∧ size (fieldsOf errs) = 5%nat
    ∧ ∀ field msg, field ∈ fieldNames → fieldsOf (add field msg errs) = fieldsOf errs.
Proof.
  exact (@create_reports_all_five_fields asciiCase create_all_invalid_input
           eq_refl eq_refl eq_refl eq_refl eq_refl).
Defined.

Lemma isbn_checksum_detects_single_digit_errors_witness :
  isValidISBN10 (setAt 9 "3" "0306406152") = false
  ∧ isValidISBN13 (setAt 12 "5" "9780132350884") = false.
Proof.
  destruct (@isbn_checksum_detects_single_digit_errors asciiCase) as (_ & _ & H10 & H13).
  split.
  - apply H10; [reflexivity | reflexivity | reflexivity | discriminate].
  - apply H13; [reflexivity | reflexivity | reflexivity | discriminate].
Defined.

Lemma update_price_only_leaves_other_fields_absent_witness :
  let in_ := UpdateBookInput.mk None None None (Some 12.5%float) None in
  let out := fst (@validateAndNormalizeUpdate asciiCase in_) in
  let err := snd (@validateAndNormalizeUpdate asciiCase in_) in
  UpdateBookInput.Title out = None
  ∧ UpdateBookInput.Author out = None
  ∧ UpdateBookInput.ISBN out = None
  ∧ UpdateBookInput.PublicationYear out = None
  ∧ UpdateBookInput.Price out = Some 12.5%float
  ∧ (∀ errs field, err = Some errs → field ≠ "price" → fieldsOf errs !! field = None)
  ∧ (priceInvalid 12.5%float = false → err = None).
Proof.
  exact (@update_price_only_leaves_other_fields_absent asciiCase
           (UpdateBookInput.mk None None None (Some 12.5%float) None) 12.5%float
           eq_refl eq_refl eq_refl eq_refl eq_refl).
Defined.

Lemma create_bad_title_good_isbn_run :
  @validateAndNormalizeCreate asciiCase create_bad_title_good_isbn
  = (CreateBookInput.mk "" "Robert C. Martin" "080442957X" 33.5%float 2008,
     Some {| Fields := Some {[ "title" := "Title is required" ]} |}).
Proof. vm_compute. reflexivity. Qed.

Lemma create_normalizes_even_on_failure_witness :
  let in_ := create_bad_title_good_isbn in
  let out := CreateBookInput.mk "" "Robert C. Martin" "080442957X" 33.5%float 2008 in
  let errs := {| Fields := Some {[ "title" := "Title is required" ]} |} in
  @validateAndNormalizeCreate asciiCase in_ = (out, Some errs)
  ∧ CreateBookInput.Title out = TrimSpace (CreateBookInput.Title in_)
  ∧ CreateBookInput.Author out = TrimSpace (CreateBookInput.Author in_)
  ∧ (@isbnInvalid asciiCase (CreateBookInput.ISBN in_) = true →
       CreateBookInput.ISBN out = TrimSpace (CreateBookInput.ISBN in_))
  ∧ (@isbnInvalid asciiCase (CreateBookInput.ISBN in_) = false →
       CreateBookInput.ISBN out
       = @normalizeISBN asciiCase (TrimSpace (CreateBookInput.ISBN in_))
       ∧ fieldsOf errs !! "isbn" = None).
Proof.
  exact (conj create_bad_title_good_isbn_run
           (@create_normalizes_even_on_failure asciiCase _ _ _
              create_bad_title_good_isbn_run)).
Defined.

(** ** [math.Round] is the nearest integer *)

Lemma digits2_pos_bounds m :
  2 ^ (Z.pos (SpecFloat.digits2_pos m) - 1) ≤ Z.pos m
  < 2 ^ Z.pos (SpecFloat.digits2_pos m).
Proof.
  induction m as [p [IH1 IH2]|p [IH1 IH2]|]; cbn [SpecFloat.digits2_pos];
    [| |by vm_compute].
  all: rewrite Pos2Z.inj_succ.
  all: replace (Z.succ (Z.pos (SpecFloat.digits2_pos p)) - 1)
         with (Z.succ (Z.pos (SpecFloat.digits2_pos p) - 1)) by lia.
  all: rewrite !Z.pow_succ_r by lia.
  all: replace (2 ^ Z.pos (SpecFloat.digits2_pos p))
         with (2 * 2 ^ (Z.pos (SpecFloat.digits2_pos p) - 1)) in *
         by (rewrite <- Z.pow_succ_r by lia; f_equal; lia).
  all: lia.
Qed.

Lemma digits2_pos_53 m :
  2 ^ 52 ≤ Z.pos m < 2 ^ 53 → Z.pos (SpecFloat.digits2_pos m) = 53.
Proof.
  intros [Hlo Hhi]. pose proof (digits2_pos_bounds m) as [H1 H2].
  set (d := Z.pos (SpecFloat.digits2_pos m)) in *.
  assert (Hd : 0 < d) by (unfold d; lia).
  destruct (Z.lt_trichotomy d 53) as [Hlt|[->|Hgt]]; [|done|].
  - assert (2 ^ d ≤ 2 ^ 52) by (apply Z.pow_le_mono_r; lia). lia.
  - assert (2 ^ 53 ≤ 2 ^ (d - 1)) by (apply Z.pow_le_mono_r; lia). lia.
Qed.

Lemma valid_binary_inv s m e :
  SpecFloat.valid_binary FloatOps.prec FloatOps.emax (SpecFloat.S754_finite s m e)
  = true →
  (2 ^ 52 ≤ Z.pos m < 2 ^ 53 ∧ -1074 ≤ e ≤ 971) ∨ (Z.pos m < 2 ^ 52 ∧ e = -1074).
Proof.
  unfold SpecFloat.valid_binary, SpecFloat.bounded, SpecFloat.canonical_mantissa,
    SpecFloat.fexp, SpecFloat.emin, FloatOps.prec, FloatOps.emax.
  intros [Hc He]%andb_true_iff. apply Z.eqb_eq in Hc. apply Z.leb_le in He.
  pose proof (digits2_pos_bounds m) as [H1 H2].
  set (d := Z.pos (SpecFloat.digits2_pos m)) in *.
  assert (Hd : 0 < d) by (unfold d; lia).
  destruct (Z.le_gt_cases 53 d) as [Hge|Hlt].
  - left. assert (d = 53) as Hd53 by lia. rewrite Hd53 in *. lia.
  - right. assert (2 ^ d ≤ 2 ^ 52) by (apply Z.pow_le_mono_r; lia). lia.
Qed.

Lemma valid_binary_normal s E frac :
  1 ≤ E ≤ 2046 → 0 ≤ frac < 2 ^ 52 →
  ∃ m, 2 ^ 52 + frac = Z.pos m
       ∧ SpecFloat.valid_binary FloatOps.prec FloatOps.emax
           (SpecFloat.S754_finite s m (E - 1075)) = true.
Proof.
  intros HE Hf. destruct (2 ^ 52 + frac) as [|m|m] eqn:Hm; [lia| |lia].
  exists m. split; [done|].
  unfold SpecFloat.valid_binary, SpecFloat.bounded, SpecFloat.canonical_mantissa,
    SpecFloat.fexp, SpecFloat.emin, FloatOps.prec, FloatOps.emax.
  rewrite (digits2_pos_53 m) by lia.
  apply andb_true_iff. split; [apply Z.eqb_eq|apply Z.leb_le]; lia.
Qed.

Lemma pack_range s E frac :
  0 ≤ E ≤ 2047 → 0 ≤ frac < 2 ^ 52 → 0 ≤ packBits s E frac < 2 ^ 64.
Proof. unfold packBits. destruct s; lia. Qed.

Lemma pack_exponent s E frac :
  0 ≤ E ≤ 2047 → 0 ≤ frac < 2 ^ 52 →
  Z.land (Z.shiftr (packBits s E frac) 52) 0x7FF = E.
Proof.
  intros HE Hf. change 0x7FF with (Z.ones 11).
  rewrite Z.land_ones, Z.shiftr_div_pow2 by lia. unfold packBits.
  replace ((if s then 2 ^ 63 else 0) + E * 2 ^ 52 + frac)
    with (((if s then 2 ^ 11 else 0) + E) * 2 ^ 52 + frac) by (destruct s; lia).
  rewrite Z.div_add_l, (Z.div_small frac) by lia. rewrite Z.add_0_r.
  destruct s; [|apply Z.mod_small; lia].
  rewrite Z.add_comm, Z.add_mod, Z.mod_same, Z.add_0_r, Z.mod_mod by lia.
  apply Z.mod_small; lia.
Qed.

Lemma pack_fraction s E frac :
  0 ≤ E ≤ 2047 → 0 ≤ frac < 2 ^ 52 →
  Z.land (packBits s E frac) (2 ^ 52 - 1) = frac.
Proof.
  intros HE Hf. change (2 ^ 52 - 1) with (Z.ones 52).
  rewrite Z.land_ones by lia. unfold packBits.
  replace ((if s then 2 ^ 63 else 0) + E * 2 ^ 52 + frac)
    with (frac + ((if s then 2 ^ 11 else 0) + E) * 2 ^ 52) by (destruct s; lia).
  rewrite Z.mod_add by lia. apply Z.mod_small; lia.
Qed.

Lemma pack_sign s E frac :
  0 ≤ E ≤ 2047 → 0 ≤ frac < 2 ^ 52 → Z.testbit (packBits s E frac) 63 = s.
Proof.
  intros HE Hf.
  assert (Hdiv : packBits s E frac / 2 ^ 63 = if s then 1 else 0).
  { unfold packBits. destruct s.
    - symmetry. apply (Z.div_unique _ _ 1 (E * 2 ^ 52 + frac)); lia.
    - apply Z.div_small. lia. }
  destruct s.
  - apply Z.testbit_true; [lia|]. by rewrite Hdiv.
  - destruct (Z.testbit (packBits false E frac) 63) eqn:Hb; [|done].
    apply Z.testbit_true in Hb; [|lia]. by rewrite Hdiv in Hb.
Qed.

Lemma Float64frombits_pack s E frac :
  0 ≤ E ≤ 2047 → 0 ≤ frac < 2 ^ 52 →
  math.Float64frombits (packBits s E frac)
  = FloatOps.SF2Prim (bitsFloat s E frac).
Proof.
  intros HE Hf. unfold math.Float64frombits. cbv zeta.
  by rewrite !pack_exponent, !pack_fraction, !pack_sign.
Qed.

Lemma Float64bits_pack x :
  ∃ s E frac, 0 ≤ E ≤ 2047 ∧ 0 ≤ frac < 2 ^ 52
    ∧ math.Float64bits x = packBits s E frac
    ∧ FloatOps.Prim2SF x = bitsFloat s E frac.
Proof.
  unfold math.Float64bits. pose proof (FloatAxioms.Prim2SF_valid x) as Hv.
  destruct (FloatOps.Prim2SF x) as [s|s| |s m e].
  - exists s, 0, 0. unfold packBits. repeat split; destruct s; lia.
  - exists s, 2047, 0. unfold packBits. repeat split; destruct s; lia.
  - exists false, 2047, (2 ^ 51 + 1). unfold packBits. repeat split; lia.
  - apply valid_binary_inv in Hv as [[Hm He]|[Hm ->]].
    + exists s, (e + 1075), (Z.pos m - 2 ^ 52).
      split; [lia|]. split; [lia|].
      destruct (Z.leb_spec (2 ^ 52) (Z.pos m)) as [_|?]; [|lia].
      split; [done|]. unfold bitsFloat.
      destruct (Z.eqb_spec (e + 1075) 0x7FF) as [?|_]; [lia|].
      destruct (Z.eqb_spec (e + 1075) 0) as [?|_]; [lia|].
      replace (2 ^ 52 + (Z.pos m - 2 ^ 52)) with (Z.pos m) by lia.
      by replace (e + 1075 - 1075) with e by lia.
    + exists s, 0, (Z.pos m).
      split; [lia|]. split; [lia|].
      destruct (Z.leb_spec (2 ^ 52) (Z.pos m)) as [?|_]; [lia|].
      split; [unfold packBits; lia|done].
Qed.

Lemma valid_binary_decode s E frac :
  0 ≤ E ≤ 2047 → 0 ≤ frac < 2 ^ 52 →
  SpecFloat.valid_binary FloatOps.prec FloatOps.emax (bitsFloat s E frac) = true.
Proof.
  intros HE Hf. unfold bitsFloat.
  destruct (Z.eqb_spec E 0x7FF) as [?|HE1]; [by destruct (frac =? 0)|].
  destruct (Z.eqb_spec E 0) as [?|HE0].
  - destruct frac as [|m|m]; [done| |done].
    unfold SpecFloat.valid_binary, SpecFloat.bounded,
      SpecFloat.canonical_mantissa, SpecFloat.fexp, SpecFloat.emin,
      FloatOps.prec, FloatOps.emax.
    pose proof (digits2_pos_bounds m) as [H1 H2].
    set (d := Z.pos (SpecFloat.digits2_pos m)) in *.
    assert (d ≤ 52).
    { destruct (Z.le_gt_cases d 52) as [?|Hgt]; [done|].
      assert (2 ^ 52 ≤ 2 ^ (d - 1)) by (apply Z.pow_le_mono_r; lia). lia. }
    apply andb_true_iff. split; [apply Z.eqb_eq|apply Z.leb_le]; lia.
  - destruct (valid_binary_normal s E frac) as (m & -> & Hv); [lia|done|done].
Qed.

Lemma units_decode x s E frac :
  FloatOps.Prim2SF x = bitsFloat s E frac → 0 ≤ E < 2047 → 0 ≤ frac < 2 ^ 52 →
  units x = Some ((if s then -1 else 1) * magnitude E frac).
Proof.
  intros Hx HE Hf. unfold units, magnitude. rewrite Hx. unfold bitsFloat.
  destruct (Z.eqb_spec E 0x7FF) as [?|_]; [lia|].
  destruct (Z.eqb_spec E 0) as [?|HE0].
  - destruct frac as [|m|m]; [by destruct s| |lia].
    change (-1074 + 1074) with 0. by rewrite Z.pow_0_r, Z.mul_1_r.
  - destruct (2 ^ 52 + frac) as [|m|m] eqn:Hm; [lia| |lia].
    by replace (E - 1075 + 1074) with (E - 1) by lia.
Qed.

Lemma units_decode_None x s frac :
  FloatOps.Prim2SF x = bitsFloat s 2047 frac → units x = None.
Proof.
  intros Hx. unfold units. rewrite Hx. unfold bitsFloat.
  change (2047 =? 2047) with true. cbv iota. by destruct (frac =? 0).
Qed.

Lemma land_signMask s E frac :
  0 ≤ E ≤ 2047 → 0 ≤ frac < 2 ^ 52 →
  Z.land (packBits s E frac) math.signMask = packBits s 0 0.
Proof.
  intros HE Hf. apply Z.bits_inj'. intros n Hn.
  rewrite Z.land_spec. unfold math.signMask. rewrite Z.pow2_bits_eqb by lia.
  destruct (Z.eqb_spec 63 n) as [<-|Hne].
  - rewrite !pack_sign by lia. by destruct s.
  - rewrite andb_false_r. unfold packBits. destruct s.
    + change (2 ^ 63 + 0 * 2 ^ 52 + 0) with (2 ^ 63).
      rewrite Z.pow2_bits_eqb by lia. symmetry. by apply Z.eqb_neq.
    + change (0 + 0 * 2 ^ 52 + 0) with 0. by rewrite Z.bits_0.
Qed.

Lemma clear_low_bits b t :
  0 ≤ b < 2 ^ 64 → 0 ≤ t ≤ 64 →
  Z.land b (Z.lxor (2 ^ 64 - 1) (Z.ones t)) = b / 2 ^ t * 2 ^ t.
Proof.
  intros Hb Ht. rewrite <- Z.shiftr_div_pow2, <- Z.shiftl_mul_pow2 by lia.
  rewrite <- Z.ldiff_ones_r by lia. apply Z.bits_inj'. intros n Hn.
  rewrite Z.land_spec, Z.ldiff_spec, Z.lxor_spec.
  change (2 ^ 64 - 1) with (Z.ones 64).
  rewrite !Z.testbit_ones_nonneg by lia.
  destruct (Z.ltb_spec n 64) as [Hlt|Hge]; [done|].
  replace b with (b mod 2 ^ 64) by (apply Z.mod_small; lia).
  by rewrite Z.mod_pow2_bits_high by lia.
Qed.

Lemma Round_fields x s E frac :
  0 ≤ E ≤ 2047 → 0 ≤ frac < 2 ^ 52 →
  math.Float64bits x = packBits s E frac →
  math.Round x
  = math.Float64frombits (packBits s (roundFields E frac).1 (roundFields E frac).2).
Proof.
  intros HE Hf Hx. unfold math.Round. rewrite Hx. cbv zeta. f_equal.
  change math.shift with 52. change math.mask with 0x7FF.
  rewrite pack_exponent by done. unfold math.bias, roundFields.
  destruct (Z.ltb_spec E 1023) as [Hlt|Hge].
  - rewrite land_signMask by done. change (1023 - 1) with 1022.
    destruct (Z.eqb_spec E 1022) as [->|Hne].
    + change (1022 <? 1022) with false. cbn [fst snd]. by destruct s.
    + destruct (Z.ltb_spec E 1022) as [_|?]; [done|lia].
  - destruct (Z.ltb_spec E 1022) as [?|_]; [lia|].
    destruct (Z.eqb_spec E 1022) as [?|_]; [lia|].
    change (1023 + 52) with 1075.
    destruct (Z.ltb_spec E 1075) as [Hlt|Hge2]; [|done].
    change (2 ^ (52 - 1)) with (2 ^ 51). change math.fracMask with (Z.ones 52).
    rewrite !Z.shiftr_div_pow2 by lia. rewrite Z.ones_div_pow2 by lia.
    replace (52 - (E - 1023)) with (1075 - E) by lia.
    set (T := 2 ^ (1075 - E)). set (H := 2 ^ (1074 - E)).
    set (C := 2 ^ (E - 1023)).
    assert (HT : T = 2 * H).
    { unfold T, H. rewrite <- Z.pow_succ_r by lia. f_equal. lia. }
    assert (HH : 0 < H) by (apply Z.pow_pos_nonneg; lia).
    assert (HC : 0 < C) by (apply Z.pow_pos_nonneg; lia).
    assert (HCT : C * T = 2 ^ 52).
    { unfold T, C. rewrite <- Z.pow_add_r by lia. f_equal. lia. }
    assert (HCH : 2 ^ 51 = H * C).
    { unfold H, C. rewrite <- Z.pow_add_r by lia. f_equal. lia. }
    rewrite HCH, Z.div_mul by lia.
    assert (Hsmall : 0 ≤ packBits s E frac + H < 2 ^ 64).
    { unfold packBits. destruct s; nia. }
    rewrite (Z.mod_small _ _ Hsmall), (clear_low_bits _ _ Hsmall) by lia.
    fold T.
    destruct (Z.ltb_spec (frac + H) (2 ^ 52)) as [Hnc|Hc]; cbn [fst snd].
    + unfold packBits.
      replace ((if s then 2 ^ 63 else 0) + E * 2 ^ 52 + frac + H)
        with (((if s then 2 ^ 11 else 0) * C + E * C) * T + (frac + H))
        by (destruct s; nia).
      rewrite Z.div_add_l by lia. destruct s; nia.
    + unfold packBits.
      replace ((if s then 2 ^ 63 else 0) + E * 2 ^ 52 + frac + H)
        with (((if s then 2 ^ 11 else 0) * C + (E + 1) * C) * T
              + (frac + H - 2 ^ 52))
        by (destruct s; nia).
      rewrite Z.div_add_l, (Z.div_small (frac + H - 2 ^ 52)) by lia.
      destruct s; nia.
Qed.

Lemma roundFields_nearest E frac :
  0 ≤ E ≤ 2046 → 0 ≤ frac < 2 ^ 52 →
  0 ≤ (roundFields E frac).1 ≤ 2046
  ∧ 0 ≤ (roundFields E frac).2 < 2 ^ 52
  ∧ ∃ k, 0 ≤ k ∧ magnitude (roundFields E frac).1 (roundFields E frac).2 = k * unitsOfOne
         ∧ nearestInteger (magnitude E frac) k.
Proof.
  intros HE Hf. unfold roundFields, nearestInteger.
  destruct (Z.ltb_spec E 1022) as [Hlt|Hge]; cbn [fst snd].
  { split; [lia|]. split; [lia|]. exists 0. split; [done|]. split; [done|].
    rewrite Z.mul_0_l, Z.sub_0_r.
    assert (Hv : 0 ≤ magnitude E frac ∧ 2 * magnitude E frac < unitsOfOne).
    { unfold magnitude. destruct (Z.eqb_spec E 0) as [->|HE0].
      - unfold unitsOfOne. lia.
      - assert (HP : 0 < 2 ^ (E - 1)) by (apply Z.pow_pos_nonneg; lia).
        assert (HP' : 2 ^ (E - 1) ≤ 2 ^ 1020) by (apply Z.pow_le_mono_r; lia).
        split; [nia|]. change unitsOfOne with (2 ^ 54 * 2 ^ 1020). nia. }
    rewrite Z.abs_eq by lia. lia. }
  destruct (Z.eqb_spec E 1022) as [->|HE1]; cbn [fst snd].
  { split; [lia|]. split; [lia|]. exists 1. split; [lia|].
    split; [reflexivity|]. unfold magnitude.
    change (1022 =? 0) with false. cbv iota.
    change (2 ^ (1022 - 1)) with (2 ^ 1021). change unitsOfOne with (2 ^ 53 * 2 ^ 1021).
    assert (0 < 2 ^ 1021) by done. lia. }
  destruct (Z.ltb_spec E 1075) as [Hlt|Hge2]; cycle 1.
  { cbn [fst snd]. split; [lia|]. split; [lia|].
    exists ((2 ^ 52 + frac) * 2 ^ (E - 1075)).
    assert (Hm : magnitude E frac = (2 ^ 52 + frac) * 2 ^ (E - 1075) * unitsOfOne).
    { unfold magnitude, unitsOfOne. destruct (Z.eqb_spec E 0) as [?|_]; [lia|].
      rewrite <- Z.mul_assoc, <- Z.pow_add_r by lia. do 2 f_equal. lia. }
    split; [apply Z.mul_nonneg_nonneg; [lia|apply Z.pow_nonneg; lia]|].
    split; [done|]. rewrite Hm, Z.sub_diag. cbn [Z.abs Z.mul].
    unfold unitsOfOne. split; [done|]. intros Heq. exfalso. revert Heq. done. }
  set (T := 2 ^ (1075 - E)). set (H := 2 ^ (1074 - E)).
  set (C := 2 ^ (E - 1023)). set (P := 2 ^ (E - 1)).
  assert (HT : T = 2 * H).
  { unfold T, H. rewrite <- Z.pow_succ_r by lia. f_equal. lia. }
  assert (HH : 0 < H) by (apply Z.pow_pos_nonneg; lia).
  assert (HC : 0 < C) by (apply Z.pow_pos_nonneg; lia).
  assert (HP : 0 < P) by (apply Z.pow_pos_nonneg; lia).
  assert (HCT : 2 ^ 52 = C * T).
  { unfold T, C. rewrite <- Z.pow_add_r by lia. f_equal. lia. }
  assert (HTP : unitsOfOne = T * P).
  { unfold T, P, unitsOfOne. rewrite <- Z.pow_add_r by lia. f_equal. lia. }
  assert (Hv : magnitude E frac = (C * T + frac) * P).
  { unfold magnitude. destruct (Z.eqb_spec E 0) as [?|_]; [lia|].
    by rewrite HCT. }
  assert (HvP : 0 ≤ (C * T + frac) * P) by nia.
  rewrite Hv. clear Hv.
  destruct (Z.ltb_spec (frac + H) (2 ^ 52)) as [Hnc|Hc]; cbn [fst snd].
  - pose proof (Z.div_mod (frac + H) T ltac:(lia)) as Hdm.
    pose proof (Z.mod_pos_bound (frac + H) T ltac:(lia)) as Hr.
    set (q := (frac + H) / T) in *. set (r := (frac + H) mod T) in *.
    assert (Hq : 0 ≤ q) by (apply Z.div_pos; lia).
    split; [lia|]. split; [nia|]. exists (C + q). split; [lia|].
    assert (Hd : (C * T + frac) * P - (C + q) * unitsOfOne = (r - H) * P)
      by (rewrite HTP; nia).
    split.
    { unfold magnitude. destruct (Z.eqb_spec E 0) as [?|_]; [lia|].
      fold P. rewrite HCT, HTP. ring. }
    rewrite Hd, Z.abs_mul, (Z.abs_eq P), HTP by lia.
    split; [nia|]. intros Htie.
    assert (Hr0 : r = 0) by nia.
    rewrite Z.abs_eq by done. rewrite Z.abs_eq by nia. nia.
  - split; [lia|]. split; [lia|]. exists (2 * C). split; [lia|].
    assert (Hd : (C * T + frac) * P - 2 * C * unitsOfOne = (frac - C * T) * P)
      by (rewrite HTP; nia).
    split.
    { unfold magnitude. destruct (Z.eqb_spec (E + 1) 0) as [?|_]; [lia|].
      replace (E + 1 - 1) with (Z.succ (E - 1)) by lia.
      rewrite Z.pow_succ_r by lia. fold P. rewrite HCT, HTP. ring. }
    rewrite Hd, Z.abs_mul, (Z.abs_eq P), HTP by lia.
    split; [nia|]. intros Htie.
    rewrite Z.abs_eq by done. rewrite Z.abs_eq by nia. nia.
Qed.

Lemma Round_nearest x v :
  units x = Some v →
  ∃ k, units (math.Round x) = Some (k * unitsOfOne) ∧ nearestInteger v k.
Proof.
  intros Hu. destruct (Float64bits_pack x) as (s & E & frac & HE & Hf & Hb & Hx).
  destruct (Z.eq_dec E 2047) as [->|HE'].
  { by rewrite (units_decode_None _ _ _ Hx) in Hu. }
  rewrite (units_decode _ _ _ _ Hx) in Hu by lia. injection Hu as <-.
  destruct (roundFields_nearest E frac) as (HE2 & Hf2 & k & Hk & Hm & Hn);
    [lia|done|].
  rewrite (Round_fields _ _ _ _ HE Hf Hb), Float64frombits_pack by lia.
  exists ((if s then -1 else 1) * k). split.
  - rewrite (units_decode _ s (roundFields E frac).1 (roundFields E frac).2);
      [|apply FloatAxioms.Prim2SF_SF2Prim, valid_binary_decode; lia|lia|done].
    rewrite Hm. f_equal. ring.
  - unfold nearestInteger in *. destruct s; lia.
Qed.

Lemma Round_not_finite x : units x = None → math.Round x = x.
Proof.
  intros Hu. destruct (Float64bits_pack x) as (s & E & frac & HE & Hf & Hb & Hx).
  destruct (Z.eq_dec E 2047) as [->|HE'].
  - rewrite (Round_fields _ _ _ _ HE Hf Hb). change (roundFields 2047 frac)
      with (2047, frac). cbn [fst snd].
    rewrite Float64frombits_pack, <- Hx by lia.
    apply FloatAxioms.SF2Prim_Prim2SF.
  - by rewrite (units_decode _ _ _ _ Hx) in Hu by lia.
Qed.

(** C5: [hasMax2Decimals] is false for NaN and for both infinities; for
    every other value it is true exactly when the absolute difference between
    the value times 100 and [math.Round] of it is below the threshold.
    [math.Round] of a finite float64 is the integer nearest to it, half way
    cases away from zero, and it leaves NaN and the infinities as they are;
    so 2.5 goes to 3, -2.5 to -3 and 2.4 to 2.  The threshold is the
    float64 nearest to 1e-9.  The function accepts 10.23 and rejects 10.234,
    both read as the nearest float64. *)
Theorem hasMax2Decimals_two_decimal_places :
  hasMax2Decimals PrimFloat.nan = false
  ∧ hasMax2Decimals PrimFloat.infinity = false
  ∧ hasMax2Decimals PrimFloat.neg_infinity = false
  ∧ (∀ n : math.float64,
       hasMax2Decimals n =
       negb (PrimFloat.is_nan n || PrimFloat.is_infinity n)
       && PrimFloat.ltb
            (PrimFloat.abs (PrimFloat.sub (PrimFloat.mul n 100%float)
                              (math.Round (PrimFloat.mul n 100%float))))
            0x1.12e0be826d695p-30%float)
  ∧ (∀ (x : math.float64) (v : Z), units x = Some v →
       ∃ k : Z, units (math.Round x) = Some (k * unitsOfOne) ∧ nearestInteger v k)
  ∧ (∀ x : math.float64, units x = None → math.Round x = x)
  ∧ units 0x1.4p+1%float = Some (5 * 2 ^ 1073)
  ∧ units 3%float = Some (3 * unitsOfOne)
  ∧ math.Round 0x1.4p+1%float = 3%float
  ∧ math.Round (-0x1.4p+1)%float = (-3)%float
  ∧ math.Round 0x1.3333333333333p+1%float = 2%float
  ∧ math.Round 0x1.ff80000000001p+9%float = 1023%float
  ∧ nearestFloat64 1 (10 ^ 9) 0x1.12e0be826d695p-30%float
  ∧ nearestFloat64 1023 100 0x1.475c28f5c28f6p+3%float
  ∧ hasMax2Decimals 0x1.475c28f5c28f6p+3%float = true
  ∧ nearestFloat64 10234 1000 0x1.477ced916872bp+3%float
  ∧ hasMax2Decimals 0x1.477ced916872bp+3%float = false.
Proof.
  split; [vm_compute; reflexivity|]. split; [vm_compute; reflexivity|].
  split; [vm_compute; reflexivity|]. split.
  { intros n. unfold hasMax2Decimals, math.IsNaN, math.IsInf, math.Abs.
    destruct (PrimFloat.is_nan n || PrimFloat.is_infinity n); reflexivity. }
  split; [exact Round_nearest|]. split; [exact Round_not_finite|].
  repeat split; vm_compute; (reflexivity || discriminate).
Qed.

Section TitleTooLong.
Context `{UnicodeCase}.

(** Whatever the other fields are, a title whose trimmed form is longer than
    120 bytes is reported with the message about 120 characters. *)
Lemma create_long_title t a i p y :
  isEmpty (TrimSpace t) = false → (len (TrimSpace t) >? 120) = true →
  ∃ errs, snd (validateAndNormalizeCreate (CreateBookInput.mk t a i p y)) = Some errs
          ∧ fieldsOf errs !! "title" = Some "Title must be ≤ 120 characters".
Proof.
  intros Hne Hlen. unfold validateAndNormalizeCreate.
  cbn [CreateBookInput.Title CreateBookInput.Author
    CreateBookInput.ISBN CreateBookInput.Price CreateBookInput.PublicationYear].
  cbv zeta. rewrite Hne, Hlen.
  set (e0 := add "title" _ _).
  assert (H0 : fieldsOf e0 !! "title" = Some "Title must be ≤ 120 characters").
  { subst e0. rewrite lookup_add, decide_True by done. reflexivity. }
  clearbody e0.
  set (e1 := if isEmpty (TrimSpace a) then _ else _).
  assert (H1 : fieldsOf e1 !! "title" = Some "Title must be ≤ 120 characters").
  { subst e1. repeat match goal with
             | |- context [if ?b then _ else _] => destruct b
             end; rewrite ?lookup_add, ?decide_False by done; exact H0. }
  clearbody e1.
  match goal with
  | |- ∃ errs, snd (let '(_, _) := ?X in _) = _ ∧ _ => destruct X as [i' e2] eqn:E2
  end.
  assert (H2 : fieldsOf e2 !! "title" = Some "Title must be ≤ 120 characters").
  { repeat match type of E2 with
           | (if ?b then _ else _) = _ => destruct b
           end; injection E2 as <- <-; rewrite ?lookup_add, ?decide_False by done; exact H1. }
  clear E2.
  match goal with
  | |- ∃ errs, snd (if negb (ok ?e) then _ else _) = _ ∧ _ =>
      assert (H3 : fieldsOf e !! "title" = Some "Title must be ≤ 120 characters")
  end.
  { rewrite lookup_checkPrice by done.
    repeat match goal with
           | |- context [if ?b then _ else _] => destruct b
           end; rewrite ?lookup_add, ?decide_False by done; exact H2. }
  match goal with
  | |- ∃ errs, snd (if negb (ok ?e) then _ else _) = _ ∧ _ =>
      destruct (ok e) eqn:Hok; cbn [negb snd]
  end.
  - apply ok_true_iff in Hok. rewrite Hok, lookup_empty in H3. discriminate.
  - eexists; split; [reflexivity|exact H3].
Qed.

End TitleTooLong.

Lemma title61_facts :
  TrimSpace title61 = title61 ∧ RuneCountInString title61 = 61 ∧ len title61 = 122.
Proof. vm_compute. repeat split. Qed.

(** C9, at the input where the code departs from the claim: a title of 61
    characters, each of two bytes in UTF-8, is already trimmed and has 61
    characters but 122 bytes, and [validateAndNormalizeCreate] rejects it,
    whatever the other fields, with the message for a title above 120
    characters: the code measures [len], the number of bytes. *)
Theorem title_of_61_characters_is_rejected :
  RuneCountInString (TrimSpace title61) = 61
  ∧ len (TrimSpace title61) = 122
  ∧ (∀ a i p y,
       ∃ errs, snd (@validateAndNormalizeCreate asciiCase (CreateBookInput.mk title61 a i p y))
               = Some errs
               ∧ fieldsOf errs !! "title" = Some "Title must be ≤ 120 characters").
Proof.
  destruct title61_facts as (Ht & Hr & Hl).
  split; [rewrite Ht; exact Hr|]. split; [rewrite Ht; exact Hl|].
  intros a i p y. apply create_long_title.
  - rewrite Ht. vm_compute. reflexivity.
  - rewrite Ht, Hl. reflexivity.
Qed.

Section Handler.
Context `{UnicodeCase}.

Lemma isEmpty_false s : isEmpty s = false ↔ s ≠ "".
Proof. destruct s; cbn; split; congruence. Qed.


Lemma validURL_guard raw u :
  Parse raw = Some u →
  (isEmpty (Scheme u) || isEmpty (Host u) = false ↔ validURL raw u).
Proof.
  intros HP. unfold validURL. rewrite orb_false_iff, !isEmpty_false. tauto.
Qed.

Lemma validURL_unique raw u v : validURL raw u → validURL raw v → u = v.
Proof. intros [Hu _] [Hv _]. congruence. Qed.

Lemma validURL_dec raw : (∃ u, validURL raw u) ∨ ¬ (∃ u, validURL raw u).
Proof.
  destruct (Parse raw) as [u|] eqn:HP.
  - destruct (isEmpty (Scheme u) || isEmpty (Host u)) eqn:Hg.
    + right. intros [v Hv]. assert (v = u) as -> by (destruct Hv as [Hv _]; congruence).
      apply (validURL_guard raw u HP) in Hv. congruence.
    + left. exists u. by apply validURL_guard.
  - right. intros [v [Hv _]]. congruence.
Qed.

Lemma processURL_invalid op raw :
  ¬ (∃ u, validURL raw u) → processURL op raw = inr invalid_url.
Proof.
  intros Hn. unfold processURL.
  destruct (Parse raw) as [u|] eqn:HP; [|reflexivity].
  destruct (isEmpty (Scheme u) || isEmpty (Host u)) eqn:Hg; [reflexivity|].
  exfalso. apply Hn. exists u. by apply validURL_guard.
Qed.

Lemma processURL_valid op raw u :
  validURL raw u → processURL op raw = dispatch op u.
Proof.
  intros Hv. pose proof Hv as [HP _]. unfold processURL, dispatch, cloneURL.
  rewrite HP. apply (validURL_guard raw u HP) in Hv. rewrite Hv. reflexivity.
Qed.

(** C8, as amended: [processURL] fails with [invalid url] exactly when the
    raw string does not parse as a URL with a non-empty scheme and host,
    with [invalid operation] exactly when the URL is valid and the operation
    is none of canonical, redirection and all, and with
    [unexpected parse error] exactly when the operation is all, the URL is
    valid and the output of the redirection step does not parse again; on a
    valid URL canonical and redirection always return the normalized text,
    and all returns it whenever the second parse succeeds. *)
Theorem processURL_outcomes (op raw : string) :
  (processURL op raw = inr invalid_url ↔ ¬ ∃ u, validURL raw u)
  ∧ (processURL op raw = inr invalid_operation
     ↔ (∃ u, validURL raw u) ∧ ¬ knownOperation op)
  ∧ (processURL op raw = inr unexpected_parse_error
     ↔ op = "all" ∧ ∃ u, validURL raw u ∧ Parse (applyRedirection u) = None)
  ∧ (∀ u, validURL raw u →
       (op = "canonical" → processURL op raw = inl (String_ (canonicalized u)))
       ∧ (op = "redirection" → processURL op raw = inl (applyRedirection u))
       ∧ (op = "all" → ∀ u2, Parse (applyRedirection u) = Some u2 →
            processURL op raw = inl (String_ (set_Fragment "" (set_RawQuery "" u2))))).
Proof.
  destruct (validURL_dec raw) as [[u Hu]|Hn].
  2:{ rewrite (processURL_invalid op raw Hn).
      split; [tauto|]. split; [split; [discriminate|tauto]|].
      split; [split; [discriminate|]|].
      - intros [_ [v [Hv _]]]. exfalso. eauto.
      - intros v Hv. exfalso. eauto. }
  rewrite (processURL_valid op raw u Hu).
  assert (Hex : ∃ v, validURL raw v) by eauto.
  assert (Huniq : ∀ v, validURL raw v → v = u)
    by (intros v Hv; exact (validURL_unique _ _ _ Hv Hu)).
  assert (Hcases :
    (op = "canonical" ∧ dispatch op u = inl (String_ (canonicalized u)))
    ∨ (op = "redirection" ∧ dispatch op u = inl (applyRedirection u))
    ∨ (op = "all" ∧ Parse (applyRedirection u) = None
       ∧ dispatch op u = inr unexpected_parse_error)
    ∨ (op = "all" ∧ ∃ u2, Parse (applyRedirection u) = Some u2
       ∧ dispatch op u = inl (String_ (set_Fragment "" (set_RawQuery "" u2))))
    ∨ (¬ knownOperation op ∧ dispatch op u = inr invalid_operation)).
  { unfold dispatch, knownOperation.
    destruct (String.eqb op "canonical") eqn:E1.
    { apply String.eqb_eq in E1. left. done. }
    destruct (String.eqb op "redirection") eqn:E2.
    { apply String.eqb_eq in E2. right; left. done. }
    destruct (String.eqb op "all") eqn:E3.
    { apply String.eqb_eq in E3.
      destruct (Parse (applyRedirection u)) as [u2|] eqn:HP2.
      - do 3 right. left. eauto.
      - do 2 right. left. done. }
    apply String.eqb_neq in E1, E2, E3. do 4 right. split; [|done].
    intros [?|[?|?]]; congruence. }
  unfold knownOperation in *.
  destruct Hcases as [[Hop ->]|[[Hop ->]|[(Hop & HP2 & ->)|[(Hop & u2 & HP2 & ->)|[Hk ->]]]]].
  - subst op. split; [split; [discriminate|tauto]|].
    split; [split; [discriminate|intros [_ Hk]; exfalso; apply Hk; tauto]|].
    split; [split; [discriminate|intros [? _]; discriminate]|].
    intros v Hv. apply Huniq in Hv. subst v. repeat split; try discriminate; done.
  - subst op. split; [split; [discriminate|tauto]|].
    split; [split; [discriminate|intros [_ Hk]; exfalso; apply Hk; tauto]|].
    split; [split; [discriminate|intros [? _]; discriminate]|].
    intros v Hv. apply Huniq in Hv. subst v. repeat split; try discriminate; done.
  - subst op. split; [split; [discriminate|tauto]|].
    split; [split; [discriminate|intros [_ Hk]; exfalso; apply Hk; tauto]|].
    split; [split; [intros _; split; [done|]; exists u; done|done]|].
    intros v Hv. apply Huniq in Hv. subst v. repeat split; try discriminate.
    intros _ v2. rewrite HP2. discriminate.
  - subst op. split; [split; [discriminate|tauto]|].
    split; [split; [discriminate|intros [_ Hk]; exfalso; apply Hk; tauto]|].
    split; [split; [discriminate
                   |intros [_ [v [Hv Hnone]]]; apply Huniq in Hv; subst v; congruence]|].
    intros v Hv. apply Huniq in Hv. subst v. repeat split; try discriminate.
    intros _ v2. rewrite HP2. intros [= <-]. reflexivity.
  - split; [split; [discriminate|tauto]|].
    split; [split; [tauto|done]|].
    split; [split; [discriminate|intros [Hop _]; exfalso; apply Hk; tauto]|].
    intros v Hv. repeat split; intros Hop; exfalso; apply Hk; tauto.
Qed.

End Handler.

(** ** Strings *)

Section StringFacts.

Lemma sapp_cons c s t : String c s +:+ t = String c (s +:+ t).
Proof. reflexivity. Qed.

Lemma sapp_nil_l s : "" +:+ s = s.
Proof. reflexivity. Qed.

Lemma sapp_nil_r s : s +:+ "" = s.
Proof. induction s as [|c s IH]; [done|]. by rewrite sapp_cons, IH. Qed.

Lemma sapp_assoc s t r : (s +:+ t) +:+ r = s +:+ (t +:+ r).
Proof. induction s as [|c s IH]; [done|]. by rewrite !sapp_cons, IH. Qed.

Lemma slength_app s t : String.length (s +:+ t) = (String.length s + String.length t)%nat.
Proof. induction s as [|c s IH]; [done|]. rewrite sapp_cons. cbn. by rewrite IH. Qed.

Lemma allS_app p s t : allS p (s +:+ t) = allS p s && allS p t.
Proof.
  induction s as [|c s IH]; [done|]. rewrite sapp_cons. cbn. by rewrite IH, andb_assoc.
Qed.

Lemma allS_impl (p q : ascii → bool) s :
  (∀ a, p a = true → q a = true) → allS p s = true → allS q s = true.
Proof.
  intros Hpq. induction s as [|c s IH]; [done|]. cbn.
  rewrite !andb_true_iff. intros [Hc Hs]. auto.
Qed.

Lemma takeS_app s t : takeS (String.length s) (s +:+ t) = s.
Proof. induction s as [|c s IH]; [by destruct t|]. rewrite sapp_cons. cbn. by rewrite IH. Qed.

Lemma dropS_app s t : dropS (String.length s) (s +:+ t) = t.
Proof. induction s as [|c s IH]; [done|]. rewrite sapp_cons. cbn. exact IH. Qed.

Lemma takeS_all s : takeS (String.length s) s = s.
Proof. rewrite <- (sapp_nil_r s) at 2. apply takeS_app. Qed.

Lemma IndexByte_app c s t :
  noByte c s → IndexByte (s +:+ String c t) c = Some (String.length s).
Proof.
  unfold noByte. induction s as [|a s IH]; cbn.
  - intros _. rewrite sapp_nil_l. cbn. by rewrite Ascii.eqb_refl.
  - rewrite andb_true_iff, negb_true_iff. intros [Ha Hs].
    rewrite sapp_cons. cbn. rewrite Ha, (IH Hs). done.
Qed.

Lemma IndexByte_None c s : noByte c s ↔ IndexByte s c = None.
Proof.
  unfold noByte. induction s as [|a s IH]; cbn; [done|].
  rewrite andb_true_iff, negb_true_iff, IH.
  destruct (Ascii.eqb a c); [split; [intros [? _]|]; discriminate|].
  destruct (IndexByte s c); split; try done; intros [_ ?]; done.
Qed.

Lemma Cut_app c s t : noByte c s → Cut (s +:+ String c t) c = (s, t, true).
Proof.
  intros Hs. unfold Cut. rewrite (IndexByte_app c s t Hs).
  rewrite takeS_app. f_equal. f_equal.
  change (dropS (S (String.length s)) (s +:+ String c t))
    with (dropS (String.length (s +:+ String c "")) (s +:+ String c t)) at 0 || idtac.
  replace (S (String.length s)) with (String.length (s +:+ String c "")).
  - replace (s +:+ String c t) with ((s +:+ String c "") +:+ t).
    + apply dropS_app.
    + rewrite sapp_assoc. reflexivity.
  - rewrite slength_app. cbn. lia.
Qed.

Lemma Cut_None c s : noByte c s → Cut s c = (s, "", false).
Proof. intros Hs%IndexByte_None. unfold Cut. by rewrite Hs. Qed.

Lemma inBytes_false c s : inBytes c s = false ↔ noByte c s.
Proof.
  unfold inBytes. rewrite IndexByte_None. destruct (IndexByte s c); split; done.
Qed.

End StringFacts.

(** ** Percent-encoding *)

Section Escaping.

Lemma hex_digits c :
  ishex (hexHi c) = true ∧ ishex (hexLo c) = true
  ∧ Zbyte (Z.lor (Z.shiftl (unhex (hexHi c)) 4) (unhex (hexLo c))) = c
  ∧ inBytes (hexHi c) upperhex = true ∧ inBytes (hexLo c) upperhex = true.
Proof. destruct c as [[] [] [] [] [] [] [] []]; vm_compute; done. Qed.

Lemma hex_digits_value c :
  unhex (hexHi c) = Z.shiftr (byteZ c) 4 ∧ (hexHi c = "2"%char ∧ hexLo c = "5"%char ↔ c = "%"%char).
Proof.
  destruct c as [[] [] [] [] [] [] [] []];
    (split; [vm_compute; reflexivity|]); split; try discriminate;
    try (intros [E1 E2]; vm_compute in E1, E2; discriminate); done.
Qed.

Lemma shouldEscape_pct mode : shouldEscape "%" mode = true.
Proof. by destruct mode. Qed.

Lemma unescaped_not_pct c mode : shouldEscape c mode = false → Ascii.eqb c "%" = false.
Proof.
  destruct (Ascii.eqb c "%") eqn:E; [|done].
  apply Ascii.eqb_eq in E. subst. by rewrite shouldEscape_pct.
Qed.

Lemma unescape_pct a b t mode :
  unescape (String "%" (String a (String b t))) mode =
  if negb (ishex a && ishex b) then None
  else
    let is25 := Ascii.eqb a "2" && Ascii.eqb b "5" in
    let v := Zbyte (Z.lor (Z.shiftl (unhex a) 4) (unhex b)) in
    if encoding_eqb mode encodeHost && (unhex a <? 8) && negb is25 then None
    else if encoding_eqb mode encodeZone && negb is25
            && negb (Ascii.eqb v " ") && shouldEscape v encodeHost then None
    else match unescape t mode with Some r => Some (String v r) | None => None end.
Proof. reflexivity. Qed.

Lemma unescape_plus t mode :
  unescape (String "+" t) mode =
  match unescape t mode with
  | Some r => Some (String (if encoding_eqb mode encodeQueryComponent then " " else "+")%char r)
  | None => None
  end.
Proof. reflexivity. Qed.

Lemma unescape_plain c t mode :
  Ascii.eqb c "%" = false → Ascii.eqb c "+" = false →
  unescape (String c t) mode =
  if (encoding_eqb mode encodeHost || encoding_eqb mode encodeZone)
     && (byteZ c <? 0x80) && shouldEscape c encodeHost then None
  else match unescape t mode with Some r => Some (String c r) | None => None end.
Proof. intros E1 E2. cbn [unescape]. rewrite E1, E2. reflexivity. Qed.

Lemma escape_cons c t mode :
  escape (String c t) mode =
  if shouldEscape c mode then
    if Ascii.eqb c " " && encoding_eqb mode encodeQueryComponent
    then String "+" (escape t mode)
    else String "%" (String (hexHi c) (String (hexLo c) (escape t mode)))
  else String c (escape t mode).
Proof. reflexivity. Qed.

(** Decoding what [escape] wrote gives the text back, in every component but
    the host, whose decoder refuses the escapes of ASCII bytes. *)
Lemma unescape_escape s mode :
  plainMode mode = true → unescape (escape s mode) mode = Some s.
Proof.
  intros Hm. induction s as [|c s IH]; [done|].
  rewrite escape_cons.
  destruct (shouldEscape c mode) eqn:Hc.
  - destruct (Ascii.eqb c " " && encoding_eqb mode encodeQueryComponent) eqn:Hsp.
    + apply andb_true_iff in Hsp as [->%Ascii.eqb_eq Hq].
      rewrite unescape_plus, IH, Hq. done.
    + rewrite unescape_pct, IH.
      destruct (hex_digits c) as (H1 & H2 & H3 & _). rewrite H1, H2, H3. cbn [andb negb].
      unfold plainMode in Hm. apply negb_true_iff, orb_false_iff in Hm as [-> ->].
      reflexivity.
  - destruct (Ascii.eqb c "+") eqn:Hplus.
    + apply Ascii.eqb_eq in Hplus. subst c. rewrite unescape_plus, IH.
      destruct (encoding_eqb mode encodeQueryComponent) eqn:Hq; [|done].
      destruct mode; discriminate.
    + rewrite (unescape_plain _ _ _ (unescaped_not_pct _ _ Hc) Hplus), IH.
      unfold plainMode in Hm. apply negb_true_iff in Hm. rewrite Hm. reflexivity.
Qed.

Lemma escapeOutput_plus mode :
  encoding_eqb mode encodeQueryComponent = true → escapeOutput mode "+" = true.
Proof. destruct mode; try discriminate. reflexivity. Qed.

Lemma escapeOutput_hex mode a : inBytes a upperhex = true → escapeOutput mode a = true.
Proof.
  intros Ha. unfold escapeOutput. rewrite Ha.
  destruct (Ascii.eqb a "%"); reflexivity.
Qed.

Lemma escapeOutput_plain mode a : shouldEscape a mode = false → escapeOutput mode a = true.
Proof. intros Ha. unfold escapeOutput. rewrite Ha. apply orb_true_r. Qed.

Lemma escape_output s mode : allS (escapeOutput mode) (escape s mode) = true.
Proof.
  induction s as [|c s IH]; [done|]. rewrite escape_cons.
  destruct (shouldEscape c mode) eqn:Hc.
  - destruct (Ascii.eqb c " " && encoding_eqb mode encodeQueryComponent) eqn:Hsp.
    + apply andb_true_iff in Hsp as [_ Hq]. cbn [allS].
      by rewrite IH, (escapeOutput_plus _ Hq).
    + destruct (hex_digits c) as (_ & _ & _ & H4 & H5). cbn [allS].
      rewrite IH, (escapeOutput_hex _ _ H4), (escapeOutput_hex _ _ H5). reflexivity.
  - cbn [allS]. by rewrite IH, (escapeOutput_plain _ _ Hc).
Qed.

(** A byte that [escape] never writes in a component does not occur in its
    output. *)
Lemma escape_noByte c s mode :
  escapeOutput mode c = false → noByte c (escape s mode).
Proof.
  intros Hc. unfold noByte. eapply allS_impl; [|apply escape_output].
  intros a Ha. apply negb_true_iff. destruct (Ascii.eqb a c) eqn:E; [|done].
  apply Ascii.eqb_eq in E. subst. congruence.
Qed.

End Escaping.

(** ** Query strings *)

Section QueryFacts.

Lemma QueryEscape_noByte c s :
  escapeOutput encodeQueryComponent c = false → noByte c (QueryEscape s).
Proof. apply escape_noByte. Qed.

Lemma noByte_app c s t : noByte c s → noByte c t → noByte c (s +:+ t).
Proof. unfold noByte. rewrite allS_app. intros -> ->. done. Qed.

Lemma encPair_noByte c kv :
  escapeOutput encodeQueryComponent c = false → c ≠ "="%char → noByte c (encPair kv).
Proof.
  intros Hc Hne. unfold encPair.
  apply noByte_app; [by apply QueryEscape_noByte|].
  apply noByte_app; [|by apply QueryEscape_noByte].
  unfold noByte. cbn [allS]. rewrite andb_true_r. apply negb_true_iff.
  apply Ascii.eqb_neq. congruence.
Qed.

Lemma encPair_nonempty kv : isEmpty (encPair kv) = false.
Proof.
  unfold encPair. destruct (QueryEscape kv.1) as [|c s]; reflexivity.
Qed.

Lemma encPair_length kv : (1 <= String.length (encPair kv))%nat.
Proof.
  pose proof (encPair_nonempty kv). destruct (encPair kv); [discriminate|cbn; lia].
Qed.

Lemma encodePairs_pairsOf v :
  encodePairs v = encPair <$> pairsOf v (sortedKeys v).
Proof.
  unfold encodePairs, pairsOf. induction (sortedKeys v) as [|k l IH]; [done|].
  cbn. rewrite fmap_app, <- IH. f_equal.
  rewrite <- list_fmap_compose. reflexivity.
Qed.

Lemma parseQuery_empty fuel m : parseQuery fuel m "" = m.
Proof. by destruct fuel. Qed.

(** One turn of the loop of [parseQuery] on a pair that [Encode] wrote. *)
Lemma parseQuery_pair fuel m kv rest :
  parseQuery (S fuel) m (encPair kv +:+ rest) =
  match rest with
  | EmptyString => addPair m kv
  | String c q => if Ascii.eqb c "&" then parseQuery fuel (addPair m kv) q
                  else parseQuery (S fuel) m (encPair kv +:+ rest)
  end.
Proof.
  assert (Hamp : noByte "&" (encPair kv)) by (by apply encPair_noByte).
  assert (Hsemi : noByte ";" (encPair kv)) by (by apply encPair_noByte).
  assert (Hstep : ∀ q found, Cut (encPair kv +:+ rest) "&" = (encPair kv, q, found) →
            parseQuery (S fuel) m (encPair kv +:+ rest) = parseQuery fuel (addPair m kv) q).
  { intros q found HC. cbn [parseQuery].
    assert (isEmpty (encPair kv +:+ rest) = false) as ->.
    { pose proof (encPair_nonempty kv). destruct (encPair kv); [discriminate|done]. }
    rewrite HC. apply inBytes_false in Hsemi. rewrite Hsemi, encPair_nonempty.
    change (Cut (encPair kv) "=")
      with (Cut (QueryEscape kv.1 +:+ String "=" (QueryEscape kv.2)) "=").
    rewrite (Cut_app "=" (QueryEscape kv.1) (QueryEscape kv.2))
      by (by apply QueryEscape_noByte).
    unfold QueryUnescape, QueryEscape. rewrite !unescape_escape by done.
    reflexivity. }
  destruct rest as [|c q].
  - rewrite sapp_nil_r in *. rewrite (Hstep "" false (Cut_None _ _ Hamp)).
    apply parseQuery_empty.
  - destruct (Ascii.eqb c "&") eqn:Ec; [|reflexivity].
    apply Ascii.eqb_eq in Ec. subst c.
    apply (Hstep q true). by apply Cut_app.
Qed.

Lemma joinAmp_one x : joinAmp [x] = x +:+ "".
Proof. cbn [joinAmp]. by rewrite sapp_nil_r. Qed.

Lemma joinAmp_more x y l : joinAmp (x :: y :: l) = x +:+ String "&" (joinAmp (y :: l)).
Proof. reflexivity. Qed.

Lemma parseQuery_join l : ∀ fuel m,
  (String.length (joinAmp (encPair <$> l)) <= fuel)%nat →
  parseQuery fuel m (joinAmp (encPair <$> l)) = foldl addPair m l.
Proof.
  induction l as [|kv l IH]; intros fuel m Hfuel.
  - apply parseQuery_empty.
  - pose proof (encPair_length kv). destruct l as [|kv' l].
    + rewrite fmap_cons, fmap_nil, joinAmp_one in Hfuel |- *. rewrite slength_app in Hfuel.
      destruct fuel as [|fuel]; [lia|]. by rewrite parseQuery_pair.
    + rewrite !fmap_cons, joinAmp_more in Hfuel |- *. rewrite slength_app in Hfuel.
      cbn [String.length] in Hfuel.
      destruct fuel as [|fuel]; [lia|]. rewrite parseQuery_pair, Ascii.eqb_refl.
      cbn [foldl]. rewrite <- fmap_cons. rewrite IH; [reflexivity|].
      rewrite fmap_cons. lia.
Qed.

(** Appending the values of one key. *)
Lemma foldl_addPair_key k vals : ∀ acc k',
  foldl addPair acc ((λ val, (k, val)) <$> vals) !! k' =
  if decide (k = k') then
    match vals with [] => acc !! k | _ => Some (default [] (acc !! k) ++ vals) end
  else acc !! k'.
Proof.
  induction vals as [|x vals IH]; intros acc k'.
  - cbn. case_decide; by subst.
  - rewrite fmap_cons. cbn [foldl]. rewrite IH.
    case_decide as Hk.
    + assert (Hl : addPair acc (k, x) !! k = Some (default [] (acc !! k) ++ [x]))
        by (unfold addPair; cbn [fst snd]; apply lookup_insert_eq).
      rewrite Hl. destruct vals; simpl; [done|].
      by rewrite <- List.app_assoc.
    + unfold addPair. cbn [fst snd]. by rewrite lookup_insert_ne.
Qed.

Lemma foldl_addPair_pairs v keys : ∀ acc k,
  NoDup keys →
  foldl addPair acc (pairsOf v keys) !! k =
  if decide (k ∈ keys) then
    match v !! k with
    | Some (x :: r) => Some (default [] (acc !! k) ++ x :: r)
    | _ => acc !! k
    end
  else acc !! k.
Proof.
  induction keys as [|k0 keys IH]; intros acc k Hnd.
  - cbn. rewrite decide_False; [done|]. apply not_elem_of_nil.
  - apply NoDup_cons in Hnd as [Hk0 Hnd].
    unfold pairsOf in *. cbn [mbind list_bind]. rewrite foldl_app, (IH _ _ Hnd).
    rewrite !foldl_addPair_key.
    destruct (decide (k = k0)) as [->|Hne].
    + rewrite decide_False by done. rewrite decide_True by done.
      rewrite (decide_True (P := k0 ∈ k0 :: keys)) by apply list_elem_of_here.
      destruct (v !! k0) as [[|x r]|]; done.
    + rewrite (decide_False (P := k0 = k)) by done.
      destruct (decide (k ∈ keys)) as [Hin|Hnin].
      * rewrite (decide_True (P := k ∈ k0 :: keys)) by (by apply list_elem_of_further).
        done.
      * rewrite (decide_False (P := k ∈ k0 :: keys)); [done|].
        rewrite elem_of_cons. tauto.
Qed.

Lemma sortedKeys_spec v : NoDup (sortedKeys v) ∧ ∀ k, k ∈ sortedKeys v ↔ is_Some (v !! k).
Proof.
  unfold sortedKeys. split.
  - rewrite merge_sort_Permutation. apply NoDup_elements.
  - intros k. rewrite merge_sort_Permutation, elem_of_elements. apply elem_of_dom.
Qed.

(** Decoding an encoded [Values] map gives the map back. *)
Lemma parseQuery_Encode v fuel :
  noEmptyValues v → (String.length (Encode v) <= fuel)%nat →
  parseQuery fuel ∅ (Encode v) = v.
Proof.
  intros Hv Hfuel. unfold Encode in *. rewrite encodePairs_pairsOf in *.
  rewrite parseQuery_join by done.
  destruct (sortedKeys_spec v) as [Hnd Hkeys].
  apply map_eq. intros k. rewrite (foldl_addPair_pairs _ _ _ _ Hnd), lookup_empty.
  case_decide as Hin.
  - apply Hkeys in Hin as [vals Hvals]. rewrite Hvals.
    destruct vals as [|x r]; [by apply Hv in Hvals|done].
  - rewrite Hkeys in Hin. by destruct (v !! k); [exfalso; eauto|].
Qed.

Lemma addPair_noEmptyValues m kv : noEmptyValues m → noEmptyValues (addPair m kv).
Proof.
  intros Hm k vals. unfold addPair. rewrite lookup_insert.
  case_decide; [|apply Hm]. intros [= <-]. by destruct (default [] (m !! kv.1)).
Qed.

Lemma parseQuery_noEmptyValues fuel : ∀ m q,
  noEmptyValues m → noEmptyValues (parseQuery fuel m q).
Proof.
  induction fuel as [|fuel IH]; intros m q Hm; [done|]. cbn [parseQuery].
  destruct (isEmpty q); [done|].
  destruct (Cut q "&") as [[key rest] found].
  destruct (inBytes ";" key); [by apply IH|].
  destruct (isEmpty key); [by apply IH|].
  destruct (Cut key "=") as [[k val] found'].
  destruct (QueryUnescape k) as [k'|]; [|by apply IH].
  destruct (QueryUnescape val) as [val'|]; [|by apply IH].
  apply IH. by apply (addPair_noEmptyValues m (k', val')).
Qed.

Lemma Query_noEmptyValues u : noEmptyValues (Query u).
Proof. apply parseQuery_noEmptyValues. intros k vals. by rewrite lookup_empty. Qed.

Lemma trimValues_noEmptyValues q : noEmptyValues q → noEmptyValues (trimValues q).
Proof.
  intros Hq k vals. unfold trimValues. rewrite lookup_fmap.
  destruct (q !! k) as [l|] eqn:E; [|done]. cbn. intros [= <-].
  apply Hq in E. by destruct l.
Qed.

End QueryFacts.

(** ** The parameters of a query string, as the specification reads them *)

Section Redirection.
Context `{UnicodeCase}.

Lemma HasSuffix_app s suffix : HasSuffix (s +:+ suffix) suffix = true.
Proof.
  unfold HasSuffix. rewrite slength_app.
  replace (String.length s + String.length suffix - String.length suffix)%nat
    with (String.length s) by lia.
  rewrite dropS_app, String.eqb_refl, andb_true_r. apply Nat.leb_le. lia.
Qed.


Lemma TrimSuffix_id s suffix : HasSuffix s suffix = false → TrimSuffix s suffix = s.
Proof. intros Hs. unfold TrimSuffix. by rewrite Hs. Qed.















End Redirection.



(** C4, as worded, fails: a path with two trailing slashes loses one of them
    at each application. *)
Lemma canonical_twice_differs :
  ∃ u out,
    @validURL asciiCase "https://example.com/a//" u
    ∧ @processURL asciiCase "canonical" "https://example.com/a//" = inl out
    ∧ out = "https://example.com/a/"
    ∧ @processURL asciiCase "canonical" out = inl "https://example.com/a"
    ∧ @processURL asciiCase "canonical" out ≠ inl out.
Proof.
  eexists _, _. unfold validURL.
  split; [split; [vm_compute; reflexivity|split; vm_compute; discriminate]|].
  split; [vm_compute; reflexivity|].
  split; [reflexivity|]. split; [vm_compute; reflexivity|].
  vm_compute. discriminate.
Qed.

(** C8, as worded, fails: operation [all] fails on a valid URL whose redirection does not parse
    again: [www.] lands in front of a bracketed host, or the escaped zone of
    an IPv6 literal is refused. *)
Lemma all_fails_on_valid_url :
  (∃ u, @validURL asciiCase "https://[a.b:c]/" u
        ∧ knownOperation "all"
        ∧ @applyRedirection asciiCase u = "https://www.[a.b:c]"
        ∧ @processURL asciiCase "all" "https://[a.b:c]/" = inr unexpected_parse_error)
  ∧ (∃ u, @validURL asciiCase "https://[fe80::1%25é]/" u
          ∧ @applyRedirection asciiCase u = "https://[fe80::1%25%C3%A9]"
          ∧ @processURL asciiCase "all" "https://[fe80::1%25é]/" = inr unexpected_parse_error).
Proof.
  split.
  - eexists. unfold validURL, knownOperation.
    split; [split; [vm_compute; reflexivity|split; vm_compute; discriminate]|].
    split; [tauto|]. split; vm_compute; reflexivity.
  - eexists. unfold validURL.
    split; [split; [vm_compute; reflexivity|split; vm_compute; discriminate]|].
    split; vm_compute; reflexivity.
Qed.

Lemma processURL_outcomes_witness :
  ∃ u u2,
    @validURL asciiCase "https://Sub.Example.com/Path/To/?x=1#frag" u
    ∧ @Parse asciiCase (@applyRedirection asciiCase u) = Some u2
    ∧ @processURL asciiCase "all" "https://Sub.Example.com/Path/To/?x=1#frag"
      = inl (String_ (set_Fragment "" (set_RawQuery "" u2)))
    ∧ String_ (set_Fragment "" (set_RawQuery "" u2)) = "https://sub.example.com/path/to".
Proof.
  eexists _, _.
  assert (Hv : @validURL asciiCase "https://Sub.Example.com/Path/To/?x=1#frag"
                 (mkURL "https" "" None "Sub.Example.com" "/Path/To/" "" false false
                    "x=1" "frag" "")).
  { split; [vm_compute; reflexivity|split; discriminate]. }
  assert (HP2 : @Parse asciiCase (@applyRedirection asciiCase
                 (mkURL "https" "" None "Sub.Example.com" "/Path/To/" "" false false
                    "x=1" "frag" ""))
                = Some (mkURL "https" "" None "sub.example.com" "/path/to" "" false false
                          "x=1" "" "")).
  { vm_compute. reflexivity. }
  split; [exact Hv|]. split; [exact HP2|]. split.
  - destruct (@processURL_outcomes asciiCase "all"
                "https://Sub.Example.com/Path/To/?x=1#frag") as (_ & _ & _ & Hok).
    destruct (Hok _ Hv) as (_ & _ & Hall). exact (Hall eq_refl _ HP2).
  - vm_compute. reflexivity.
Defined.

(** ** Decoding, by induction on the escapes *)

Section Decoding.

Lemma unescape_pct_inv a b t mode h :
  unescape (String "%" (String a (String b t))) mode = Some h →
  ishex a = true ∧ ishex b = true ∧ escapeAllowed mode a b = true
  ∧ ∃ r, unescape t mode = Some r ∧ h = String (decodeEscape a b) r.
Proof.
  rewrite unescape_pct. unfold escapeAllowed, decodeEscape. cbv zeta.
  destruct (ishex a); [|discriminate]. destruct (ishex b); [|discriminate].
  cbn [andb negb].
  destruct (encoding_eqb mode encodeHost && (unhex a <? 8)
            && negb (Ascii.eqb a "2" && Ascii.eqb b "5")); [discriminate|].
  destruct (encoding_eqb mode encodeZone && negb (Ascii.eqb a "2" && Ascii.eqb b "5")
            && negb (Ascii.eqb (Zbyte (Z.lor (Z.shiftl (unhex a) 4) (unhex b))) " ")
            && shouldEscape (Zbyte (Z.lor (Z.shiftl (unhex a) 4) (unhex b))) encodeHost);
    [discriminate|].
  destruct (unescape t mode) as [r|]; [|discriminate].
  intros [= <-]. repeat split. eauto.
Qed.

Lemma unescape_pct_short mode t h :
  unescape (String "%" t) mode = Some h → ∃ a b t', t = String a (String b t').
Proof.
  destruct t as [|a [|b t']]; cbn; try discriminate. eauto.
Qed.

Lemma unescape_plain_inv c t mode h :
  Ascii.eqb c "%" = false → Ascii.eqb c "+" = false →
  unescape (String c t) mode = Some h →
  rawAllowed mode c = true ∧ ∃ r, unescape t mode = Some r ∧ h = String c r.
Proof.
  intros E1 E2. rewrite (unescape_plain _ _ _ E1 E2). unfold rawAllowed.
  destruct ((encoding_eqb mode encodeHost || encoding_eqb mode encodeZone)
            && (byteZ c <? 128) && shouldEscape c encodeHost); [discriminate|].
  destruct (unescape t mode) as [r|]; [|discriminate]. intros [= <-]. eauto.
Qed.

Lemma unescape_plus_inv t mode h :
  unescape (String "+" t) mode = Some h →
  ∃ r, unescape t mode = Some r
       ∧ h = String (if encoding_eqb mode encodeQueryComponent then " " else "+")%char r.
Proof.
  rewrite unescape_plus. destruct (unescape t mode) as [r|]; [|discriminate].
  intros [= <-]. eauto.
Qed.

(** Induction on a successful decoding: the empty text, an escape, a plus
    sign, any other byte. *)
Lemma unescape_ind (mode : encoding) (P : string → string → Prop) :
  P "" "" →
  (∀ a b t r, ishex a = true → ishex b = true → escapeAllowed mode a b = true →
     unescape t mode = Some r → P t r →
     P (String "%" (String a (String b t))) (String (decodeEscape a b) r)) →
  (∀ t r, unescape t mode = Some r → P t r →
     P (String "+" t)
       (String (if encoding_eqb mode encodeQueryComponent then " " else "+")%char r)) →
  (∀ c t r, Ascii.eqb c "%" = false → Ascii.eqb c "+" = false →
     rawAllowed mode c = true → unescape t mode = Some r → P t r →
     P (String c t) (String c r)) →
  ∀ s h, unescape s mode = Some h → P s h.
Proof.
  intros Hnil Hpct Hplus Hraw s.
  assert (Hlen : ∀ n s, (String.length s <= n)%nat → ∀ h, unescape s mode = Some h → P s h).
  { clear s. induction n as [|n IH]; intros s Hs h Hu.
    - destruct s; [|cbn in Hs; lia]. cbn in Hu. by injection Hu as <-.
    - destruct s as [|c t]; [cbn in Hu; by injection Hu as <-|].
      cbn [String.length] in Hs.
      destruct (Ascii.eqb c "%") eqn:E1.
      + apply Ascii.eqb_eq in E1. subst c.
        destruct (unescape_pct_short _ _ _ Hu) as (a & b & t' & ->).
        apply unescape_pct_inv in Hu as (Ha & Hb & Hok & r & Hr & ->).
        apply Hpct; try done. apply IH; [|done]. cbn [String.length] in Hs. lia.
      + destruct (Ascii.eqb c "+") eqn:E2.
        * apply Ascii.eqb_eq in E2. subst c.
          apply unescape_plus_inv in Hu as (r & Hr & ->).
          apply Hplus; [done|]. apply IH; [lia|done].
        * apply (unescape_plain_inv _ _ _ _ E1 E2) in Hu as (Hok & r & Hr & ->).
          apply Hraw; try done. apply IH; [lia|done]. }
  intros h. by apply (Hlen (String.length s)).
Qed.

End Decoding.

(** ** Hosts *)

Section Hosts.

Lemma escape_app s t mode : escape (s +:+ t) mode = escape s mode +:+ escape t mode.
Proof.
  induction s as [|c s IH]; [done|]. rewrite sapp_cons, !escape_cons, IH.
  destruct (shouldEscape c mode); [|done].
  destruct (Ascii.eqb c " " && encoding_eqb mode encodeQueryComponent); done.
Qed.

Lemma escape_id s mode :
  allS (λ c, negb (shouldEscape c mode)) s = true → escape s mode = s.
Proof.
  induction s as [|c s IH]; [done|]. cbn [allS]. rewrite andb_true_iff, negb_true_iff.
  intros [Hc Hs]. by rewrite escape_cons, Hc, IH.
Qed.

Lemma decodeEscape_high a b :
  ishex a = true → ishex b = true → (unhex a <? 8) = false →
  (0x80 <=? byteZ (decodeEscape a b)) = true.
Proof.
  destruct a as [[] [] [] [] [] [] [] []]; try discriminate;
  destruct b as [[] [] [] [] [] [] [] []]; try discriminate; intros _ _; vm_compute;
    try discriminate; reflexivity.
Qed.

Lemma decodeEscape_25 a b :
  Ascii.eqb a "2" && Ascii.eqb b "5" = true → decodeEscape a b = "%"%char.
Proof.
  rewrite andb_true_iff, !Ascii.eqb_eq. by intros [-> ->].
Qed.

Lemma escapeAllowed_host a b :
  escapeAllowed encodeHost a b = true →
  (unhex a <? 8) = false ∨ Ascii.eqb a "2" && Ascii.eqb b "5" = true.
Proof.
  unfold escapeAllowed. cbv zeta. cbn [encoding_eqb andb negb].
  destruct (unhex a <? 8); [|by left].
  destruct (Ascii.eqb a "2" && Ascii.eqb b "5"); [by right|discriminate].
Qed.

(** Every byte of a decoded host is a host byte. *)
Lemma unescape_host_bytes s h : unescape s encodeHost = Some h → allS hostOK h = true.
Proof.
  revert s h. apply unescape_ind.
  - done.
  - intros a b t r Ha Hb Hok _ IH. cbn [allS]. rewrite IH, andb_true_r.
    unfold hostOK. apply escapeAllowed_host in Hok as [Hhi|H25].
    + by rewrite (decodeEscape_high a b Ha Hb Hhi).
    + rewrite (decodeEscape_25 a b H25). reflexivity.
  - intros t r _ IH. cbn [allS encoding_eqb]. by rewrite IH.
  - intros c t r E1 E2 Hraw _ IH. cbn [allS]. rewrite IH, andb_true_r.
    unfold rawAllowed in Hraw. cbn [encoding_eqb orb andb] in Hraw.
    unfold hostOK. destruct (byteZ c <? 128) eqn:Hlt.
    + cbn [andb] in Hraw. rewrite Hraw. apply orb_true_r.
    + apply Z.ltb_ge in Hlt. apply Z.leb_le in Hlt. by rewrite Hlt.
Qed.

Lemma unescape_zone_bytes s h : unescape s encodeZone = Some h → allS zoneOK h = true.
Proof.
  revert s h. apply unescape_ind.
  - done.
  - intros a b t r Ha Hb Hok _ IH. cbn [allS]. rewrite IH, andb_true_r.
    unfold escapeAllowed in Hok. cbv zeta in Hok. cbn [encoding_eqb andb negb] in Hok.
    fold (decodeEscape a b) in Hok. unfold zoneOK, hostOK.
    destruct (Ascii.eqb a "2" && Ascii.eqb b "5") eqn:H25.
    + rewrite (decodeEscape_25 a b H25). reflexivity.
    + cbn [negb] in Hok. destruct (Ascii.eqb (decodeEscape a b) " "); [apply orb_true_r|].
      cbn [negb andb] in Hok. rewrite Hok. cbn. by rewrite !orb_true_r.
  - intros t r _ IH. cbn [allS encoding_eqb]. by rewrite IH.
  - intros c t r E1 E2 Hraw _ IH. cbn [allS]. rewrite IH, andb_true_r.
    unfold rawAllowed in Hraw. cbn [encoding_eqb orb andb] in Hraw.
    unfold zoneOK, hostOK. destruct (byteZ c <? 128) eqn:Hlt.
    + cbn [andb] in Hraw. rewrite Hraw. cbn. by rewrite !orb_true_r.
    + apply Z.ltb_ge in Hlt. apply Z.leb_le in Hlt. by rewrite Hlt.
Qed.

End Hosts.

Section MoreStrings.

Lemma noByte_cons c a s : noByte c (String a s) ↔ a ≠ c ∧ noByte c s.
Proof.
  unfold noByte. cbn [allS]. rewrite andb_true_iff, negb_true_iff, Ascii.eqb_neq. tauto.
Qed.

Lemma noByte_app_iff c s t : noByte c (s +:+ t) ↔ noByte c s ∧ noByte c t.
Proof. unfold noByte. rewrite allS_app, andb_true_iff. tauto. Qed.

Lemma takeS_dropS n s : takeS n s +:+ dropS n s = s.
Proof.
  revert s. induction n as [|n IH]; intros [|c s]; try done.
  cbn [takeS dropS]. by rewrite sapp_cons, IH.
Qed.

Lemma length_takeS n s : (n <= String.length s)%nat → String.length (takeS n s) = n.
Proof.
  revert s. induction n as [|n IH]; intros [|c s]; cbn; try lia.
  intros Hn. rewrite IH; lia.
Qed.

Lemma allS_takeS p n s : allS p s = true → allS p (takeS n s) = true.
Proof.
  revert s. induction n as [|n IH]; intros [|c s]; try done.
  cbn [allS takeS]. rewrite !andb_true_iff. intros [? ?]. auto.
Qed.

Lemma allS_dropS p n s : allS p s = true → allS p (dropS n s) = true.
Proof.
  revert s. induction n as [|n IH]; intros [|c s]; try done.
  cbn [allS dropS]. rewrite !andb_true_iff. intros [? ?]. auto.
Qed.

Lemma IndexByte_Some c s i :
  IndexByte s c = Some i →
  ∃ t, s = takeS i s +:+ String c t ∧ noByte c (takeS i s)
       ∧ dropS i s = String c t ∧ String.length (takeS i s) = i.
Proof.
  revert i. induction s as [|a s IH]; intros i; [discriminate|]. cbn [IndexByte].
  destruct (Ascii.eqb a c) eqn:E.
  - intros [= <-]. apply Ascii.eqb_eq in E. subst. exists s. done.
  - destruct (IndexByte s c) as [j|]; [|discriminate]. intros [= <-].
    destruct (IH j eq_refl) as (t & Hs & Hno & Hd & Hl). exists t.
    cbn [takeS dropS String.length]. rewrite sapp_cons, <- Hs, Hl.
    split; [done|]. split; [|done]. apply noByte_cons. split; [|done].
    by apply Ascii.eqb_neq.
Qed.

Lemma LastIndexByte_None c s : noByte c s ↔ LastIndexByte s c = None.
Proof.
  induction s as [|a s IH]; [done|]. rewrite noByte_cons, IH. cbn [LastIndexByte].
  destruct (LastIndexByte s c); [split; [intros [_ ?]|]; discriminate|].
  destruct (Ascii.eqb a c) eqn:E.
  - apply Ascii.eqb_eq in E. split; [intros [? _]; done|discriminate].
  - apply Ascii.eqb_neq in E. done.
Qed.

Lemma LastIndexByte_app c s t :
  noByte c t → LastIndexByte (s +:+ String c t) c = Some (String.length s).
Proof.
  intros Ht. induction s as [|a s IH].
  - rewrite sapp_nil_l. cbn [LastIndexByte].
    apply LastIndexByte_None in Ht. by rewrite Ht, Ascii.eqb_refl.
  - rewrite sapp_cons. cbn [LastIndexByte]. by rewrite IH.
Qed.

Lemma LastIndexByte_Some c s i :
  LastIndexByte s c = Some i →
  ∃ t, s = takeS i s +:+ String c t ∧ noByte c t ∧ String.length (takeS i s) = i
       ∧ dropS i s = String c t.
Proof.
  revert i. induction s as [|a s IH]; intros i; [discriminate|]. cbn [LastIndexByte].
  destruct (LastIndexByte s c) as [j|] eqn:E.
  - intros [= <-]. destruct (IH j eq_refl) as (t & Hs & Hno & Hl & Hd). exists t.
    cbn [takeS dropS String.length]. rewrite sapp_cons, <- Hs, Hl. done.
  - destruct (Ascii.eqb a c) eqn:Ea; [|discriminate]. intros [= <-].
    apply Ascii.eqb_eq in Ea. subst. exists s.
    split; [done|]. split; [by apply LastIndexByte_None|]. done.
Qed.

Lemma HasPrefix_app s t : HasPrefix (s +:+ t) s = true.
Proof.
  induction s as [|c s IH]; [rewrite sapp_nil_l; by destruct t|].
  rewrite sapp_cons. cbn [HasPrefix]. by rewrite Ascii.eqb_refl.
Qed.

Lemma HasPrefix_byte s c : HasPrefix s (String c "") = true ↔ ∃ t, s = String c t.
Proof.
  destruct s as [|a s]; cbn [HasPrefix].
  - split; [discriminate|]. by intros [t ?].
  - destruct (Ascii.eqb c a) eqn:E.
    + apply Ascii.eqb_eq in E. subst. split; [eauto|intros _; by destruct s].
    + apply Ascii.eqb_neq in E. split; [destruct s; discriminate|].
      intros [t [= ? ?]]. congruence.
Qed.

Lemma HasPrefix_byte_app s t c :
  HasPrefix s (String c "") = true → HasPrefix (s +:+ t) (String c "") = true.
Proof.
  rewrite !HasPrefix_byte. intros [r ->]. rewrite sapp_cons. eauto.
Qed.

Lemma Index_None_tail c s sep : Index (String c s) sep = None → Index s sep = None.
Proof.
  cbn [Index]. destruct (HasPrefix (String c s) sep); [discriminate|].
  by destruct (Index s sep).
Qed.

End MoreStrings.

Section HostRoundTrip.

Lemma unescape_pct' a b t mode :
  unescape (String "%" (String a (String b t))) mode =
  if ishex a && ishex b && escapeAllowed mode a b
  then match unescape t mode with
       | Some r => Some (String (decodeEscape a b) r)
       | None => None
       end
  else None.
Proof.
  rewrite unescape_pct. unfold escapeAllowed, decodeEscape. cbv zeta.
  destruct (ishex a); [|done]. destruct (ishex b); [|done]. cbn [andb negb].
  destruct (encoding_eqb mode encodeHost && (unhex a <? 8)
            && negb (Ascii.eqb a "2" && Ascii.eqb b "5")); [done|].
  cbn [andb negb].
  destruct (encoding_eqb mode encodeZone && negb (Ascii.eqb a "2" && Ascii.eqb b "5")
            && negb (Ascii.eqb (Zbyte (Z.lor (Z.shiftl (unhex a) 4) (unhex b))) " ")
            && shouldEscape (Zbyte (Z.lor (Z.shiftl (unhex a) 4) (unhex b))) encodeHost);
    done.
Qed.

Lemma unescape_plain' c t mode :
  Ascii.eqb c "%" = false → Ascii.eqb c "+" = false →
  unescape (String c t) mode =
  if rawAllowed mode c
  then match unescape t mode with Some r => Some (String c r) | None => None end
  else None.
Proof.
  intros E1 E2. rewrite (unescape_plain _ _ _ E1 E2). unfold rawAllowed.
  by destruct ((encoding_eqb mode encodeHost || encoding_eqb mode encodeZone)
               && (byteZ c <? 128) && shouldEscape c encodeHost).
Qed.

Lemma decodeEscape_hex c : decodeEscape (hexHi c) (hexLo c) = c.
Proof. by destruct (hex_digits c) as (_ & _ & ? & _). Qed.

Lemma host_escape_allowed c :
  hostOK c = true → shouldEscape c encodeHost = true →
  escapeAllowed encodeHost (hexHi c) (hexLo c) = true.
Proof.
  destruct c as [[] [] [] [] [] [] [] []]; vm_compute; intros; try discriminate; reflexivity.
Qed.

Lemma zone_escape_allowed c :
  zoneASCIIOK c = true → shouldEscape c encodeHost = true →
  escapeAllowed encodeZone (hexHi c) (hexLo c) = true.
Proof.
  destruct c as [[] [] [] [] [] [] [] []]; vm_compute; intros; try discriminate; reflexivity.
Qed.

Lemma rawAllowed_unescaped mode c : shouldEscape c encodeHost = false → rawAllowed mode c = true.
Proof. intros Hc. unfold rawAllowed. by rewrite Hc, andb_false_r. Qed.

(** What [String] writes for a host is decoded to the host again. *)
Lemma unescape_escape_host h :
  allS hostOK h = true → unescape (escape h encodeHost) encodeHost = Some h.
Proof.
  induction h as [|c h IH]; [done|]. cbn [allS]. rewrite andb_true_iff.
  intros [Hc Hh]. rewrite escape_cons.
  destruct (shouldEscape c encodeHost) eqn:Hesc.
  - cbn [encoding_eqb andb]. rewrite andb_false_r.
    fold (hexHi c) (hexLo c). rewrite unescape_pct'.
    destruct (hex_digits c) as (H1 & H2 & _). rewrite H1, H2.
    rewrite (host_escape_allowed c Hc Hesc), (IH Hh), decodeEscape_hex. done.
  - destruct (Ascii.eqb c "+") eqn:Hplus.
    + apply Ascii.eqb_eq in Hplus. subst c. by rewrite unescape_plus, (IH Hh).
    + rewrite (unescape_plain' _ _ _ (unescaped_not_pct _ _ Hesc) Hplus).
      by rewrite (rawAllowed_unescaped _ _ Hesc), (IH Hh).
Qed.

(** The zone is written with the escapes of a host and read with the rules
    of a zone. *)
Lemma unescape_escape_zone h :
  allS zoneASCIIOK h = true → unescape (escape h encodeHost) encodeZone = Some h.
Proof.
  induction h as [|c h IH]; [done|]. cbn [allS]. rewrite andb_true_iff.
  intros [Hc Hh]. rewrite escape_cons.
  destruct (shouldEscape c encodeHost) eqn:Hesc.
  - cbn [encoding_eqb andb]. rewrite andb_false_r.
    fold (hexHi c) (hexLo c). rewrite unescape_pct'.
    destruct (hex_digits c) as (H1 & H2 & _). rewrite H1, H2.
    rewrite (zone_escape_allowed c Hc Hesc), (IH Hh), decodeEscape_hex. done.
  - destruct (Ascii.eqb c "+") eqn:Hplus.
    + apply Ascii.eqb_eq in Hplus. subst c. by rewrite unescape_plus, (IH Hh).
    + rewrite (unescape_plain' _ _ _ (unescaped_not_pct _ _ Hesc) Hplus).
      by rewrite (rawAllowed_unescaped _ _ Hesc), (IH Hh).
Qed.

Lemma zoneOK_ASCII c : zoneOK c = true → isASCIIByte c = true → zoneASCIIOK c = true.
Proof.
  destruct c as [[] [] [] [] [] [] [] []]; vm_compute; intros; try discriminate; reflexivity.
Qed.

Lemma digit_plain c mode :
  isDigitByte c = true →
  Ascii.eqb c "%" = false ∧ Ascii.eqb c "+" = false ∧ shouldEscape c mode = false
  ∧ Ascii.eqb c ":" = false ∧ Ascii.eqb c "]" = false ∧ hostOK c = true.
Proof.
  destruct c as [[] [] [] [] [] [] [] []]; try discriminate; intros _; by destruct mode.
Qed.

Lemma unescape_digits s mode : allS isDigitByte s = true → unescape s mode = Some s.
Proof.
  induction s as [|c s IH]; [done|]. cbn [allS]. rewrite andb_true_iff. intros [Hc Hs].
  destruct (digit_plain c encodeHost Hc) as (E1 & E2 & E3 & _).
  by rewrite (unescape_plain' _ _ _ E1 E2), (rawAllowed_unescaped _ _ E3), (IH Hs).
Qed.

Lemma escape_digits s mode : allS isDigitByte s = true → escape s mode = s.
Proof.
  intros Hs. apply escape_id. eapply allS_impl; [|exact Hs].
  intros c Hc. apply negb_true_iff. by destruct (digit_plain c mode Hc) as (_ & _ & ? & _).
Qed.

Lemma digits_noByte c s :
  allS isDigitByte s = true → isDigitByte c = false → noByte c s.
Proof.
  intros Hs Hc. unfold noByte. eapply allS_impl; [|exact Hs].
  intros a Ha. apply negb_true_iff. destruct (Ascii.eqb a c) eqn:E; [|done].
  apply Ascii.eqb_eq in E. congruence.
Qed.

(** A separator that is neither a percent sign nor a hexadecimal digit cuts
    a text between two escapes: both sides decode on their own. *)
Lemma unescape_split mode c B : ∀ A h,
  ishex c = false → Ascii.eqb c "%" = false →
  unescape (A +:+ String c B) mode = Some h →
  ∃ a b, unescape A mode = Some a ∧ unescape (String c B) mode = Some b ∧ h = a +:+ b.
Proof.
  intros A h Hhex Hpct.
  assert (Hn : ∀ n A h, (String.length A <= n)%nat →
            unescape (A +:+ String c B) mode = Some h →
            ∃ a b, unescape A mode = Some a ∧ unescape (String c B) mode = Some b
                   ∧ h = a +:+ b).
  { clear A h. induction n as [|n IH]; intros A h Hlen Hu.
    - destruct A; [|cbn in Hlen; lia]. exists "", h. done.
    - destruct A as [|x A]; [exists "", h; done|].
      cbn [String.length] in Hlen. rewrite sapp_cons in Hu.
      destruct (Ascii.eqb x "%") eqn:E1.
      + apply Ascii.eqb_eq in E1. subst x.
        destruct A as [|y A].
        { rewrite sapp_nil_l in Hu. destruct B as [|b' B']; [discriminate|].
          apply unescape_pct_inv in Hu as (Hc & _). congruence. }
        destruct A as [|z A].
        { rewrite sapp_cons, sapp_nil_l in Hu.
          apply unescape_pct_inv in Hu as (_ & Hc & _). congruence. }
        rewrite !sapp_cons in Hu.
        apply unescape_pct_inv in Hu as (Hy & Hz & Hok & r & Hr & ->).
        cbn [String.length] in Hlen.
        destruct (IH A r ltac:(lia) Hr) as (a & b & Ha & Hb & ->).
        exists (String (decodeEscape y z) a), b.
        rewrite unescape_pct', Hy, Hz, Hok, Ha. done.
      + destruct (Ascii.eqb x "+") eqn:E2.
        * apply Ascii.eqb_eq in E2. subst x.
          apply unescape_plus_inv in Hu as (r & Hr & ->).
          destruct (IH A r ltac:(lia) Hr) as (a & b & Ha & Hb & ->).
          eexists _, b. rewrite unescape_plus, Ha. done.
        * apply (unescape_plain_inv _ _ _ _ E1 E2) in Hu as (Hok & r & Hr & ->).
          destruct (IH A r ltac:(lia) Hr) as (a & b & Ha & Hb & ->).
          eexists _, b. rewrite (unescape_plain' _ _ _ E1 E2), Hok, Ha. done. }
  by apply (Hn (String.length A)).
Qed.

Lemma HasPrefix_pct25 c s : HasPrefix (String c s) "%25" = true → c = "%"%char.
Proof.
  cbn [HasPrefix]. destruct (Ascii.eqb "%" c) eqn:E; [|discriminate].
  apply Ascii.eqb_eq in E. done.
Qed.

Lemma HasPrefix_pct25_escape a b t :
  HasPrefix (String "%" (String a (String b t))) "%25" = Ascii.eqb a "2" && Ascii.eqb b "5".
Proof.
  cbn [HasPrefix]. rewrite Ascii.eqb_refl, (Ascii.eqb_sym "2" a), (Ascii.eqb_sym "5" b).
  destruct (Ascii.eqb a "2"); [|done]. destruct (Ascii.eqb b "5"); [|done]. by destruct t.
Qed.

Lemma Index_skip c s sep :
  HasPrefix (String c s) sep = false →
  Index (String c s) sep = match Index s sep with Some i => Some (S i) | None => None end.
Proof. intros Hp. cbn [Index]. by rewrite Hp. Qed.

(** In host mode a percent sign is decoded from [%25] only. *)
Lemma unescape_host_no_pct s h :
  unescape s encodeHost = Some h → Index s "%25" = None → noByte "%" h.
Proof.
  revert s h. apply (unescape_ind encodeHost (λ s h, Index s "%25" = None → noByte "%" h)).
  - done.
  - intros a b t r Ha Hb Hok _ IH Hidx.
    assert (Hp : HasPrefix (String "%" (String a (String b t))) "%25" = false).
    { cbn [Index] in Hidx.
      by destruct (HasPrefix (String "%" (String a (String b t))) "%25"). }
    rewrite HasPrefix_pct25_escape in Hp.
    do 3 apply Index_None_tail in Hidx.
    apply noByte_cons. split; [|by apply IH].
    apply escapeAllowed_host in Hok as [Hhi|H25]; [|congruence].
    pose proof (decodeEscape_high a b Ha Hb Hhi) as Hge. intros Heq.
    rewrite Heq in Hge. discriminate.
  - intros t r _ IH Hidx. apply Index_None_tail in Hidx.
    apply noByte_cons. split; [done|by apply IH].
  - intros c t r E1 E2 _ _ IH Hidx. apply Index_None_tail in Hidx.
    apply noByte_cons. split; [by apply Ascii.eqb_neq|by apply IH].
Qed.

(** In host mode no ASCII byte other than the percent sign comes out of an
    escape. *)
Lemma unescape_host_noByte c s h :
  unescape s encodeHost = Some h → isASCIIByte c = true → c ≠ "%"%char →
  noByte c s → noByte c h.
Proof.
  intros Hu Hc Hpct. revert s h Hu.
  apply (unescape_ind encodeHost (λ s h, noByte c s → noByte c h)).
  - done.
  - intros a b t r Ha Hb Hok _ IH Hno.
    do 3 apply noByte_cons in Hno as [_ Hno].
    apply noByte_cons. split; [|by apply IH].
    apply escapeAllowed_host in Hok as [Hhi|H25].
    + pose proof (decodeEscape_high a b Ha Hb Hhi) as Hge. intros Heq.
      rewrite Heq in Hge. unfold isASCIIByte in Hc.
      apply Z.leb_le in Hge. apply Z.ltb_lt in Hc. lia.
    + by rewrite (decodeEscape_25 a b H25).
  - intros t r _ IH Hno. apply noByte_cons in Hno as [Hne Hno].
    apply noByte_cons. split; [done|by apply IH].
  - intros a t r _ _ _ _ IH Hno. apply noByte_cons in Hno as [Hne Hno].
    apply noByte_cons. split; [done|by apply IH].
Qed.

(** A text without percent sign is written without [%25], so that the first
    [%25] after it is found where the text ends. *)
Lemma Index_pct25_after_escape s mode Y :
  noByte "%" s →
  Index (escape s mode +:+ Y) "%25" =
  match Index Y "%25" with
  | Some i => Some (String.length (escape s mode) + i)%nat
  | None => None
  end.
Proof.
  intros Hs. induction s as [|c s IH].
  - cbn [escape]. rewrite sapp_nil_l. by destruct (Index Y "%25").
  - apply noByte_cons in Hs as [Hc Hs]. specialize (IH Hs). rewrite escape_cons.
    destruct (shouldEscape c mode) eqn:Hesc.
    + destruct (Ascii.eqb c " " && encoding_eqb mode encodeQueryComponent).
      * rewrite sapp_cons, Index_skip, IH.
        { cbn [String.length]. by destruct (Index Y "%25"). }
        destruct (HasPrefix (String "+" (escape s mode +:+ Y)) "%25") eqn:Hp; [|done].
        by apply HasPrefix_pct25 in Hp.
      * fold (hexHi c) (hexLo c). rewrite !sapp_cons.
        destruct (hex_digits c) as (_ & _ & _ & H4 & H5).
        rewrite Index_skip.
        2:{ rewrite HasPrefix_pct25_escape.
            destruct (Ascii.eqb (hexHi c) "2" && Ascii.eqb (hexLo c) "5") eqn:E; [|done].
            apply andb_true_iff in E as [E1%Ascii.eqb_eq E2%Ascii.eqb_eq].
            destruct (hex_digits_value c) as [_ Hv]. exfalso. apply Hc. by apply Hv. }
        rewrite Index_skip.
        2:{ destruct (HasPrefix _ "%25") eqn:Hp; [|done].
            apply HasPrefix_pct25 in Hp. rewrite Hp in H4. discriminate. }
        rewrite Index_skip.
        2:{ destruct (HasPrefix _ "%25") eqn:Hp; [|done].
            apply HasPrefix_pct25 in Hp. rewrite Hp in H5. discriminate. }
        rewrite IH. cbn [String.length]. by destruct (Index Y "%25").
    + rewrite sapp_cons, Index_skip, IH.
      { cbn [String.length]. by destruct (Index Y "%25"). }
      destruct (HasPrefix _ "%25") eqn:Hp; [|done].
      apply HasPrefix_pct25 in Hp. congruence.
Qed.

End HostRoundTrip.

Section ParseHost.

Lemma dropS_S i s c t : dropS i s = String c t → dropS (S i) s = t.
Proof.
  revert s. induction i as [|i IH]; intros s.
  - cbn [dropS]. intros ->. reflexivity.
  - destruct s as [|a s]; [cbn [dropS]; discriminate|]. cbn [dropS]. intros Hd.
    exact (IH s Hd).
Qed.

Lemma dropS_length_app s t : dropS (String.length s) (s +:+ t) = t.
Proof. apply dropS_app. Qed.

Lemma takeS_takeS z i s : (z <= i)%nat → takeS z (takeS i s) = takeS z s.
Proof.
  revert i s. induction z as [|z IH]; intros [|i] [|c s] Hz; try done; try lia.
  cbn [takeS]. rewrite IH; [done|lia].
Qed.

Lemma takeS_dropS_comm z i s :
  (z <= i)%nat → takeS (i - z) (dropS z s) = dropS z (takeS i s).
Proof.
  revert i s. induction z as [|z IH]; intros i s Hz.
  - by rewrite Nat.sub_0_r.
  - destruct i as [|i]; [lia|]. destruct s as [|c s]; [by destruct (S i - S z)%nat|].
    cbn [dropS takeS]. rewrite <- IH by lia. done.
Qed.

Lemma HasPrefix_takeS n s sep : HasPrefix (takeS n s) sep = true → HasPrefix s sep = true.
Proof.
  revert n s. induction sep as [|p sep IH]; intros n s; [by destruct s|].
  destruct n as [|n], s as [|c s]; cbn [takeS HasPrefix]; try discriminate.
  destruct (Ascii.eqb p c); [apply IH|done].
Qed.

(** Where [Index] finds the first [%25]. *)
Lemma Index_pct25_Some s z :
  Index s "%25" = Some z →
  HasPrefix (dropS z s) "%25" = true ∧ Index (takeS z s) "%25" = None
  ∧ (z <= String.length s)%nat.
Proof.
  revert z. induction s as [|c s IH]; intros z.
  - cbn. discriminate.
  - cbn [Index]. destruct (HasPrefix (String c s) "%25") eqn:Hp.
    + intros [= <-]. cbn [dropS takeS]. split; [done|]. split; [done|lia].
    + destruct (Index s "%25") as [j|]; [|discriminate]. intros [= <-].
      destruct (IH j eq_refl) as (H1 & H2 & H3). cbn [dropS takeS String.length].
      split; [done|]. split; [|lia]. rewrite Index_skip, H2; [done|].
      destruct (HasPrefix (String c (takeS j s)) "%25") eqn:Hq; [|done].
      apply (HasPrefix_takeS (S j) (String c s)) in Hq. congruence.
Qed.

Lemma validOptionalPort_inv t :
  validOptionalPort t = true →
  t = "" ∨ ∃ digits, t = String ":" digits ∧ allS isDigitByte digits = true.
Proof.
  destruct t as [|c d]; [by left|]. cbn [validOptionalPort].
  rewrite andb_true_iff, Ascii.eqb_eq. intros [-> Hd]. right. eauto.
Qed.

Lemma port_text t :
  validOptionalPort t = true →
  unescape t encodeHost = Some t ∧ escape t encodeHost = t ∧ noByte "]" t
  ∧ allS hostOK t = true ∧ allS isASCIIByte t = true.
Proof.
  intros [->|(d & -> & Hd)]%validOptionalPort_inv; [done|].
  split.
  { rewrite unescape_plain' by done. by rewrite (unescape_digits d encodeHost Hd). }
  split; [rewrite escape_cons; cbn; by rewrite (escape_digits d encodeHost Hd)|].
  split; [apply noByte_cons; split; [done|by apply digits_noByte]|].
  split.
  - cbn [allS]. apply andb_true_iff. split; [done|].
    eapply allS_impl; [|exact Hd]. intros c Hc. by destruct (digit_plain c encodeHost Hc) as (_&_&_&_&_&?).
  - cbn [allS]. apply andb_true_iff. split; [done|].
    eapply allS_impl; [|exact Hd]. intros c. unfold isDigitByte, isASCIIByte.
    rewrite andb_true_iff, !Z.leb_le, Z.ltb_lt. lia.
Qed.

Lemma bracket_port_text t :
  validOptionalPort t = true →
  unescape (String "]" t) encodeHost = Some (String "]" t)
  ∧ escape (String "]" t) encodeHost = String "]" t.
Proof.
  intros (H1 & H2 & _)%port_text. split.
  - rewrite unescape_plain' by done. by rewrite H1.
  - rewrite escape_cons. cbn. by rewrite H2.
Qed.

(** The first byte of a decoded host is the first byte of its text, unless
    that one starts an escape. *)
Lemma unescape_host_first c s h :
  unescape (String c s) encodeHost = Some h →
  ∃ d r, h = String d r ∧ (d = c ∨ (0x80 <=? byteZ d) = true ∨ d = "%"%char).
Proof.
  intros Hu. destruct (Ascii.eqb c "%") eqn:E1.
  - apply Ascii.eqb_eq in E1. subst c.
    destruct (unescape_pct_short _ _ _ Hu) as (a & b & t & ->).
    apply unescape_pct_inv in Hu as (Ha & Hb & Hok & r & _ & ->).
    eexists _, r. split; [done|]. right.
    apply escapeAllowed_host in Hok as [Hhi|H25].
    + left. by apply decodeEscape_high.
    + right. by apply decodeEscape_25.
  - destruct (Ascii.eqb c "+") eqn:E2.
    + apply Ascii.eqb_eq in E2. subst c. apply unescape_plus_inv in Hu as (r & _ & ->).
      eexists _, r. split; [done|]. by left.
    + apply (unescape_plain_inv _ _ _ _ E1 E2) in Hu as (_ & r & _ & ->).
      eexists _, r. split; [done|]. by left.
Qed.

Lemma HasPrefix_pct25_inv s :
  HasPrefix s "%25" = true → ∃ t, s = String "%" (String "2" (String "5" t)).
Proof.
  destruct s as [|c0 [|c1 [|c2 t]]]; cbn [HasPrefix].
  - discriminate.
  - destruct (Ascii.eqb "%" c0); discriminate.
  - destruct (Ascii.eqb "%" c0); [|discriminate]. destruct (Ascii.eqb "2" c1); discriminate.
  - destruct (Ascii.eqb "%" c0) eqn:E0; [|discriminate].
    destruct (Ascii.eqb "2" c1) eqn:E1; [|discriminate].
    destruct (Ascii.eqb "5" c2) eqn:E2; [|discriminate].
    apply Ascii.eqb_eq in E0, E1, E2. subst. eauto.
Qed.

(** [parseHost] returns a host of one of the two shapes. *)
Lemma parseHost_shape r h :
  parseHost r = Some h → h ≠ "" → plainHost h ∨ bracketHost h.
Proof.
  unfold parseHost. destruct (HasPrefix r "[") eqn:Hb.
  - intros Hp _. right.
    apply HasPrefix_byte in Hb as [r' ->].
    destruct (LastIndexByte (String "[" r') "]") as [i|] eqn:Hi; [|discriminate].
    destruct (LastIndexByte_Some _ _ _ Hi) as (t & Hr & Ht & Hlen & Hd).
    rewrite (dropS_S _ _ _ _ Hd) in Hp.
    destruct (validOptionalPort t) eqn:Hport; [|discriminate]. cbn [negb] in Hp.
    destruct (bracket_port_text t Hport) as [Hu3 _].
    assert (Hi0 : i ≠ O).
    { intros ->. cbn in Hd. discriminate. }
    set (A := takeS i (String "[" r')) in *.
    assert (HA : HasPrefix A "[" = true).
    { subst A. apply HasPrefix_byte. destruct i; [done|]. cbn [takeS]. eauto. }
    destruct (Index A "%25") as [z|] eqn:Hz.
    + destruct (Index_pct25_Some _ _ Hz) as (Hz1 & Hz2 & Hz3).
      assert (Hzi : (z <= i)%nat) by lia.
      assert (Hz0 : z ≠ O).
      { intros ->. cbn [dropS] in Hz1. apply HasPrefix_byte in HA as [A' HA'].
        rewrite HA' in Hz1. by apply HasPrefix_pct25 in Hz1. }
      rewrite <- (takeS_takeS z i) in Hp by done. fold A in Hp.
      rewrite (takeS_dropS_comm z i) in Hp by done. fold A in Hp.
      rewrite Hd, Hu3 in Hp.
      destruct (unescape (takeS z A) encodeHost) as [h1|] eqn:H1; [|discriminate].
      destruct (unescape (dropS z A) encodeZone) as [h2|] eqn:H2; [|discriminate].
      injection Hp as <-. exists h1, h2, t.
      split; [done|]. split.
      { apply HasPrefix_byte in HA as [A' HA']. rewrite HA' in H1.
        destruct z; [done|]. cbn [takeS] in H1.
        apply (unescape_plain_inv "[" _ _ _ eq_refl eq_refl) in H1 as (_ & q & _ & ->).
        apply HasPrefix_byte. eauto. }
      split; [by apply unescape_host_bytes in H1|].
      split; [by apply (unescape_host_no_pct _ _ H1)|].
      split.
      { right. apply HasPrefix_pct25_inv in Hz1 as [Z' HZ]. rewrite HZ in H2.
        apply unescape_pct_inv in H2 as (_ & _ & _ & q & _ & ->).
        rewrite (decodeEscape_25 "2" "5" eq_refl). apply HasPrefix_byte. eauto. }
      split; [by apply unescape_zone_bytes in H2|]. done.
    + rewrite Hr in Hp. fold A in Hp.
      apply unescape_split in Hp as (a & b & Ha & Hb' & ->); [|done|done].
      rewrite Hu3 in Hb'. injection Hb' as <-.
      exists a, "", t. rewrite sapp_nil_l.
      split; [done|]. split.
      { apply HasPrefix_byte in HA as [A' HA']. rewrite HA' in Ha.
        apply (unescape_plain_inv "[" _ _ _ eq_refl eq_refl) in Ha as (_ & q & _ & ->).
        apply HasPrefix_byte. eauto. }
      split; [by apply unescape_host_bytes in Ha|].
      split; [by apply (unescape_host_no_pct _ _ Ha)|].
      split; [by left|]. done.
  - intros Hp Hne. left.
    assert (Hu : unescape r encodeHost = Some h).
    { destruct (LastIndexByte r ":"); [|done].
      by destruct (negb (validOptionalPort (dropS n r))). }
    split.
    { destruct r as [|c r']; [cbn in Hu; congruence|].
      destruct (unescape_host_first _ _ _ Hu) as (d & q & -> & Hd).
      cbn [HasPrefix]. destruct (Ascii.eqb "[" d) eqn:E; [|done].
      apply Ascii.eqb_eq in E. subst d. exfalso.
      destruct Hd as [<-|[Hd|Hd]]; [|discriminate|discriminate].
      cbn [HasPrefix] in Hb. rewrite Ascii.eqb_refl in Hb. by destruct r'. }
    split; [by apply unescape_host_bytes in Hu|].
    destruct (LastIndexByte r ":") as [i|] eqn:Hi.
    + destruct (LastIndexByte_Some _ _ _ Hi) as (t & Hr & Ht & Hlen & Hd).
      rewrite Hd in Hp. destruct (validOptionalPort (String ":" t)) eqn:Hport; [|discriminate].
      rewrite Hr in Hu.
      apply unescape_split in Hu as (a & b & Ha & Hb' & ->); [|done|done].
      apply validOptionalPort_inv in Hport as [?|(d & [= <-] & Hdig)]; [discriminate|].
      rewrite unescape_plain' in Hb' by done. rewrite (unescape_digits t encodeHost Hdig) in Hb'.
      injection Hb' as <-. exists a, (String ":" t). split; [done|]. right. eauto.
    + exists h, "". rewrite sapp_nil_r. split; [done|]. left. split; [done|].
      apply LastIndexByte_None in Hi. by apply (unescape_host_noByte ":" _ _ Hu).
Qed.

End ParseHost.

Section ParseHostRoundTrip.

(** A byte that is absent from a text is absent from its escaped form,
    unless escapes are written with it. *)
Lemma escape_keeps_noByte c s mode :
  noByte c s → inBytes c upperhex = false → c ≠ "%"%char → c ≠ "+"%char →
  noByte c (escape s mode).
Proof.
  intros Hs Hhex Hpct Hplus. induction s as [|a s IH]; [done|].
  apply noByte_cons in Hs as [Ha Hs]. specialize (IH Hs). rewrite escape_cons.
  destruct (shouldEscape a mode).
  - destruct (Ascii.eqb a " " && encoding_eqb mode encodeQueryComponent).
    + apply noByte_cons. split; [congruence|done].
    + destruct (hex_digits a) as (_ & _ & _ & H4 & H5).
      fold (hexHi a) (hexLo a).
      apply noByte_cons. split; [congruence|].
      apply noByte_cons. split; [intros E; rewrite E in H4; congruence|].
      apply noByte_cons. split; [intros E; rewrite E in H5; congruence|]. done.
  - apply noByte_cons. done.
Qed.

Lemma escape_host_first c h :
  c ≠ "["%char →
  HasPrefix (escape (String c h) encodeHost) "[" = false.
Proof.
  intros Hc. rewrite escape_cons. destruct (shouldEscape c encodeHost).
  - cbn [encoding_eqb andb]. rewrite andb_false_r. reflexivity.
  - cbn [HasPrefix]. destruct (Ascii.eqb "[" c) eqn:E; [|done].
    apply Ascii.eqb_eq in E. congruence.
Qed.

Lemma escape_bracket_first h :
  HasPrefix h "[" = true → HasPrefix (escape h encodeHost) "[" = true.
Proof.
  intros [t ->]%HasPrefix_byte. rewrite escape_cons. cbn. apply HasPrefix_byte. eauto.
Qed.

Lemma allS_hostOK_plain_first h :
  HasPrefix h "[" = false → h ≠ "" → ∃ c t, h = String c t ∧ c ≠ "["%char.
Proof.
  destruct h as [|c t]; [done|]. intros Hp _. exists c, t. split; [done|].
  intros ->. cbn [HasPrefix] in Hp. by destruct t.
Qed.

(** The host that [String] writes is parsed into the same host; the zone of
    an address in brackets must be ASCII for that. *)
Lemma parseHost_escape h :
  plainHost h ∨ bracketHost h → h ≠ "" → bracketedZoneASCII h = true →
  parseHost (escape h encodeHost) = Some h.
Proof.
  intros [(Hb & Hok & name & port & -> & Hport)|
          (addr & zone & port & -> & Hb & Hok & Hpct & Hz & Hzok & Hport)] Hne Hzone.
  - unfold parseHost.
    destruct (allS_hostOK_plain_first _ Hb Hne) as (c & t & Heq & Hc).
    rewrite Heq, (escape_host_first c t Hc), <- Heq.
    rewrite escape_app.
    destruct Hport as [[-> Hname]|(digits & -> & Hdig)].
    + rewrite sapp_nil_r in *. cbn [escape]. rewrite sapp_nil_r.
      assert (Hno : noByte ":" (escape name encodeHost))
        by (by apply escape_keeps_noByte).
      apply LastIndexByte_None in Hno. rewrite Hno.
      by apply unescape_escape_host.
    + rewrite escape_cons. cbn [shouldEscape]. 
      change (shouldEscape ":" encodeHost) with false. cbv iota.
      rewrite (escape_digits digits encodeHost Hdig).
      rewrite (LastIndexByte_app ":" _ digits) by (by apply digits_noByte).
      rewrite dropS_app. cbn [validOptionalPort]. rewrite Ascii.eqb_refl.
      change (allS (λ b, (48 <=? byteZ b) && (byteZ b <=? 57)) digits)
        with (allS isDigitByte digits). rewrite Hdig. cbn [andb negb].
      rewrite <- (escape_digits digits encodeHost Hdig) at 1.
      change (String ":" (escape digits encodeHost))
        with (escape (String ":" digits) encodeHost).
      rewrite <- escape_app. by apply unescape_escape_host.
  - destruct (port_text port Hport) as (Hu3 & He3 & Hno3 & Hok3 & Hascii3).
    destruct (bracket_port_text port Hport) as [Hub Heb].
    assert (Hfirst : ∀ Y, HasPrefix (escape addr encodeHost +:+ Y) "[" = true).
    { intros Y. apply escape_bracket_first in Hb. apply HasPrefix_byte in Hb as [q ->].
      rewrite sapp_cons. apply HasPrefix_byte. eauto. }
    destruct Hz as [->|Hzp].
    + rewrite sapp_nil_l in *.
      assert (Hfinal : unescape (escape addr encodeHost +:+ String "]" port) encodeHost
                       = Some (addr +:+ String "]" port)).
      { rewrite <- Heb at 1. rewrite <- escape_app. apply unescape_escape_host.
        rewrite allS_app, Hok. cbn [allS andb]. by rewrite Hok3. }
      unfold parseHost. rewrite escape_app, Heb, Hfirst.
      rewrite (LastIndexByte_app "]" _ port Hno3).
      rewrite (dropS_S _ _ "]" port) by apply dropS_app.
      rewrite Hport. cbn [negb]. rewrite takeS_app.
      rewrite <- (sapp_nil_r (escape addr encodeHost)) at 1.
      rewrite (Index_pct25_after_escape addr encodeHost "" Hpct). cbn [Index HasPrefix].
      exact Hfinal.
    + apply HasPrefix_byte in Hzp as [z' ->].
      assert (Hzasc : allS zoneASCIIOK (String "%" z') = true).
      { assert (Hasc : allS isASCIIByte (String "%" z') = true).
        { unfold bracketedZoneASCII in Hzone.
          apply HasPrefix_byte in Hb as [q Hq].
          assert (HasPrefix (addr +:+ String "%" z' +:+ String "]" port) "[" = true) as Hp.
          { rewrite Hq, sapp_cons. apply HasPrefix_byte. eauto. }
          rewrite Hp in Hzone.
          change ((String "%" z') +:+ String "]" port)
            with (String "%" (z' +:+ String "]" port)) in Hzone.
          rewrite (IndexByte_app "%" addr _ Hpct), dropS_app in Hzone.
          change (String "%" (z' +:+ String "]" port))
            with ((String "%" z') +:+ String "]" port) in Hzone.
          rewrite allS_app in Hzone. by apply andb_true_iff in Hzone as [? _]. }
        clear -Hzok Hasc. revert Hzok Hasc. generalize (String "%" z') as s.
        induction s as [|c s IH]; [done|]. cbn [allS]. rewrite !andb_true_iff.
        intros [H1 H2] [H3 H4]. split; [by apply zoneOK_ASCII|by apply IH]. }
      set (Z := escape (String "%" z') encodeHost) in *.
      assert (HZ : Index Z "%25" = Some O).
      { subst Z. change (escape (String "%" z') encodeHost)
          with (String "%" (String "2" (String "5" (escape z' encodeHost)))).
        cbn [Index]. by rewrite HasPrefix_pct25_escape. }
      unfold parseHost. rewrite !escape_app, Heb. fold Z. rewrite Hfirst.
      rewrite <- sapp_assoc.
      rewrite (LastIndexByte_app "]" _ port Hno3).
      rewrite (dropS_S _ _ "]" port) by apply dropS_app.
      rewrite Hport. cbn [negb]. rewrite takeS_app.
      rewrite (Index_pct25_after_escape addr encodeHost Z Hpct), HZ, Nat.add_0_r.
      rewrite sapp_assoc, takeS_app, (unescape_escape_host addr Hok).
      replace (String.length (escape addr encodeHost +:+ Z)
               - String.length (escape addr encodeHost))%nat
        with (String.length Z) by (rewrite slength_app; lia).
      rewrite dropS_app, takeS_app. subst Z. rewrite (unescape_escape_zone _ Hzasc).
      rewrite <- sapp_assoc, dropS_app, Hub. reflexivity.
Qed.

End ParseHostRoundTrip.

(** ** Authorities *)

Section Authority.

Lemma userinfo_byte_valid c :
  escapeOutput encodeUserPassword c = true →
  isAlnum (byteZ c) || inBytes c "-._:~!$&'()*+,;=%@" = true.
Proof.
  destruct c as [[] [] [] [] [] [] [] []]; vm_compute; intros; try discriminate; reflexivity.
Qed.

Lemma validUserinfo_escape s : validUserinfo (escape s encodeUserPassword) = true.
Proof.
  unfold validUserinfo. eapply allS_impl; [|apply escape_output].
  apply userinfo_byte_valid.
Qed.

Lemma validUserinfo_String ui : validUserinfo (Userinfo_String ui) = true.
Proof.
  unfold Userinfo_String. destruct (passwordSet ui).
  - unfold validUserinfo. rewrite allS_app. fold (validUserinfo (escape (username ui) encodeUserPassword)).
    rewrite validUserinfo_escape. change (":" +:+ escape (password ui) encodeUserPassword)
      with (String ":" (escape (password ui) encodeUserPassword)).
    cbn [allS]. fold (validUserinfo (escape (password ui) encodeUserPassword)).
    by rewrite validUserinfo_escape.
  - unfold validUserinfo. rewrite allS_app.
    fold (validUserinfo (escape (username ui) encodeUserPassword)).
    by rewrite validUserinfo_escape.
Qed.

Lemma Userinfo_String_no_at ui : noByte "@" (Userinfo_String ui).
Proof.
  unfold Userinfo_String. apply noByte_app; [by apply escape_noByte|].
  destruct (passwordSet ui); [|done].
  change (":" +:+ escape (password ui) encodeUserPassword)
    with (String ":" (escape (password ui) encodeUserPassword)).
  apply noByte_cons. split; [done|]. by apply escape_noByte.
Qed.

(** What [parseAuthority] returns. *)
Lemma parseAuthority_shape authority user h :
  parseAuthority authority = Some (user, h) →
  (∃ r, parseHost r = Some h) ∧ userinfoWF user.
Proof.
  unfold parseAuthority, userinfoWF.
  destruct (LastIndexByte authority "@") as [i|].
  - destruct (parseHost (dropS (S i) authority)) as [host|] eqn:Hh; [|discriminate].
    destruct (validUserinfo (takeS i authority)); [|discriminate]. cbn [negb].
    destruct (inBytes ":" (takeS i authority)); cbn [negb].
    + destruct (Cut (takeS i authority) ":") as [[name pass] found].
      destruct (unescape name encodeUserPassword); [|discriminate].
      destruct (unescape pass encodeUserPassword); [|discriminate].
      intros [= <- <-]. split; [eauto|]. intros ui [= <-]. discriminate.
    + destruct (unescape (takeS i authority) encodeUserPassword); [|discriminate].
      intros [= <- <-]. split; [eauto|]. by intros ui [= <-].
  - destruct (parseHost authority) as [host|] eqn:Hh; [|discriminate].
    intros [= <- <-]. split; [eauto|]. by intros ui.
Qed.

(** The authority that [String] writes is parsed into the same user
    information and host. *)
Lemma parseAuthority_text user h :
  userinfoWF user → parseHost (escape h encodeHost) = Some h →
  parseAuthority (authorityText user h) = Some (user, h).
Proof.
  intros Hwf Hhost.
  assert (Hat : noByte "@" (escape h encodeHost)) by (by apply escape_noByte).
  unfold parseAuthority, authorityText. destruct user as [ui|].
  - rewrite (LastIndexByte_app "@" _ _ Hat).
    rewrite (dropS_S _ _ "@" (escape h encodeHost)) by apply dropS_app.
    rewrite Hhost, takeS_app, validUserinfo_String. cbn [negb].
    specialize (Hwf ui eq_refl). destruct ui as [name pass pset].
    unfold Userinfo_String. cbn [username password passwordSet] in *.
    assert (Hcolon : noByte ":" (escape name encodeUserPassword))
      by (by apply escape_noByte).
    destruct pset.
    + change (":" +:+ escape pass encodeUserPassword)
        with (String ":" (escape pass encodeUserPassword)).
      unfold inBytes. rewrite (IndexByte_app ":" _ _ Hcolon). cbn [negb].
      rewrite (Cut_app ":" _ _ Hcolon), !unescape_escape by done. done.
    + rewrite sapp_nil_r. apply inBytes_false in Hcolon. rewrite Hcolon. cbn [negb].
      rewrite unescape_escape by done. by rewrite Hwf.
  - apply LastIndexByte_None in Hat. by rewrite Hat, Hhost.
Qed.

Lemma authorityText_noByte c user h :
  escapeOutput encodeUserPassword c = false → escapeOutput encodeHost c = false →
  c ≠ ":"%char → c ≠ "@"%char → noByte c (authorityText user h).
Proof.
  intros H1 H2 H3 H4. unfold authorityText. destruct user as [ui|].
  - apply noByte_app.
    + unfold Userinfo_String. apply noByte_app; [by apply escape_noByte|].
      destruct (passwordSet ui); [|done].
      change (":" +:+ escape (password ui) encodeUserPassword)
        with (String ":" (escape (password ui) encodeUserPassword)).
      apply noByte_cons. split; [done|]. by apply escape_noByte.
    + apply noByte_cons. split; [done|]. by apply escape_noByte.
  - by apply escape_noByte.
Qed.

End Authority.

(** ** Schemes *)

Section Scheme.
Context `{UnicodeCase}.

Lemma stringContainsCTLByte_false s : stringContainsCTLByte s = false ↔ noCTL s.
Proof. unfold stringContainsCTLByte, noCTL. by rewrite negb_false_iff. Qed.

Lemma schemeText_snoc s c : schemeText s → schemeByte c = true → schemeText (s +:+ String c "").
Proof.
  intros (a & t & -> & Ha & Ht) Hc. exists a, (t +:+ String c "").
  split; [by rewrite sapp_cons|]. split; [done|].
  rewrite allS_app, Ht. cbn [allS]. by rewrite Hc.
Qed.

Lemma getSchemeFrom_inv s : ∀ pre sch rest,
  pre = "" ∨ schemeText pre →
  getSchemeFrom (pre +:+ s) s (String.length pre) = Some (sch, rest) →
  sch ≠ "" → schemeText sch ∧ pre +:+ s = sch +:+ String ":" rest.
Proof.
  induction s as [|c t IH]; intros pre sch rest Hpre; cbn [getSchemeFrom]; cbv zeta.
  - intros [= <- _]. done.
  - assert (Hstep : schemeByte c = true → (pre = "" → isLetterByte c = true) →
              getSchemeFrom (pre +:+ String c t) t (S (String.length pre)) = Some (sch, rest) →
              sch ≠ "" → schemeText sch ∧ pre +:+ String c t = sch +:+ String ":" rest).
    { intros Hc Hfirst Hg Hne.
      replace (pre +:+ String c t) with ((pre +:+ String c "") +:+ t) in *
        by (by rewrite sapp_assoc).
      replace (S (String.length pre)) with (String.length (pre +:+ String c "")) in Hg
        by (rewrite slength_app; cbn; lia).
      apply (IH _ _ _) in Hg; [done| |done]. right.
      destruct Hpre as [->|Hpre]; [|by apply schemeText_snoc].
      exists c, "". rewrite sapp_nil_l. split; [done|]. split; [by apply Hfirst|done]. }
    change (isLowerASCII (byteZ c) || isUpperASCII (byteZ c)) with (isLetterByte c).
    change ((48 <=? byteZ c) && (byteZ c <=? 57)) with (isDigitByte c).
    destruct (isLetterByte c) eqn:Hl.
    { apply Hstep; [unfold schemeByte; by rewrite Hl|done]. }
    destruct (isDigitByte c || inBytes c "+-.") eqn:Hd.
    { destruct (String.length pre =? 0)%nat eqn:Hi; [by intros [= <- _]|].
      apply Hstep; [unfold schemeByte; rewrite Hl; exact Hd|].
      intros ->. cbn in Hi. discriminate. }
    destruct (Ascii.eqb c ":") eqn:Hcolon; [|by intros [= <- _]].
    apply Ascii.eqb_eq in Hcolon. subst c.
    destruct (String.length pre =? 0)%nat eqn:Hi; [discriminate|].
    rewrite takeS_app. intros [= <- <-] _. split; [|done].
    destruct Hpre as [->|Hpre]; [cbn in Hi; discriminate|done].
Qed.

Lemma getScheme_inv raw sch rest :
  getScheme raw = Some (sch, rest) → sch ≠ "" →
  schemeText sch ∧ raw = sch +:+ String ":" rest.
Proof.
  intros Hg Hne. apply (getSchemeFrom_inv raw "" sch rest); [by left|exact Hg|exact Hne].
Qed.

Lemma schemeByte_not_sep c :
  schemeByte c = true →
  Ascii.eqb c ":" = false ∧ notCTL c = true ∧ Ascii.eqb c "#" = false
  ∧ Ascii.eqb c "?" = false ∧ isASCIIByte c = true ∧ Ascii.eqb c "*" = false.
Proof.
  destruct c as [[] [] [] [] [] [] [] []]; vm_compute; intros; try discriminate; done.
Qed.

Lemma getSchemeFrom_text s : ∀ pre rest,
  allS schemeByte s = true →
  (pre ≠ "" ∨ ∃ c t, s = String c t ∧ isLetterByte c = true) →
  getSchemeFrom (pre +:+ s +:+ String ":" rest) (s +:+ String ":" rest) (String.length pre)
  = Some (pre +:+ s, rest).
Proof.
  induction s as [|c t IH]; intros pre rest Hs Hpre.
  - rewrite sapp_nil_l, sapp_nil_r. cbn [getSchemeFrom]. cbv zeta.
    change (isLowerASCII (byteZ ":") || isUpperASCII (byteZ ":")) with false.
    change (((48 <=? byteZ ":") && (byteZ ":" <=? 57)) || inBytes ":" "+-.") with false.
    change (Ascii.eqb ":" ":") with true. cbv iota.
    destruct Hpre as [Hpre|(c & t & ? & _)]; [|discriminate].
    destruct pre as [|p pre]; [done|]. cbn [String.length Nat.eqb].
    change (S (String.length pre)) with (String.length (String p pre)).
    by rewrite takeS_app.
  - cbn [allS] in Hs. apply andb_true_iff in Hs as [Hc Hs].
    rewrite sapp_cons. cbn [getSchemeFrom]. cbv zeta.
    change (isLowerASCII (byteZ c) || isUpperASCII (byteZ c)) with (isLetterByte c).
    change ((48 <=? byteZ c) && (byteZ c <=? 57)) with (isDigitByte c).
    assert (Hrec : getSchemeFrom (pre +:+ String c (t +:+ String ":" rest))
                     (t +:+ String ":" rest) (S (String.length pre))
                   = Some (pre +:+ String c t, rest)).
    { replace (pre +:+ String c (t +:+ String ":" rest))
        with ((pre +:+ String c "") +:+ t +:+ String ":" rest)
        by (by rewrite sapp_assoc).
      replace (S (String.length pre)) with (String.length (pre +:+ String c ""))
        by (rewrite slength_app; cbn; lia).
      rewrite IH; [by rewrite sapp_assoc|done|].
      left. by destruct pre. }
    destruct (isLetterByte c) eqn:Hl; [exact Hrec|].
    unfold schemeByte in Hc. rewrite Hl in Hc. cbn [orb] in Hc. rewrite Hc.
    destruct Hpre as [Hpre|(c' & t' & [= <- <-] & Hl')]; [|congruence].
    destruct pre as [|p pre]; [done|]. cbn [String.length Nat.eqb]. exact Hrec.
Qed.

Lemma getScheme_text s rest :
  schemeText s → getScheme (s +:+ String ":" rest) = Some (s, rest).
Proof.
  intros (c & t & -> & Hc & Ht). unfold getScheme.
  apply (getSchemeFrom_text (String c t) "" rest).
  - cbn [allS]. unfold schemeByte at 1. by rewrite Hc, Ht.
  - right. eauto.
Qed.

Lemma lowerByte_scheme c :
  schemeByte c = true →
  schemeByte (lowerByte c) = true ∧ isUpperASCII (byteZ (lowerByte c)) = false
  ∧ (isLetterByte c = true → isLetterByte (lowerByte c) = true).
Proof.
  destruct c as [[] [] [] [] [] [] [] []]; vm_compute; intros; try discriminate; done.
Qed.

Lemma lowerByte_id c : isUpperASCII (byteZ c) = false → lowerByte c = c.
Proof. intros Hc. unfold lowerByte. by rewrite Hc. Qed.

Lemma mapS_lowerByte_id s :
  allS (λ c, negb (isUpperASCII (byteZ c))) s = true → mapS lowerByte s = s.
Proof.
  induction s as [|c s IH]; [done|]. cbn [allS mapS]. rewrite andb_true_iff, negb_true_iff.
  intros [Hc Hs]. by rewrite (lowerByte_id c Hc), IH.
Qed.

Lemma schemeBytes_ASCII s : allS schemeByte s = true → isASCII s = true.
Proof.
  unfold isASCII. apply allS_impl. intros c Hc.
  by destruct (schemeByte_not_sep c Hc) as (_ & _ & _ & _ & ? & _).
Qed.

Lemma schemeText_bytes s : schemeText s → allS schemeByte s = true.
Proof.
  intros (c & t & -> & Hc & Ht). cbn [allS]. unfold schemeByte at 1. by rewrite Hc, Ht.
Qed.

Lemma mapS_lowerByte_scheme s :
  allS schemeByte s = true →
  allS schemeByte (mapS lowerByte s) = true
  ∧ allS (λ c, negb (isUpperASCII (byteZ c))) (mapS lowerByte s) = true.
Proof.
  induction s as [|a s IH]; [done|]. cbn [allS mapS]. rewrite !andb_true_iff.
  intros [Ha Hs]. destruct (IH Hs) as [IH1 IH2].
  destruct (lowerByte_scheme a Ha) as (H1 & H2 & _).
  rewrite negb_true_iff. done.
Qed.

(** [Parse] stores the scheme in lower case. *)
Lemma ToLower_scheme s : schemeText s → lowerSchemeText (ToLower s).
Proof.
  intros Hs. pose proof (schemeText_bytes s Hs) as Hb.
  assert (ToLower s = mapS lowerByte s) as ->
    by (unfold ToLower; by rewrite (schemeBytes_ASCII s Hb)).
  destruct (mapS_lowerByte_scheme s Hb) as [H1 H2]. split; [|exact H2].
  destruct Hs as (c & t & -> & Hc & Ht). cbn [mapS allS] in *.
  exists (lowerByte c), (mapS lowerByte t). split; [done|].
  assert (Hsc : schemeByte c = true) by (unfold schemeByte; by rewrite Hc).
  split; [by apply lowerByte_scheme|]. by apply andb_true_iff in H1 as [_ ?].
Qed.

Lemma ToLower_lowerScheme s : lowerSchemeText s → ToLower s = s.
Proof.
  intros [Hs Hl]. unfold ToLower.
  rewrite (schemeBytes_ASCII s (schemeText_bytes s Hs)). cbv iota.
  by apply mapS_lowerByte_id.
Qed.

Lemma schemeText_allS (p : ascii → bool) s :
  (∀ c, schemeByte c = true → p c = true) → schemeText s → allS p s = true.
Proof.
  intros Hp Hs. eapply allS_impl; [exact Hp|]. by apply schemeText_bytes.
Qed.

End Scheme.

(** ** Paths *)

Section Paths.

Lemma escapeOutput_notCTL mode c : escapeOutput mode c = true → notCTL c = true.
Proof.
  destruct c as [[] [] [] [] [] [] [] []], mode; vm_compute; intros; try discriminate; done.
Qed.

Lemma escape_noCTL s mode : noCTL (escape s mode).
Proof.
  unfold noCTL. eapply allS_impl; [|apply escape_output]. apply escapeOutput_notCTL.
Qed.

Lemma noCTL_app s t : noCTL s → noCTL t → noCTL (s +:+ t).
Proof. unfold noCTL. rewrite allS_app. by intros -> ->. Qed.

Lemma escape_path_first p :
  HasPrefix p "/" = true → HasPrefix (escape p encodePath) "/" = true.
Proof.
  intros [t ->]%HasPrefix_byte. rewrite escape_cons. apply HasPrefix_byte. eauto.
Qed.

Lemma takeS_first n p :
  HasPrefix p "/" = true → takeS n p = "" ∨ HasPrefix (takeS n p) "/" = true.
Proof.
  intros [t ->]%HasPrefix_byte. destruct n; [by left|]. right. cbn [takeS].
  apply HasPrefix_byte. eauto.
Qed.

Lemma TrimSuffix_first p :
  p = "" ∨ HasPrefix p "/" = true →
  TrimSuffix p "/" = "" ∨ HasPrefix (TrimSuffix p "/") "/" = true.
Proof.
  intros [->|Hp]; [by left|]. unfold TrimSuffix.
  destruct (HasSuffix p "/"); [by apply takeS_first|by right].
Qed.

Lemma absolute_not_star p : p = "" ∨ HasPrefix p "/" = true → String.eqb p "*" = false.
Proof.
  intros [->|[t ->]%HasPrefix_byte]; [done|]. reflexivity.
Qed.

Lemma unescape_path_first r p :
  unescape r encodePath = Some p → r = "" ∨ HasPrefix r "/" = true →
  p = "" ∨ HasPrefix p "/" = true.
Proof.
  intros Hu [->|[t ->]%HasPrefix_byte].
  - cbn in Hu. injection Hu as <-. by left.
  - apply (unescape_plain_inv "/" _ _ _ eq_refl eq_refl) in Hu as (_ & q & _ & ->).
    right. apply HasPrefix_byte. eauto.
Qed.

(** The escaped path of a URL is parsed into its path, and written the same
    way again. *)
Lemma EscapedPath_round_trip (v : URL) :
  pathWF v →
  (EscapedPath v = "" ∨ HasPrefix (EscapedPath v) "/" = true)
  ∧ noByte "?" (EscapedPath v) ∧ noByte "#" (EscapedPath v) ∧ noCTL (EscapedPath v)
  ∧ ∃ rp, setPath (EscapedPath v) = Some (Path v, rp)
          ∧ ∀ w, Path w = Path v → RawPath w = rp → EscapedPath w = EscapedPath v.
Proof.
  intros [Hp Hr].
  destruct (negb (isEmpty (RawPath v)) && validEncoded (RawPath v) encodePath
            && match unescape (RawPath v) encodePath with
               | Some p => String.eqb p (Path v)
               | None => false
               end) eqn:Hc.
  - assert (EscapedPath v = RawPath v) as -> by (unfold EscapedPath; by rewrite Hc).
    apply andb_true_iff in Hc as [[Hne Hve]%andb_true_iff Hu].
    apply negb_true_iff, isEmpty_false in Hne.
    destruct (unescape (RawPath v) encodePath) as [p|] eqn:Hup; [|discriminate].
    apply String.eqb_eq in Hu. subst p.
    destruct (Hr Hne) as (H1 & H2 & H3 & H4).
    split; [by right|]. split; [done|]. split; [done|]. split; [done|].
    unfold setPath. rewrite Hup. eexists. split; [reflexivity|].
    intros w Hw1 Hw2. unfold EscapedPath. rewrite Hw1, Hw2.
    destruct (String.eqb (RawPath v) (escape (Path v) encodePath)) eqn:He.
    + cbn [isEmpty negb andb]. rewrite (absolute_not_star _ Hp).
      apply String.eqb_eq in He. by rewrite He.
    + assert (isEmpty (RawPath v) = false) as -> by (by apply isEmpty_false).
      cbn [negb andb]. by rewrite Hve, Hup, String.eqb_refl.
  - assert (EscapedPath v = escape (Path v) encodePath) as ->.
    { unfold EscapedPath. by rewrite Hc, (absolute_not_star _ Hp). }
    split.
    { destruct Hp as [->|Hp]; [by left|right; by apply escape_path_first]. }
    split; [by apply escape_noByte|]. split; [by apply escape_noByte|].
    split; [apply escape_noCTL|].
    unfold setPath. rewrite unescape_escape by done. exists "".
    rewrite String.eqb_refl. split; [done|].
    intros w Hw1 Hw2. unfold EscapedPath. rewrite Hw1, Hw2. cbn [isEmpty negb andb].
    by rewrite (absolute_not_star _ Hp).
Qed.

Lemma Count_app s t c : Count (s +:+ t) c = Count s c + Count t c.
Proof.
  induction s as [|a s IH]; [done|]. rewrite sapp_cons. cbn [Count]. rewrite IH. lia.
Qed.

Lemma Count_nonneg s c : 0 <= Count s c.
Proof. induction s as [|a s IH]; cbn [Count]; [lia|]. destruct (Ascii.eqb a c); lia. Qed.

Lemma Count_0 s c : Count s c = 0 ↔ noByte c s.
Proof.
  induction s as [|a s IH]; [done|]. rewrite noByte_cons, <- IH. cbn [Count].
  pose proof (Count_nonneg s c). destruct (Ascii.eqb a c) eqn:E.
  - apply Ascii.eqb_eq in E. split; [lia|]. intros [? _]. done.
  - apply Ascii.eqb_neq in E. split; [intros; split; [done|lia]|intros [_ ?]; lia].
Qed.

Lemma HasSuffix_byte_inv s c :
  HasSuffix s (String c "") = true →
  s = takeS (String.length s - 1) s +:+ String c "".
Proof.
  unfold HasSuffix. cbn [String.length]. rewrite andb_true_iff.
  intros [_ He%String.eqb_eq].
  rewrite <- (takeS_dropS (String.length s - 1) s) at 1. by rewrite He.
Qed.

Lemma Cut_fst s c : ∃ n, (Cut s c).1.1 = takeS n s ∧ noByte c (Cut s c).1.1.
Proof.
  unfold Cut. destruct (IndexByte s c) as [i|] eqn:Hi.
  - destruct (IndexByte_Some _ _ _ Hi) as (t & _ & Hno & _). exists i. done.
  - exists (String.length s). cbn [fst]. rewrite takeS_all.
    split; [done|]. by apply IndexByte_None.
Qed.

End Paths.

(** ** What [Parse] returns for a URL with a scheme and a host *)

Section ParseInversion.
Context `{UnicodeCase}.

Lemma ToLower_empty_inv s : ToLower s ≠ "" → s ≠ "".
Proof. intros Hs ->. by apply Hs. Qed.

Lemma splitQuery_inv rest0 :
  ∃ rest rq fq n,
    (if HasSuffix rest0 "?" && (Count rest0 "?" =? 1)
     then (takeS (String.length rest0 - 1) rest0, EmptyString, true)
     else let '(before, after, _) := Cut rest0 "?" in (before, after, false))
    = (rest, rq, fq)
    ∧ rest = takeS n rest0 ∧ noByte "?" rest.
Proof.
  destruct (HasSuffix rest0 "?" && (Count rest0 "?" =? 1)) eqn:Hq.
  - apply andb_true_iff in Hq as [Hs Hc%Z.eqb_eq].
    do 4 eexists. split; [reflexivity|]. split; [reflexivity|].
    apply HasSuffix_byte_inv in Hs. rewrite Hs, Count_app in Hc.
    cbn [Count] in Hc. rewrite Ascii.eqb_refl in Hc.
    apply Count_0. lia.
  - destruct (Cut_fst rest0 "?") as (n & Hn & Hno).
    destruct (Cut rest0 "?") as [[before after] found]. cbn [fst] in Hn, Hno.
    do 4 eexists. split; [reflexivity|]. split; [exact Hn|exact Hno].
Qed.

Lemma parse_inv p url :
  parse p = Some url → Scheme url ≠ "" → Host url ≠ "" → noByte "#" p →
  hierarchical url.
Proof.
  unfold parse. destruct (stringContainsCTLByte p) eqn:Hctl; [discriminate|].
  apply stringContainsCTLByte_false in Hctl.
  destruct (String.eqb p "*"); [intros [= <-] _ Hh; by destruct Hh|].
  destruct (getScheme p) as [[sch0 rest0]|] eqn:Hg; [|discriminate].
  cbv zeta.
  destruct (splitQuery_inv rest0) as (rest & rq & fq & n & -> & Hrest & Hq).
  destruct (negb (HasPrefix rest "/") && negb (isEmpty (ToLower sch0)));
    [intros [= <-] _ Hh; by destruct Hh|].
  destruct (negb (HasPrefix rest "/") && inBytes ":" (Cut rest "/").1.1); [discriminate|].
  destruct ((negb (isEmpty (ToLower sch0)) || negb (HasPrefix rest "///"))
            && HasPrefix rest "//") eqn:Hauth;
    [|destruct (setPath rest) as [[path rawPath]|]; [|discriminate];
      intros [= <-] _ Hh; by destruct Hh].
  intros Hp Hsch Hhost Hhash.
  assert (Hrest1 : ∃ authority rest1,
             match IndexByte (dropS 2 rest) "/" with
             | Some i => (takeS i (dropS 2 rest), dropS i (dropS 2 rest))
             | None => (dropS 2 rest, "")
             end = (authority, rest1)
             ∧ (rest1 = "" ∨ HasPrefix rest1 "/" = true)
             ∧ ∀ P, allS P rest = true → allS P rest1 = true).
  { destruct (IndexByte (dropS 2 rest) "/") as [i|] eqn:Hi.
    - do 2 eexists. split; [reflexivity|].
      destruct (IndexByte_Some _ _ _ Hi) as (t & _ & _ & Ht & _).
      split; [right; apply HasPrefix_byte; eauto|].
      intros P HP. by do 2 apply allS_dropS.
    - do 2 eexists. split; [reflexivity|]. split; [by left|]. done. }
  destruct Hrest1 as (authority & rest1 & Heq & Hfirst & Hall).
  rewrite Heq in Hp.
  destruct (parseAuthority authority) as [[user host]|] eqn:Hpa; [|discriminate].
  destruct (setPath rest1) as [[path rawPath]|] eqn:Hsp; [|discriminate].
  injection Hp as <-. cbn [Scheme] in Hsch.
  apply ToLower_empty_inv in Hsch.
  destruct (getScheme_inv _ _ _ Hg Hsch) as [Hst ->].
  assert (Hrest0 : noByte "#" rest0 ∧ noCTL rest0).
  { unfold noByte, noCTL in *. rewrite allS_app in Hhash, Hctl.
    apply andb_true_iff in Hhash as [_ Hhash]. apply andb_true_iff in Hctl as [_ Hctl].
    cbn [allS] in Hhash, Hctl. apply andb_true_iff in Hhash as [_ Hhash].
    apply andb_true_iff in Hctl as [_ Hctl]. done. }
  destruct Hrest0 as [Hh0 Hc0].
  pose proof (Hall _ Hq) as Hq1.
  assert (Hh1 : noByte "#" rest1) by (apply Hall; subst rest; by apply allS_takeS).
  assert (Hc1 : noCTL rest1) by (apply Hall; subst rest; by apply allS_takeS).
  unfold hierarchical, pathWF. cbn.
  split; [by apply ToLower_scheme|]. split; [done|]. split; [eauto|].
  unfold setPath in Hsp.
  destruct (unescape rest1 encodePath) as [path'|] eqn:Hu; [|discriminate].
  injection Hsp as <- <-.
  split; [by eapply unescape_path_first|].
  destruct (String.eqb rest1 (escape path' encodePath)); [done|].
  intros Hne. destruct Hfirst as [->|Hfirst]; [done|]. done.
Qed.

Lemma Parse_inv raw u : validURL raw u → hierarchical u.
Proof.
  intros (HP & Hsch & Hhost). unfold Parse in HP.
  destruct (Cut_fst raw "#") as (_ & _ & Hno).
  destruct (Cut raw "#") as [[p frag] found]. cbn [fst] in Hno.
  destruct (parse p) as [url|] eqn:Hp; [|discriminate].
  assert (Hsame : Scheme u = Scheme url ∧ Opaque u = Opaque url ∧ User u = User url
                  ∧ Host u = Host url ∧ Path u = Path url ∧ RawPath u = RawPath url).
  { destruct (isEmpty frag); [by injection HP as <-|].
    destruct (setFragment frag) as [[f rawf]|]; [|discriminate]. by injection HP as <-. }
  destruct Hsame as (E1 & E2 & E3 & E4 & E5 & E6).
  rewrite E1 in Hsch. rewrite E4 in Hhost.
  pose proof (parse_inv p url Hp Hsch Hhost Hno) as Hh.
  unfold hierarchical, pathWF in *. by rewrite E1, E2, E3, E4, E5, E6.
Qed.

End ParseInversion.

(** ** The text of a canonical URL *)

Section CanonicalText.
Context `{UnicodeCase}.

Lemma isEmpty_app s t : isEmpty (s +:+ t) = isEmpty s && isEmpty t.
Proof. destruct s; [by rewrite sapp_nil_l|done]. Qed.

Lemma String_canonicalText (w : URL) :
  Scheme w ≠ "" → Opaque w = "" → Host w ≠ "" → RawQuery w = "" → Fragment w = "" →
  EscapedPath w = "" ∨ HasPrefix (EscapedPath w) "/" = true →
  String_ w = canonicalText (Scheme w) (User w) (Host w) (EscapedPath w) (ForceQuery w).
Proof.
  intros Hs%isEmpty_false Ho Hh%isEmpty_false Hq Hf Hep.
  unfold String_, canonicalText, authorityText. rewrite Hs, Ho, Hh, Hq, Hf.
  cbn [isEmpty negb orb andb]. rewrite andb_false_r. cbn [andb].
  assert (negb (isEmpty (EscapedPath w)) && negb (Ascii.eqb (at_ (EscapedPath w) 0) "/")
          = false) as ->.
  { destruct Hep as [->|[t ->]%HasPrefix_byte]; reflexivity. }
  cbn [andb]. rewrite orb_false_r.
  destruct (User w) as [ui|]; cbn [orb]; rewrite ?orb_true_r, !isEmpty_app, Hs;
    cbn [andb]; destruct (ForceQuery w); rewrite ?sapp_nil_r, ?sapp_assoc;
    cbn [String.append]; rewrite ?sapp_nil_r; reflexivity.
Qed.

Lemma authorityText_noCTL user h : noCTL (authorityText user h).
Proof.
  unfold authorityText, Userinfo_String. destruct user as [ui|]; [|apply escape_noCTL].
  apply noCTL_app.
  - apply noCTL_app; [apply escape_noCTL|]. destruct (passwordSet ui); [|done].
    apply (noCTL_app ":"); [done|apply escape_noCTL].
  - apply (noCTL_app "@"); [done|apply escape_noCTL].
Qed.

Lemma canonicalText_split sch user h ep fq :
  canonicalText sch user h ep fq
  = sch +:+ String ":" (String "/" (String "/" (authorityText user h +:+ ep))
                        +:+ (if fq then "?" else "")).
Proof. unfold canonicalText. by rewrite !sapp_cons, sapp_assoc. Qed.

Lemma canonicalText_allS (p : ascii → bool) sch user h ep fq :
  schemeText sch → (∀ c, schemeByte c = true → p c = true) →
  p ":"%char = true → p "/"%char = true → (fq = true → p "?"%char = true) →
  allS p (authorityText user h) = true → allS p ep = true →
  allS p (canonicalText sch user h ep fq) = true.
Proof.
  intros Hsch Hs Hc Hsl Hq HA Hep. unfold canonicalText.
  rewrite allS_app. rewrite (schemeText_allS p sch Hs Hsch).
  cbn [allS andb]. rewrite Hc, Hsl. cbn [andb]. rewrite !allS_app, HA, Hep.
  destruct fq; [|done]. cbn [allS andb]. by rewrite Hq.
Qed.

Lemma scheme_not_star sch rest : schemeText sch → String.eqb (sch +:+ String ":" rest) "*" = false.
Proof.
  intros (c & t & -> & Hc & _). rewrite sapp_cons. cbn [String.eqb].
  destruct (Ascii.eqb c "*") eqn:E; [|done].
  apply Ascii.eqb_eq in E. subst c. discriminate.
Qed.

(** The text of a canonical URL parses into the parts it was written from. *)
Lemma Parse_canonicalText sch user h ep fq path rp :
  lowerSchemeText sch →
  parseAuthority (authorityText user h) = Some (user, h) →
  ep = "" ∨ HasPrefix ep "/" = true →
  noByte "?" ep → noByte "#" ep → noCTL ep →
  setPath ep = Some (path, rp) →
  Parse (canonicalText sch user h ep fq)
  = Some (mkURL sch "" user h path rp false fq "" "" "").
Proof.
  intros Hsch Hauth Hep Hq Hh Hc Hsp.
  pose proof (ToLower_lowerScheme sch Hsch) as Hlow. destruct Hsch as [Hsch _].
  assert (Hhash : noByte "#" (canonicalText sch user h ep fq)).
  { apply canonicalText_allS; try done.
    - intros c Hcs. by destruct (schemeByte_not_sep c Hcs) as (_ & _ & -> & _).
    - by apply authorityText_noByte. }
  assert (Hctl : noCTL (canonicalText sch user h ep fq)).
  { apply canonicalText_allS; try done.
    - intros c Hcs. by destruct (schemeByte_not_sep c Hcs) as (_ & -> & _).
    - apply authorityText_noCTL. }
  unfold Parse. rewrite (Cut_None _ _ Hhash). cbn [isEmpty].
  apply stringContainsCTLByte_false in Hctl.
  unfold parse. rewrite Hctl. rewrite canonicalText_split.
  rewrite (scheme_not_star _ _ Hsch), (getScheme_text _ _ Hsch). cbv zeta. rewrite Hlow.
  set (A := authorityText user h) in *.
  set (R := String "/" (String "/" (A +:+ ep))).
  assert (HAq : noByte "?" A) by (by apply authorityText_noByte).
  assert (HAs : noByte "/" A) by (by apply authorityText_noByte).
  assert (HRq : noByte "?" R).
  { unfold R. rewrite !noByte_cons. split; [done|]. split; [done|]. by apply noByte_app. }
  assert (Hsplit :
    (if HasSuffix (R +:+ (if fq then "?" else "")) "?"
        && (Count (R +:+ (if fq then "?" else "")) "?" =? 1)
     then (takeS (String.length (R +:+ (if fq then "?" else "")) - 1)
             (R +:+ (if fq then "?" else "")), EmptyString, true)
     else let '(before, after, _) := Cut (R +:+ (if fq then "?" else "")) "?" in
          (before, after, false))
    = (R, "", fq)).
  { apply Count_0 in HRq as HRc. destruct fq.
    - rewrite HasSuffix_app, Count_app, HRc. cbn [Count andb]. cbn [Z.eqb Z.add].
      rewrite slength_app. cbn [String.length].
      replace (String.length R + 1 - 1)%nat with (String.length R) by lia.
      by rewrite takeS_app.
    - rewrite sapp_nil_r, HRc. rewrite andb_false_r. by rewrite (Cut_None _ _ HRq). }
  rewrite Hsplit.
  assert (HasPrefix R "/" = true) as -> by (apply HasPrefix_byte; eauto).
  assert (HasPrefix R "//" = true) as -> by (unfold R; cbn; by destruct (A +:+ ep)).
  assert (isEmpty sch = false) as -> by (destruct Hsch as (c & t & -> & _); done).
  cbn [negb andb orb].
  change (dropS 2 R) with (A +:+ ep).
  assert (Hidx : match IndexByte (A +:+ ep) "/" with
                 | Some i => (takeS i (A +:+ ep), dropS i (A +:+ ep))
                 | None => (A +:+ ep, "")
                 end = (A, ep)).
  { destruct Hep as [->|[t ->]%HasPrefix_byte].
    - rewrite sapp_nil_r. apply IndexByte_None in HAs. by rewrite HAs.
    - rewrite (IndexByte_app "/" A t HAs). by rewrite takeS_app, dropS_length_app. }
  rewrite Hidx, Hauth, Hsp. reflexivity.
Qed.

Lemma TrimSuffix_twice p :
  HasSuffix p "//" = false → TrimSuffix (TrimSuffix p "/") "/" = TrimSuffix p "/".
Proof.
  intros Hp. apply TrimSuffix_id. unfold TrimSuffix at 1.
  destruct (HasSuffix p "/") eqn:E; [|done].
  change (String.length "/") with 1%nat.
  destruct (HasSuffix (takeS (String.length p - 1) p) "/") eqn:E2; [|done].
  apply HasSuffix_byte_inv in E, E2. rewrite E2 in E.
  rewrite sapp_assoc in E. rewrite E in Hp.
  change ("/" +:+ "/") with "//" in Hp. by rewrite HasSuffix_app in Hp.
Qed.

End CanonicalText.

(** C4: the canonical operation is idempotent on every URL that parses with a
    non-empty scheme and host, provided the decoded path does not end in two
    slashes (one slash is stripped at each application) and a host in
    brackets has only ASCII in its zone (other bytes are written escaped, and
    such an escape is refused in a zone when the text is parsed again). *)
Theorem canonical_idempotent `{UnicodeCase} (raw : string) (u : URL) :
  validURL raw u →
  HasSuffix (Path u) "//" = false →
  bracketedZoneASCII (Host u) = true →
  ∃ out, processURL "canonical" raw = inl out
         ∧ processURL "canonical" out = inl out.
Proof.
  intros Hv Hpath Hzone. pose proof (Parse_inv raw u Hv) as (Hsch & Hop & [a Ha] & Hwf).
  destruct Hv as (HP & Hs & Hh).
  destruct (parseAuthority_shape _ _ _ Ha) as [[r Hr] Huser].
  pose proof (parseHost_escape _ (parseHost_shape _ _ Hr Hh) Hh Hzone) as Hhost.
  pose proof (parseAuthority_text _ _ Huser Hhost) as Hauth.
  set (v := canonicalized u).
  assert (Hwfv : pathWF v).
  { destruct Hwf as [Hp1 Hp2]. split; [by apply TrimSuffix_first|exact Hp2]. }
  destruct (EscapedPath_round_trip v Hwfv) as (Hep & Hq & Hhash & Hctl & rp & Hsp & Hrt).
  assert (Hout : String_ v
                 = canonicalText (Scheme u) (User u) (Host u) (EscapedPath v) (ForceQuery u)).
  { rewrite (String_canonicalText v);
      [reflexivity|exact Hs|exact Hop|exact Hh|reflexivity|reflexivity|exact Hep]. }
  exists (String_ v). split.
  { unfold processURL. rewrite HP.
    by rewrite (proj2 (isEmpty_false _) Hs), (proj2 (isEmpty_false _) Hh). }
  unfold processURL. rewrite Hout.
  rewrite (Parse_canonicalText _ _ _ _ _ _ _ Hsch Hauth Hep Hq Hhash Hctl Hsp).
  cbn [Scheme Host].
  rewrite (proj2 (isEmpty_false _) Hs), (proj2 (isEmpty_false _) Hh).
  cbn [orb String.eqb Ascii.eqb Bool.eqb]. f_equal.
  rewrite String_canonicalText; cbn; try done.
  - f_equal. apply Hrt; cbn; [|done]. by apply TrimSuffix_twice.
  - rewrite (Hrt (canonicalized _)); [done| |done]. cbn. by apply TrimSuffix_twice.
Qed.

(** The hypotheses of C4 hold for a URL with one trailing slash. *)
Lemma canonical_idempotent_witness :
  ∃ u, @validURL asciiCase "https://Example.com/a/b/?x=1#top" u
       ∧ HasSuffix (Path u) "//" = false
       ∧ bracketedZoneASCII (Host u) = true
       ∧ ∃ out, @processURL asciiCase "canonical" "https://Example.com/a/b/?x=1#top" = inl out
                ∧ @processURL asciiCase "canonical" out = inl out.
Proof.
  eexists. split; [split; [vm_compute; reflexivity|split; vm_compute; discriminate]|].
  split; [vm_compute; reflexivity|]. split; [vm_compute; reflexivity|].
  eapply (@canonical_idempotent asciiCase "https://Example.com/a/b/?x=1#top").
  - split; [vm_compute; reflexivity|split; vm_compute; discriminate].
  - vm_compute; reflexivity.
  - vm_compute; reflexivity.
Defined.

(** ** Trimming white space *)

Section Trim.

Lemma Decode_width s : s ≠ "" → (1 <= snd (DecodeRuneInString s))%nat.
Proof.
  destruct s as [|c0 t0]; [done|]. intros _. unfold DecodeRuneInString.
  repeat (case_match; cbn [snd]; try lia).
Qed.

Lemma Decode_takeS n s :
  (1 <= n)%nat →
  DecodeRuneInString (takeS n s) = DecodeRuneInString s
  ∨ fst (DecodeRuneInString (takeS n s)) = RuneError.
Proof.
  intros Hn. destruct s as [|c0 [|c1 [|c2 [|c3 t]]]];
    destruct n as [|[|[|[|n]]]]; try lia; cbn [takeS]; try (by left);
    unfold DecodeRuneInString; cbn [String.length Nat.ltb Nat.leb];
    repeat (case_match; try (by left); try (by right)).
Qed.

Lemma length_dropS n s : String.length (dropS n s) = (String.length s - n)%nat.
Proof. revert s. induction n as [|n IH]; intros [|c s]; cbn; try done; try lia. Qed.

Lemma length_takeS_le n s : (String.length (takeS n s) <= n)%nat.
Proof. revert s. induction n as [|n IH]; intros [|c s]; cbn; try lia. specialize (IH s). lia. Qed.

Lemma dropS_dropS n m s : dropS n (dropS m s) = dropS (m + n) s.
Proof. revert s. induction m as [|m IH]; intros [|c s]; cbn; try done. by destruct n. Qed.

Lemma trimLeft_S f fuel s :
  s ≠ "" →
  trimLeft (S fuel) f s
  = if f (fst (DecodeRuneInString s))
    then trimLeft fuel f (dropS (snd (DecodeRuneInString s)) s) else s.
Proof. destruct s; [done|]. intros _. cbn [trimLeft]. by destruct (DecodeRuneInString _). Qed.

Lemma trimRight_S f fuel s :
  s ≠ "" →
  trimRight (S fuel) f s
  = if f (fst (DecodeLastRuneInString s))
    then trimRight fuel f (takeS (String.length s - snd (DecodeLastRuneInString s)) s)
    else s.
Proof. destruct s; [done|]. intros _. cbn [trimRight]. by destruct (DecodeLastRuneInString _). Qed.

Lemma trimLeft_spec f fuel s :
  (String.length s <= fuel)%nat →
  (trimLeft fuel f s = "" ∨ f (fst (DecodeRuneInString (trimLeft fuel f s))) = false)
  ∧ ∃ n, trimLeft fuel f s = dropS n s.
Proof.
  revert s. induction fuel as [|fuel IH]; intros s Hlen.
  - destruct s; [|cbn in Hlen; lia]. split; [by left|by exists 0%nat].
  - destruct (decide (s = "")) as [->|Hne]; [split; [by left|by exists 0%nat]|].
    rewrite (trimLeft_S _ _ _ Hne).
    pose proof (Decode_width s Hne) as Hw.
    destruct (DecodeRuneInString s) as [r w] eqn:Hd. cbn [fst snd] in *.
    destruct (f r) eqn:Hf.
    + destruct (IH (dropS w s)) as [H1 [n H2]].
      { rewrite length_dropS. destruct s; [done|]. cbn [String.length] in *. lia. }
      split; [exact H1|]. exists (w + n)%nat. by rewrite H2, dropS_dropS.
    + split; [right; by rewrite Hd|by exists 0%nat].
Qed.

Lemma backToStart_le s k start lim : backToStart s k start lim <= start.
Proof.
  revert start. induction k as [|k IH]; intros start; cbn [backToStart]; [lia|].
  destruct (start <? lim); [lia|]. destruct (RuneStart _); [lia|].
  specialize (IH (start - 1)). lia.
Qed.

Lemma DecodeLast_width s : s ≠ "" → (1 <= snd (DecodeLastRuneInString s))%nat.
Proof.
  intros Hne. unfold DecodeLastRuneInString, len.
  destruct (Z.of_nat (String.length s) =? 0) eqn:E.
  { apply Z.eqb_eq in E. destruct s; [done|cbn in E; lia]. }
  apply Z.eqb_neq in E.
  destruct (_ <? RuneSelf); [cbn [snd]; lia|].
  match goal with |- context [DecodeRuneInString ?x] =>
    destruct (DecodeRuneInString x) as [r size] eqn:Hd end.
  match goal with |- context [if ?b then _ else _] => destruct b eqn:E2 end;
    [|cbn [snd]; lia]. cbn [snd] in *.
  destruct size; [|lia]. apply Z.eqb_eq in E2. exfalso.
  match type of E2 with context [backToStart ?a ?b ?c ?d] =>
    pose proof (backToStart_le a b c d) end.
  lia.
Qed.

Lemma takeS_takeS_min n m s : takeS n (takeS m s) = takeS (Nat.min n m) s.
Proof.
  revert n s. induction m as [|m IH]; intros [|n] [|c s]; cbn; try done. by rewrite IH.
Qed.

Lemma trimRight_spec f fuel s :
  (String.length s <= fuel)%nat →
  (trimRight fuel f s = "" ∨ f (fst (DecodeLastRuneInString (trimRight fuel f s))) = false)
  ∧ ∃ n, trimRight fuel f s = takeS n s.
Proof.
  revert s. induction fuel as [|fuel IH]; intros s Hlen.
  - destruct s; [|cbn in Hlen; lia]. split; [by left|by exists 0%nat].
  - destruct (decide (s = "")) as [->|Hne]; [split; [by left|by exists 0%nat]|].
    rewrite (trimRight_S _ _ _ Hne).
    pose proof (DecodeLast_width s Hne) as Hw.
    destruct (DecodeLastRuneInString s) as [r w] eqn:Hd. cbn [fst snd] in *.
    destruct (f r) eqn:Hf.
    + destruct (IH (takeS (String.length s - w) s)) as [H1 [n H2]].
      { pose proof (length_takeS_le (String.length s - w) s).
        destruct s; [done|]. cbn [String.length] in *. lia. }
      split; [exact H1|]. eexists. by rewrite H2, takeS_takeS_min.
    + split; [right; by rewrite Hd|]. exists (String.length s). by rewrite takeS_all.
Qed.

Lemma trimLeft_stop f fuel s :
  s ≠ "" → f (fst (DecodeRuneInString s)) = false → trimLeft (S fuel) f s = s.
Proof.
  intros Hne Hf. by rewrite (trimLeft_S _ _ _ Hne), Hf.
Qed.

Lemma trimRight_stop f fuel s :
  s ≠ "" → f (fst (DecodeLastRuneInString s)) = false → trimRight (S fuel) f s = s.
Proof.
  intros Hne Hf. by rewrite (trimRight_S _ _ _ Hne), Hf.
Qed.

(** A string whose first and last runes are no white space is left alone. *)
Lemma TrimSpace_fixed s :
  s ≠ "" → IsSpace (fst (DecodeRuneInString s)) = false →
  IsSpace (fst (DecodeLastRuneInString s)) = false → TrimSpace s = s.
Proof.
  intros Hne Hl Hr. unfold TrimSpace, TrimLeftFunc, TrimRightFunc.
  destruct (String.length s) eqn:El; [by destruct s|].
  rewrite (trimLeft_stop _ _ _ Hne Hl), El. by apply trimRight_stop.
Qed.

(** The shape of a trimmed string. *)
Lemma TrimSpace_shape s :
  TrimSpace s = ""
  ∨ (IsSpace (fst (DecodeRuneInString (TrimSpace s))) = false
     ∧ IsSpace (fst (DecodeLastRuneInString (TrimSpace s))) = false).
Proof.
  unfold TrimSpace, TrimLeftFunc, TrimRightFunc.
  destruct (trimLeft_spec IsSpace (String.length s) s (le_n _)) as [HL _].
  set (L := trimLeft (String.length s) IsSpace s) in *.
  destruct (trimRight_spec IsSpace (String.length L) L (le_n _)) as [HT [n Hn]].
  set (T := trimRight (String.length L) IsSpace L) in *.
  destruct HT as [HT|HT]; [by left|]. right. split; [|exact HT].
  destruct (decide (T = "")) as [->|HTne]; [reflexivity|].
  destruct HL as [HL|HL].
  { rewrite HL in Hn. rewrite Hn in HTne. by destruct n. }
  assert (1 <= n)%nat as Hn1.
  { destruct n; [|lia]. rewrite Hn in HTne. by destruct L. }
  rewrite Hn. destruct (Decode_takeS n L Hn1) as [->| ->]; [exact HL|reflexivity].
Qed.

Lemma TrimSpace_idempotent s : TrimSpace (TrimSpace s) = TrimSpace s.
Proof.
  destruct (TrimSpace_shape s) as [->|[Hl Hr]]; [reflexivity|].
  destruct (decide (TrimSpace s = "")) as [->|Hne]; [reflexivity|].
  by apply TrimSpace_fixed.
Qed.

End Trim.

(** ** The outcome of the two validators, field by field *)

Section Outcome.
Context `{UnicodeCase}.

Lemma lookup_entry b f m g :
  entry b f m !! g = if b then (if decide (f = g) then Some m else None) else None.
Proof.
  unfold entry. destruct b; [|apply lookup_empty].
  case_decide; subst; [apply lookup_singleton_eq|by apply lookup_singleton_ne].
Qed.

Lemma built_init : built {| Fields := None |}.
Proof. by left. Qed.

Lemma built_addIf b f m e : built e → built (addIf b f m e).
Proof.
  intros He. destruct b; [|exact He]. right. unfold addIf, add.
  destruct (fieldsOf e !! f); reflexivity.
Qed.

Lemma fieldsOf_addIf b f m e :
  fieldsOf e !! f = None → fieldsOf (addIf b f m e) = entry b f m ∪ fieldsOf e.
Proof.
  intros Hf. destruct b; cbn [addIf entry].
  - rewrite fieldsOf_add_fresh by done. by rewrite insert_union_singleton_l.
  - by rewrite (left_id_L ∅ (∪)).
Qed.

Lemma built_error e :
  built e → (if negb (ok e) then Some e else None) = issuesError (fieldsOf e).
Proof.
  intros He. unfold issuesError. destruct (ok e) eqn:Hok; cbn [negb].
  - apply ok_true_iff in Hok. by rewrite decide_True.
  - rewrite decide_False.
    + destruct He as [->|He]; [done|]. destruct e as [fs]. cbn in *. by rewrite He.
    + intros Hm%ok_true_iff. congruence.
Qed.

Lemma checkPrice_addIf p e : checkPrice p e = addIf (priceInvalid p) "price" (priceMessage p) e.
Proof.
  destruct (priceInvalid p) eqn:Hp; [by apply checkPrice_invalid|by apply checkPrice_valid].
Qed.

(** What [validateAndNormalizeCreate] returns, for every input. *)
Lemma create_outcome in_ :
  validateAndNormalizeCreate in_ = (createNormalized in_, issuesError (createIssues in_)).
Proof.
  destruct in_ as [t a i p y].
  unfold validateAndNormalizeCreate, createNormalized, createIssues.
  cbn [CreateBookInput.Title CreateBookInput.Author CreateBookInput.ISBN
       CreateBookInput.Price CreateBookInput.PublicationYear]. cbv zeta.
  assert (Et : ∀ e, (if isEmpty (TrimSpace t) then add "title" "Title is required" e
                     else if len (TrimSpace t) >? 120
                          then add "title" "Title must be ≤ 120 characters" e else e)
                    = addIf (titleInvalid t) "title" (titleMessage t) e).
  { intros e. unfold titleInvalid, titleMessage.
    destruct (isEmpty (TrimSpace t)); cbn [orb]; [done|].
    by destruct (len (TrimSpace t) >? 120). }
  assert (Ea : ∀ e, (if isEmpty (TrimSpace a) then add "author" "Author is required" e
                     else if len (TrimSpace a) >? 80
                          then add "author" "Author must be ≤ 80 characters" e else e)
                    = addIf (authorInvalid a) "author" (authorMessage a) e).
  { intros e. unfold authorInvalid, authorMessage.
    destruct (isEmpty (TrimSpace a)); cbn [orb]; [done|].
    by destruct (len (TrimSpace a) >? 80). }
  assert (Ei : ∀ e, (if isEmpty (TrimSpace i)
                     then (TrimSpace i, add "isbn" "ISBN is required" e)
                     else if negb (isValidISBN (TrimSpace i))
                          then (TrimSpace i,
                                add "isbn" "Invalid ISBN (must be ISBN-10 or ISBN-13)" e)
                          else (normalizeISBN (TrimSpace i), e))
                    = (if isbnInvalid i then TrimSpace i else normalizeISBN (TrimSpace i),
                       addIf (isbnInvalid i) "isbn" (isbnMessage i) e)).
  { intros e. unfold isbnInvalid, isbnMessage.
    destruct (isEmpty (TrimSpace i)); cbn [orb]; [done|].
    by destruct (isValidISBN (TrimSpace i)). }
  assert (Ey : ∀ e, (if y =? 0 then add "publication_year" "Publication year is required" e
                     else if negb (isValidFourDigitYearInt y)
                          then add "publication_year"
                                 "Publication year must be a 4-digit number" e
                          else e)
                    = addIf (yearInvalid y) "publication_year" (yearMessage y) e).
  { intros e. unfold yearInvalid, yearMessage.
    destruct (y =? 0); cbn [orb]; [done|]. by destruct (isValidFourDigitYearInt y). }
  rewrite Et, Ea, Ei, Ey, checkPrice_addIf.
  set (e1 := addIf (titleInvalid t) "title" (titleMessage t) {| Fields := None |}).
  set (e2 := addIf (authorInvalid a) "author" (authorMessage a) e1).
  set (e3 := addIf (isbnInvalid i) "isbn" (isbnMessage i) e2).
  set (e4 := addIf (yearInvalid y) "publication_year" (yearMessage y) e3).
  set (e5 := addIf (priceInvalid p) "price" (priceMessage p) e4).
  assert (H1 : fieldsOf e1 = entry (titleInvalid t) "title" (titleMessage t)).
  { unfold e1. rewrite fieldsOf_addIf by done. apply (right_id_L ∅ (∪)). }
  assert (H2 : fieldsOf e2 = entry (authorInvalid a) "author" (authorMessage a) ∪ fieldsOf e1).
  { apply fieldsOf_addIf. rewrite H1, lookup_entry. by destruct (titleInvalid t). }
  assert (H3 : fieldsOf e3 = entry (isbnInvalid i) "isbn" (isbnMessage i) ∪ fieldsOf e2).
  { apply fieldsOf_addIf. rewrite H2, H1, lookup_union, !lookup_entry.
    by destruct (titleInvalid t), (authorInvalid a). }
  assert (H4 : fieldsOf e4 = entry (yearInvalid y) "publication_year" (yearMessage y)
                             ∪ fieldsOf e3).
  { apply fieldsOf_addIf. rewrite H3, H2, H1, !lookup_union, !lookup_entry.
    by destruct (titleInvalid t), (authorInvalid a), (isbnInvalid i). }
  assert (H5 : fieldsOf e5 = entry (priceInvalid p) "price" (priceMessage p) ∪ fieldsOf e4).
  { apply fieldsOf_addIf. rewrite H4, H3, H2, H1, !lookup_union, !lookup_entry.
    by destruct (titleInvalid t), (authorInvalid a), (isbnInvalid i), (yearInvalid y). }
  assert (Hb : built e5) by (repeat apply built_addIf; apply built_init).
  assert (Hout : ∀ o : CreateBookInput.t,
             (if negb (ok e5) then (o, Some e5) else (o, None))
             = (o, if negb (ok e5) then Some e5 else None))
    by (intros o; by destruct (ok e5)).
  rewrite Hout, (built_error e5 Hb), H5, H4, H3, H2, H1. reflexivity.
Qed.

Lemma lookup_optEntry {A} (o : option A) bad f msg g :
  f ≠ g → optEntry o bad f msg !! g = None.
Proof.
  intros Hne. destruct o as [v|]; cbn [optEntry]; [|apply lookup_empty].
  rewrite lookup_entry. destruct (bad v); [|done]. by rewrite decide_False.
Qed.

Lemma built_addOpt {A} (o : option A) bad f msg e : built e → built (addOpt o bad f msg e).
Proof. destruct o; [apply built_addIf|done]. Qed.

Lemma fieldsOf_addOpt {A} (o : option A) bad f msg e :
  fieldsOf e !! f = None → fieldsOf (addOpt o bad f msg e) = optEntry o bad f msg ∪ fieldsOf e.
Proof.
  intros Hf. destruct o; cbn [addOpt optEntry]; [by apply fieldsOf_addIf|].
  by rewrite (left_id_L ∅ (∪)).
Qed.

(** What [validateAndNormalizeUpdate] returns, for every patch. *)
Lemma update_outcome in_ :
  validateAndNormalizeUpdate in_ = (updateNormalized in_, issuesError (updateIssues in_)).
Proof.
  destruct in_ as [t a i p y].
  unfold validateAndNormalizeUpdate, updateNormalized, updateIssues.
  cbn [UpdateBookInput.Title UpdateBookInput.Author UpdateBookInput.ISBN
       UpdateBookInput.Price UpdateBookInput.PublicationYear]. cbv zeta.
  assert (Et : ∀ e, match t with
                    | None => (None, e)
                    | Some v =>
                        if isEmpty (TrimSpace v)
                        then (Some v, add "title" "Title is required" e)
                        else if len (TrimSpace v) >? 120
                             then (Some v, add "title" "Title must be ≤ 120 characters" e)
                             else (Some (TrimSpace v), e)
                    end
                    = ((λ v, if titleInvalid v then v else TrimSpace v) <$> t,
                       addOpt t titleInvalid "title" titleMessage e)).
  { intros e. destruct t as [v|]; [|done]. cbn. unfold titleInvalid, titleMessage.
    destruct (isEmpty (TrimSpace v)); cbn [orb]; [done|].
    by destruct (len (TrimSpace v) >? 120). }
  assert (Ea : ∀ e, match a with
                    | None => (None, e)
                    | Some v =>
                        if isEmpty (TrimSpace v)
                        then (Some v, add "author" "Author is required" e)
                        else if len (TrimSpace v) >? 80
                             then (Some v, add "author" "Author must be ≤ 80 characters" e)
                             else (Some (TrimSpace v), e)
                    end
                    = ((λ v, if authorInvalid v then v else TrimSpace v) <$> a,
                       addOpt a authorInvalid "author" authorMessage e)).
  { intros e. destruct a as [v|]; [|done]. cbn. unfold authorInvalid, authorMessage.
    destruct (isEmpty (TrimSpace v)); cbn [orb]; [done|].
    by destruct (len (TrimSpace v) >? 80). }
  assert (Ei : ∀ e, match i with
                    | None => (None, e)
                    | Some v =>
                        if isEmpty (TrimSpace v)
                        then (Some v, add "isbn" "ISBN is required" e)
                        else if negb (isValidISBN (TrimSpace v))
                             then (Some v,
                                   add "isbn" "Invalid ISBN (must be ISBN-10 or ISBN-13)" e)
                             else (Some (normalizeISBN (TrimSpace v)), e)
                    end
                    = ((λ v, if isbnInvalid v then v else normalizeISBN (TrimSpace v)) <$> i,
                       addOpt i isbnInvalid "isbn" isbnMessage e)).
  { intros e. destruct i as [v|]; [|done]. cbn. unfold isbnInvalid, isbnMessage.
    destruct (isEmpty (TrimSpace v)); cbn [orb]; [done|].
    by destruct (isValidISBN (TrimSpace v)). }
  assert (Ey : ∀ e, match y with
                    | None => e
                    | Some v =>
                        if negb (isValidFourDigitYearInt v)
                        then add "publication_year"
                               "Publication year must be a 4-digit number" e
                        else e
                    end
                    = addOpt y yearInvalidUpdate "publication_year" yearMessageUpdate e).
  { intros e. by destruct y as [v|]. }
  assert (Ep : ∀ e, match p with
                    | None => e
                    | Some v => checkPrice v e
                    end
                    = addOpt p priceInvalid "price" priceMessage e).
  { intros e. destruct p as [v|]; [apply checkPrice_addIf|done]. }
  rewrite Et, Ea, Ei, Ey, Ep.
  set (e1 := addOpt t titleInvalid "title" titleMessage {| Fields := None |}).
  set (e2 := addOpt a authorInvalid "author" authorMessage e1).
  set (e3 := addOpt i isbnInvalid "isbn" isbnMessage e2).
  set (e4 := addOpt y yearInvalidUpdate "publication_year" yearMessageUpdate e3).
  set (e5 := addOpt p priceInvalid "price" priceMessage e4).
  assert (H1 : fieldsOf e1 = optEntry t titleInvalid "title" titleMessage).
  { unfold e1. rewrite fieldsOf_addOpt by done. apply (right_id_L ∅ (∪)). }
  assert (H2 : fieldsOf e2 = optEntry a authorInvalid "author" authorMessage ∪ fieldsOf e1).
  { apply fieldsOf_addOpt. by rewrite H1, lookup_optEntry. }
  assert (H3 : fieldsOf e3 = optEntry i isbnInvalid "isbn" isbnMessage ∪ fieldsOf e2).
  { apply fieldsOf_addOpt. by rewrite H2, H1, lookup_union, !lookup_optEntry. }
  assert (H4 : fieldsOf e4 = optEntry y yearInvalidUpdate "publication_year" yearMessageUpdate
                             ∪ fieldsOf e3).
  { apply fieldsOf_addOpt. by rewrite H3, H2, H1, !lookup_union, !lookup_optEntry. }
  assert (H5 : fieldsOf e5 = optEntry p priceInvalid "price" priceMessage ∪ fieldsOf e4).
  { apply fieldsOf_addOpt. by rewrite H4, H3, H2, H1, !lookup_union, !lookup_optEntry. }
  assert (Hb : built e5) by (repeat apply built_addOpt; apply built_init).
  assert (Hout : ∀ o : UpdateBookInput.t,
             (if negb (ok e5) then (o, Some e5) else (o, None))
             = (o, if negb (ok e5) then Some e5 else None))
    by (intros o; by destruct (ok e5)).
  rewrite Hout, (built_error e5 Hb), H5, H4, H3, H2, H1. reflexivity.
Qed.

End Outcome.

(** ** Normal forms *)

Section NormalForms.
Context `{UnicodeCase}.

Lemma ReplaceAll_id s old new : noByte old s → ReplaceAll s old new = s.
Proof.
  induction s as [|c s IH]; [done|]. rewrite noByte_cons. intros [Hc Hs].
  cbn [ReplaceAll]. apply Ascii.eqb_neq in Hc. by rewrite Hc, IH.
Qed.

Lemma isbnByte_facts c :
  isbnByte c = true →
  (byteZ c <? RuneSelf) = true ∧ IsSpace (byteZ c) = false ∧ upperByte c = c
  ∧ Ascii.eqb c " " = false ∧ Ascii.eqb c "-" = false.
Proof.
  destruct c as [[] [] [] [] [] [] [] []]; vm_compute; intros; try discriminate; done.
Qed.

Lemma mapS_id f s : allS (λ c, bool_decide (f c = c)) s = true → mapS f s = s.
Proof.
  induction s as [|c s IH]; [done|]. cbn [allS mapS]. rewrite andb_true_iff.
  intros [Hc%bool_decide_eq_true Hs]. by rewrite Hc, IH.
Qed.

Lemma isbnText_normalize n : allS isbnByte n = true → normalizeISBN n = n.
Proof.
  intros Hn. unfold normalizeISBN.
  rewrite (ReplaceAll_id n " " "").
  2:{ eapply allS_impl; [|exact Hn]. intros c Hc.
      destruct (isbnByte_facts c Hc) as (_ & _ & _ & -> & _). done. }
  rewrite (ReplaceAll_id n "-" "").
  2:{ eapply allS_impl; [|exact Hn]. intros c Hc.
      destruct (isbnByte_facts c Hc) as (_ & _ & _ & _ & ->). done. }
  unfold ToUpper.
  assert (isASCII n = true) as ->.
  { unfold isASCII. eapply allS_impl; [|exact Hn]. intros c Hc.
    by destruct (isbnByte_facts c Hc) as (-> & _). }
  apply mapS_id. eapply allS_impl; [|exact Hn]. intros c Hc.
  apply bool_decide_eq_true. by destruct (isbnByte_facts c Hc) as (_ & _ & -> & _).
Qed.

Lemma Decode_ASCII c t :
  (byteZ c <? RuneSelf) = true → DecodeRuneInString (String c t) = (byteZ c, 1%nat).
Proof. intros Hc. unfold DecodeRuneInString. by rewrite Hc. Qed.

Lemma DecodeLast_ASCII s :
  s ≠ "" → (byteZ (at_ s (String.length s - 1)) <? RuneSelf) = true →
  DecodeLastRuneInString s = (byteZ (at_ s (String.length s - 1)), 1%nat).
Proof.
  intros Hne Hc. unfold DecodeLastRuneInString, len.
  destruct (Z.of_nat (String.length s) =? 0) eqn:E.
  { apply Z.eqb_eq in E. destruct s; [done|cbn in E; lia]. }
  replace (Z.to_nat (Z.of_nat (String.length s) - 1)) with (String.length s - 1)%nat by lia.
  by rewrite Hc.
Qed.

Lemma isbnText_trim n : allS isbnByte n = true → TrimSpace n = n.
Proof.
  intros Hn. destruct (decide (n = "")) as [->|Hne]; [reflexivity|].
  pose proof (proj1 (allS_forall _ _) Hn) as Hall.
  assert (Hlen : (0 < String.length n)%nat) by (destruct n; [done|cbn; lia]).
  apply TrimSpace_fixed; [exact Hne| |].
  - destruct n as [|c t]; [done|]. cbn [allS] in Hn. apply andb_true_iff in Hn as [Hc _].
    destruct (isbnByte_facts c Hc) as (H1 & H2 & _). by rewrite (Decode_ASCII c t H1).
  - assert (Hc : isbnByte (at_ n (String.length n - 1)) = true) by (apply Hall; lia).
    destruct (isbnByte_facts _ Hc) as (H1 & H2 & _).
    by rewrite (DecodeLast_ASCII n Hne H1).
Qed.

Lemma isbn10_text n : reIsbn10_MatchString n = true → allS isbnByte n = true.
Proof.
  intros (Hlen & Hd & Hl)%reIsbn10_spec. apply allS_forall. intros i Hi.
  unfold isbnByte. destruct (decide (i = 9%nat)) as [->|Hne].
  - destruct Hl as [->| ->]; [done|]. by rewrite orb_true_r.
  - rewrite Hd; [done|lia].
Qed.

Lemma isbn13_text n : reIsbn13_MatchString n = true → allS isbnByte n = true.
Proof.
  unfold reIsbn13_MatchString. intros [_ Hd]%andb_true_iff.
  eapply allS_impl; [|exact Hd]. intros c Hc. unfold isbnByte. by rewrite Hc.
Qed.

Lemma valid_isbn_text s :
  isValidISBN s = true → allS isbnByte (normalizeISBN s) = true ∧ normalizeISBN s ≠ "".
Proof.
  unfold isValidISBN. cbv zeta. unfold len.
  destruct (Z.of_nat (String.length (normalizeISBN s)) =? 10) eqn:E10.
  - unfold isValidISBN10. destruct (reIsbn10_MatchString _) eqn:Hre; [|discriminate].
    intros _. split; [by apply isbn10_text|]. intros Hn. by rewrite Hn in E10.
  - destruct (Z.of_nat (String.length (normalizeISBN s)) =? 13) eqn:E13; [|discriminate].
    unfold isValidISBN13. destruct (reIsbn13_MatchString _) eqn:Hre; [|discriminate].
    intros _. split; [by apply isbn13_text|]. intros Hn. by rewrite Hn in E13.
Qed.

Lemma valid_isbn_normal_form s :
  isValidISBN s = true →
  normalizeISBN (normalizeISBN s) = normalizeISBN s
  ∧ TrimSpace (normalizeISBN s) = normalizeISBN s
  ∧ isValidISBN (normalizeISBN s) = true.
Proof.
  intros Hv. destruct (valid_isbn_text s Hv) as [Ht Hne].
  pose proof (isbnText_normalize _ Ht) as Hn.
  split; [exact Hn|]. split; [by apply isbnText_trim|].
  unfold isValidISBN in *. cbv zeta in *. by rewrite Hn.
Qed.

End NormalForms.

(** ** Consequences for create and update requests *)

Section Requests.
Context `{UnicodeCase}.

Lemma entry_empty b f m : entry b f m = ∅ ↔ b = false.
Proof.
  destruct b; cbn [entry]; split; try done.
  all: intros Hm; apply (f_equal (λ x : gmap string string, x !! f)) in Hm;
    by rewrite lookup_singleton_eq, lookup_empty in Hm.
Qed.

Lemma union_empty_iff (m1 m2 : gmap string string) : m1 ∪ m2 = ∅ ↔ m1 = ∅ ∧ m2 = ∅.
Proof.
  split.
  - intros Hm. pose proof (map_positive_l _ _ Hm) as ->.
    by rewrite (left_id_L ∅ (∪)) in Hm.
  - intros [-> ->]. by rewrite (left_id_L ∅ (∪)).
Qed.

Lemma issuesError_None m : issuesError m = None ↔ m = ∅.
Proof. unfold issuesError. case_decide; split; done. Qed.

Lemma issuesError_Some m e : issuesError m = Some e → fieldsOf e = m ∧ m ≠ ∅.
Proof. unfold issuesError. case_decide; [done|]. by intros [= <-]. Qed.

Lemma createIssues_empty in_ :
  createIssues in_ = ∅
  ↔ titleInvalid (CreateBookInput.Title in_) = false
    ∧ authorInvalid (CreateBookInput.Author in_) = false
    ∧ isbnInvalid (CreateBookInput.ISBN in_) = false
    ∧ yearInvalid (CreateBookInput.PublicationYear in_) = false
    ∧ priceInvalid (CreateBookInput.Price in_) = false.
Proof. unfold createIssues. rewrite !union_empty_iff, !entry_empty. tauto. Qed.

Lemma titleInvalid_bytes t : titleInvalid t = false ↔ withinBytes 120 t.
Proof.
  unfold titleInvalid, withinBytes, len. rewrite orb_false_iff, isEmpty_false.
  rewrite Z.gtb_ltb, Z.ltb_ge. destruct (TrimSpace t); cbn [String.length].
  - split; [intros [? _]; done|lia].
  - split; [lia|]. intros ?. split; [done|lia].
Qed.

Lemma authorInvalid_bytes a : authorInvalid a = false ↔ withinBytes 80 a.
Proof.
  unfold authorInvalid, withinBytes, len. rewrite orb_false_iff, isEmpty_false.
  rewrite Z.gtb_ltb, Z.ltb_ge. destruct (TrimSpace a); cbn [String.length].
  - split; [intros [? _]; done|lia].
  - split; [lia|]. intros ?. split; [done|lia].
Qed.

Lemma isValidISBN_empty : isValidISBN "" = false.
Proof. reflexivity. Qed.

Lemma isbnInvalid_valid i : isbnInvalid i = false ↔ isValidISBN (TrimSpace i) = true.
Proof.
  unfold isbnInvalid. rewrite orb_false_iff, negb_false_iff, isEmpty_false.
  split; [tauto|]. intros Hv. split; [|done]. intros He.
  rewrite He in Hv. by rewrite isValidISBN_empty in Hv.
Qed.

Lemma yearInvalid_range y : yearInvalid y = false ↔ 1000 <= y <= 9999.
Proof.
  unfold yearInvalid, isValidFourDigitYearInt, minYear, maxYear.
  rewrite orb_false_iff, negb_false_iff, andb_true_iff, Z.eqb_neq, !Z.leb_le. lia.
Qed.

Lemma yearInvalidUpdate_range y : yearInvalidUpdate y = false ↔ 1000 <= y <= 9999.
Proof.
  unfold yearInvalidUpdate, isValidFourDigitYearInt, minYear, maxYear.
  rewrite negb_false_iff, andb_true_iff, !Z.leb_le. lia.
Qed.

Lemma lookup_createIssues in_ g :
  createIssues in_ !! g =
  if decide (g = "price")
  then entry (priceInvalid (CreateBookInput.Price in_)) "price"
         (priceMessage (CreateBookInput.Price in_)) !! "price"
  else if decide (g = "publication_year")
  then entry (yearInvalid (CreateBookInput.PublicationYear in_)) "publication_year"
         (yearMessage (CreateBookInput.PublicationYear in_)) !! "publication_year"
  else if decide (g = "isbn")
  then entry (isbnInvalid (CreateBookInput.ISBN in_)) "isbn"
         (isbnMessage (CreateBookInput.ISBN in_)) !! "isbn"
  else if decide (g = "author")
  then entry (authorInvalid (CreateBookInput.Author in_)) "author"
         (authorMessage (CreateBookInput.Author in_)) !! "author"
  else if decide (g = "title")
  then entry (titleInvalid (CreateBookInput.Title in_)) "title"
         (titleMessage (CreateBookInput.Title in_)) !! "title"
  else None.
Proof.
  unfold createIssues. rewrite !lookup_union, !lookup_entry.
  repeat case_decide; subst; try done;
    destruct (priceInvalid _), (yearInvalid _), (isbnInvalid _), (authorInvalid _),
      (titleInvalid _); done.
Qed.

Lemma lookup_updateIssues_other in_ g :
  g ∉ fieldNames → updateIssues in_ !! g = None.
Proof.
  unfold fieldNames, updateIssues. intros Hg.
  rewrite !lookup_union, !lookup_optEntry; [done|intros <-; apply Hg; set_solver ..].
Qed.

Lemma optEntry_empty {A} (o : option A) bad f msg :
  optEntry o bad f msg = ∅ ↔ ∀ v, o = Some v → bad v = false.
Proof.
  destruct o as [v|]; cbn [optEntry].
  - rewrite entry_empty. split; [by intros ? ? [= <-]|eauto].
  - split; [done|done].
Qed.

Lemma updateIssues_empty in_ :
  updateIssues in_ = ∅
  ↔ (∀ v, UpdateBookInput.Title in_ = Some v → titleInvalid v = false)
    ∧ (∀ v, UpdateBookInput.Author in_ = Some v → authorInvalid v = false)
    ∧ (∀ v, UpdateBookInput.ISBN in_ = Some v → isbnInvalid v = false)
    ∧ (∀ v, UpdateBookInput.PublicationYear in_ = Some v → yearInvalidUpdate v = false)
    ∧ (∀ v, UpdateBookInput.Price in_ = Some v → priceInvalid v = false).
Proof. unfold updateIssues. rewrite !union_empty_iff, !optEntry_empty. tauto. Qed.

Lemma titleInvalid_trimmed t : titleInvalid (TrimSpace t) = titleInvalid t.
Proof. unfold titleInvalid. by rewrite TrimSpace_idempotent. Qed.

Lemma authorInvalid_trimmed a : authorInvalid (TrimSpace a) = authorInvalid a.
Proof. unfold authorInvalid. by rewrite TrimSpace_idempotent. Qed.

Lemma isbnInvalid_normalized i :
  isbnInvalid i = false → isbnInvalid (normalizeISBN (TrimSpace i)) = false
                          ∧ normalizeISBN (TrimSpace (normalizeISBN (TrimSpace i)))
                            = normalizeISBN (TrimSpace i).
Proof.
  intros Hv%isbnInvalid_valid.
  destruct (valid_isbn_normal_form _ Hv) as (Hn & Ht & Hvn).
  split; [apply isbnInvalid_valid; by rewrite Ht|by rewrite Ht].
Qed.

End Requests.

(** X1: [validateAndNormalizeCreate] returns no error exactly when the
    trimmed title has 1 to 120 bytes, the trimmed author 1 to 80 bytes, the
    trimmed ISBN is valid, the year lies in 1000..9999 and the price passes
    its three tests; the input it then returns has title and author trimmed
    and the ISBN in normal form. *)
Theorem create_accepts_iff_every_field_valid `{UnicodeCase} (in_ : CreateBookInput.t) :
  (snd (validateAndNormalizeCreate in_) = None
   ↔ withinBytes 120 (CreateBookInput.Title in_)
     ∧ withinBytes 80 (CreateBookInput.Author in_)
     ∧ isValidISBN (TrimSpace (CreateBookInput.ISBN in_)) = true
     ∧ 1000 <= CreateBookInput.PublicationYear in_ <= 9999
     ∧ priceInvalid (CreateBookInput.Price in_) = false)
  ∧ (snd (validateAndNormalizeCreate in_) = None →
     fst (validateAndNormalizeCreate in_)
     = CreateBookInput.mk
         (TrimSpace (CreateBookInput.Title in_)) (TrimSpace (CreateBookInput.Author in_))
         (normalizeISBN (TrimSpace (CreateBookInput.ISBN in_)))
         (CreateBookInput.Price in_) (CreateBookInput.PublicationYear in_)).
Proof.
  rewrite create_outcome. cbn [fst snd].
  rewrite issuesError_None, createIssues_empty, titleInvalid_bytes, authorInvalid_bytes,
    isbnInvalid_valid, yearInvalid_range.
  split; [reflexivity|]. intros (_ & _ & Hi%isbnInvalid_valid & _).
  unfold createNormalized. by rewrite Hi.
Qed.

(** X2: in the error set of a create request the entry of each field depends
    on that field alone: it is the message of the first rule the field
    breaks, or absent when the field is valid, whatever the other fields
    are; no other key is ever set. *)
Theorem create_error_entries_are_independent `{UnicodeCase}
    (in_ : CreateBookInput.t) (errs : ValidationError) :
  snd (validateAndNormalizeCreate in_) = Some errs →
  fieldsOf errs !! "title"
  = (if titleInvalid (CreateBookInput.Title in_)
     then Some (titleMessage (CreateBookInput.Title in_)) else None)
  ∧ fieldsOf errs !! "author"
    = (if authorInvalid (CreateBookInput.Author in_)
       then Some (authorMessage (CreateBookInput.Author in_)) else None)
  ∧ fieldsOf errs !! "isbn"
    = (if isbnInvalid (CreateBookInput.ISBN in_)
       then Some (isbnMessage (CreateBookInput.ISBN in_)) else None)
  ∧ fieldsOf errs !! "publication_year"
    = (if yearInvalid (CreateBookInput.PublicationYear in_)
       then Some (yearMessage (CreateBookInput.PublicationYear in_)) else None)
  ∧ fieldsOf errs !! "price"
    = (if priceInvalid (CreateBookInput.Price in_)
       then Some (priceMessage (CreateBookInput.Price in_)) else None)
  ∧ (∀ g, g ∉ fieldNames → fieldsOf errs !! g = None)
  ∧ fieldsOf errs ≠ ∅.
Proof.
  rewrite create_outcome. cbn [snd]. intros [-> Hne]%issuesError_Some.
  rewrite !lookup_createIssues, !lookup_entry.
  repeat (rewrite decide_False by done). rewrite !decide_True by done.
  do 5 (split; [reflexivity|]). split; [|exact Hne].
  intros g Hg. rewrite lookup_createIssues.
  unfold fieldNames in Hg. repeat case_decide; subst; try done; exfalso; apply Hg; set_solver.
Qed.

(** A request with a title of blanks and a price below zero. *)
Lemma create_error_entries_are_independent_witness :
  ∃ errs,
    snd (@validateAndNormalizeCreate asciiCase
           (CreateBookInput.mk "   " "Ann" "0306406152" (-1)%float 1999)) = Some errs
    ∧ fieldsOf errs !! "title" = Some "Title is required"
    ∧ fieldsOf errs !! "isbn" = None
    ∧ fieldsOf errs !! "price" = Some "Price must be ≥ 0".
Proof.
  eexists. split; [vm_compute; reflexivity|].
  pose proof (@create_error_entries_are_independent asciiCase
                (CreateBookInput.mk "   " "Ann" "0306406152" (-1)%float 1999) _
                ltac:(vm_compute; reflexivity)) as (Ht & _ & Hi & _ & Hp & _).
  split; [exact Ht|]. split; [exact Hi|exact Hp].
Defined.

(** X3: validation is idempotent on what it accepts: the input that
    [validateAndNormalizeCreate] returns without error is accepted again and
    returned as it is. *)
Theorem create_is_idempotent_on_accepted_input `{UnicodeCase}
    (in_ out : CreateBookInput.t) :
  validateAndNormalizeCreate in_ = (out, None) →
  validateAndNormalizeCreate out = (out, None).
Proof.
  rewrite create_outcome. intros [= <- Herr].
  apply issuesError_None in Herr. pose proof Herr as Hflags.
  apply createIssues_empty in Hflags as (Ht & Ha & Hi & Hy & Hp).
  rewrite create_outcome.
  assert (Hn : createNormalized (createNormalized in_) = createNormalized in_).
  { destruct in_ as [t a i p y]. unfold createNormalized in *.
    cbn [CreateBookInput.Title CreateBookInput.Author CreateBookInput.ISBN
         CreateBookInput.Price CreateBookInput.PublicationYear] in *.
    rewrite Hi. destruct (isbnInvalid_normalized i Hi) as [Hi2 Hn2].
    by rewrite Hi2, !TrimSpace_idempotent, Hn2. }
  rewrite Hn. f_equal. apply issuesError_None, createIssues_empty.
  destruct in_ as [t a i p y]. unfold createNormalized.
  cbn [CreateBookInput.Title CreateBookInput.Author CreateBookInput.ISBN
       CreateBookInput.Price CreateBookInput.PublicationYear] in *.
  rewrite Hi, titleInvalid_trimmed, authorInvalid_trimmed.
  destruct (isbnInvalid_normalized i Hi) as [Hi2 _]. done.
Qed.

(** A request with blanks around its texts and hyphens in its ISBN. *)
Lemma create_is_idempotent_on_accepted_input_witness :
  ∃ out,
    @validateAndNormalizeCreate asciiCase
      (CreateBookInput.mk "  Dune " " Frank Herbert" "0-306-40615-2 " 10.5%float 1965)
    = (out, None)
    ∧ out = CreateBookInput.mk "Dune" "Frank Herbert" "0306406152" 10.5%float 1965
    ∧ @validateAndNormalizeCreate asciiCase out = (out, None).
Proof.
  eexists. split; [vm_compute; reflexivity|]. split; [reflexivity|].
  apply (@create_is_idempotent_on_accepted_input asciiCase
           (CreateBookInput.mk "  Dune " " Frank Herbert" "0-306-40615-2 " 10.5%float 1965)).
  vm_compute. reflexivity.
Defined.

Section Patches.
Context `{UnicodeCase}.

Lemma updateIssues_patchOf in_ :
  CreateBookInput.PublicationYear in_ ≠ 0 → updateIssues (patchOf in_) = createIssues in_.
Proof.
  intros Hy. destruct in_ as [t a i p y]. unfold updateIssues, createIssues, patchOf.
  cbn [UpdateBookInput.Title UpdateBookInput.Author UpdateBookInput.ISBN
       UpdateBookInput.Price UpdateBookInput.PublicationYear
       CreateBookInput.Title CreateBookInput.Author CreateBookInput.ISBN
       CreateBookInput.Price CreateBookInput.PublicationYear optEntry] in *.
  apply Z.eqb_neq in Hy.
  unfold yearInvalidUpdate, yearMessageUpdate, yearInvalid, yearMessage. by rewrite Hy.
Qed.

Lemma allS_ReplaceAll p s old : allS p s = true → allS p (ReplaceAll s old "") = true.
Proof.
  induction s as [|c s IH]; [done|]. cbn [allS ReplaceAll]. rewrite andb_true_iff.
  intros [Hc Hs]. destruct (Ascii.eqb c old); [by apply IH|].
  cbn [allS]. by rewrite Hc, IH.
Qed.

Lemma noByte_ReplaceAll s old : noByte old (ReplaceAll s old "").
Proof.
  induction s as [|c s IH]; [done|]. cbn [ReplaceAll].
  destruct (Ascii.eqb c old) eqn:E; [exact IH|].
  apply noByte_cons. split; [by apply Ascii.eqb_neq|exact IH].
Qed.

Lemma upperByte_facts c :
  (byteZ c <? RuneSelf) = true →
  (byteZ (upperByte c) <? RuneSelf) = true
  ∧ upperByte (upperByte c) = upperByte c
  ∧ Ascii.eqb (upperByte c) " " = Ascii.eqb c " "
  ∧ Ascii.eqb (upperByte c) "-" = Ascii.eqb c "-".
Proof.
  destruct c as [[] [] [] [] [] [] [] []]; vm_compute; intros; try discriminate; done.
Qed.

Lemma allS_mapS p f s : allS p (mapS f s) = allS (λ c, p (f c)) s.
Proof. induction s as [|c s IH]; [done|]. cbn [allS mapS]. by rewrite IH. Qed.

Lemma allS_and p q s : allS p s = true → allS q s = true → allS (λ c, p c && q c) s = true.
Proof.
  induction s as [|c s IH]; [done|]. cbn [allS]. rewrite !andb_true_iff.
  intros [-> ?] [-> ?]. auto.
Qed.

Lemma normalizeISBN_ASCII s :
  isASCII s = true →
  isASCII (normalizeISBN s) = true
  ∧ noByte " " (normalizeISBN s) ∧ noByte "-" (normalizeISBN s)
  ∧ mapS upperByte (normalizeISBN s) = normalizeISBN s.
Proof.
  intros Hs. unfold normalizeISBN.
  set (n := ReplaceAll (ReplaceAll s " " "") "-" "").
  assert (Hn : isASCII n = true) by (unfold isASCII, n in *; by do 2 apply allS_ReplaceAll).
  assert (Hsp : noByte " " n)
    by (unfold noByte, n; apply allS_ReplaceAll, (noByte_ReplaceAll s " ")).
  assert (Hhy : noByte "-" n) by apply noByte_ReplaceAll.
  unfold ToUpper. rewrite Hn. unfold isASCII, noByte in *. rewrite !allS_mapS.
  split; [|split; [|split]].
  - eapply allS_impl; [|exact Hn]. intros c Hc. by destruct (upperByte_facts c Hc) as (-> & _).
  - eapply allS_impl; [|exact (allS_and _ _ _ Hn Hsp)]. intros c [Hc Hx]%andb_true_iff.
    destruct (upperByte_facts c Hc) as (_ & _ & -> & _). exact Hx.
  - eapply allS_impl; [|exact (allS_and _ _ _ Hn Hhy)]. intros c [Hc Hx]%andb_true_iff.
    destruct (upperByte_facts c Hc) as (_ & _ & _ & ->). exact Hx.
  - apply mapS_id. rewrite allS_mapS. eapply allS_impl; [|exact Hn]. intros c Hc.
    apply bool_decide_eq_true. by destruct (upperByte_facts c Hc) as (_ & -> & _).
Qed.

End Patches.

(** X4: [validateAndNormalizeUpdate], for every patch: an absent field stays
    absent and adds no error; a present text that passes is replaced by its
    trimmed (for the ISBN, normalized) form, one that fails is returned as it
    came; the error set has one entry for each present field that fails; and
    no error is returned exactly when every present field is valid, where a
    year of zero is judged like any other year. *)
Theorem update_result_by_field `{UnicodeCase} (in_ : UpdateBookInput.t) :
  validateAndNormalizeUpdate in_ = (updateNormalized in_, issuesError (updateIssues in_))
  ∧ (snd (validateAndNormalizeUpdate in_) = None
     ↔ (∀ v, UpdateBookInput.Title in_ = Some v → withinBytes 120 v)
       ∧ (∀ v, UpdateBookInput.Author in_ = Some v → withinBytes 80 v)
       ∧ (∀ v, UpdateBookInput.ISBN in_ = Some v → isValidISBN (TrimSpace v) = true)
       ∧ (∀ v, UpdateBookInput.PublicationYear in_ = Some v → 1000 <= v <= 9999)
       ∧ (∀ v, UpdateBookInput.Price in_ = Some v → priceInvalid v = false))
  ∧ (∀ errs g, snd (validateAndNormalizeUpdate in_) = Some errs →
       g ∉ fieldNames → fieldsOf errs !! g = None).
Proof.
  rewrite update_outcome. cbn [snd]. split; [reflexivity|]. split.
  - rewrite issuesError_None, updateIssues_empty.
    setoid_rewrite titleInvalid_bytes. setoid_rewrite authorInvalid_bytes.
    setoid_rewrite isbnInvalid_valid. setoid_rewrite yearInvalidUpdate_range. reflexivity.
  - intros errs g [-> _]%issuesError_Some Hg. by apply lookup_updateIssues_other.
Qed.

(** X5: a text that fails is returned trimmed by create and untouched by
    update: for a title that is rejected, [validateAndNormalizeCreate]
    returns the trimmed title and [validateAndNormalizeUpdate] the title as
    it came, under the same message. *)
Theorem update_leaves_rejected_title_untouched `{UnicodeCase}
    (in_ : CreateBookInput.t) (patch : UpdateBookInput.t) (v : string) :
  CreateBookInput.Title in_ = v → UpdateBookInput.Title patch = Some v →
  titleInvalid v = true →
  CreateBookInput.Title (fst (validateAndNormalizeCreate in_)) = TrimSpace v
  ∧ UpdateBookInput.Title (fst (validateAndNormalizeUpdate patch)) = Some v
  ∧ ∃ e1 e2, snd (validateAndNormalizeCreate in_) = Some e1
             ∧ snd (validateAndNormalizeUpdate patch) = Some e2
             ∧ fieldsOf e1 !! "title" = Some (titleMessage v)
             ∧ fieldsOf e2 !! "title" = Some (titleMessage v).
Proof.
  intros Hc Hu Hv. rewrite create_outcome, update_outcome. cbn [fst snd].
  destruct in_ as [t a i p y], patch as [t' a' i' p' y']. cbn in Hc, Hu. subst.
  unfold createNormalized, updateNormalized. cbn [CreateBookInput.Title UpdateBookInput.Title
    fmap option_fmap option_map]. rewrite Hv. split; [done|]. split; [done|].
  assert (L1 : createIssues (CreateBookInput.mk v a i p y) !! "title"
               = Some (titleMessage v)).
  { rewrite lookup_createIssues. repeat (rewrite decide_False by done).
    rewrite decide_True by done. cbn [CreateBookInput.Title]. rewrite Hv.
    apply lookup_singleton_eq. }
  assert (L2 : updateIssues (UpdateBookInput.mk (Some v) a' i' p' y') !! "title"
               = Some (titleMessage v)).
  { unfold updateIssues. rewrite !lookup_union, !lookup_optEntry by done.
    cbn [UpdateBookInput.Title optEntry]. rewrite Hv. cbn [entry].
    by rewrite lookup_singleton_eq. }
  unfold issuesError. rewrite !decide_False.
  - eexists _, _. split; [reflexivity|]. split; [reflexivity|]. split; [exact L1|exact L2].
  - intros Hm. by rewrite Hm, lookup_empty in L2.
  - intros Hm. by rewrite Hm, lookup_empty in L1.
Qed.

(** A title of two blanks. *)
Lemma update_leaves_rejected_title_untouched_witness :
  titleInvalid "  " = true
  ∧ CreateBookInput.Title
      (fst (@validateAndNormalizeCreate asciiCase
              (CreateBookInput.mk "  " "Ann" "0306406152" 1%float 1999)))
    = ""
  ∧ UpdateBookInput.Title
      (fst (@validateAndNormalizeUpdate asciiCase
              (UpdateBookInput.mk (Some "  ") None None None None)))
    = Some "  ".
Proof.
  split; [vm_compute; reflexivity|].
  pose proof (@update_leaves_rejected_title_untouched asciiCase
                (CreateBookInput.mk "  " "Ann" "0306406152" 1%float 1999)
                (UpdateBookInput.mk (Some "  ") None None None None)
                _ eq_refl eq_refl ltac:(vm_compute; reflexivity)) as (H1 & H2 & _).
  split; [rewrite H1; vm_compute; reflexivity|exact H2].
Defined.

(** X6: a patch that sets all five fields is judged as the create request
    with the same values, as long as the year is not zero: the two
    validators return the same error set, and on success the patch holds the
    values that create returns. *)
Theorem update_full_patch_agrees_with_create `{UnicodeCase} (in_ : CreateBookInput.t) :
  CreateBookInput.PublicationYear in_ ≠ 0 →
  snd (validateAndNormalizeUpdate (patchOf in_)) = snd (validateAndNormalizeCreate in_)
  ∧ (snd (validateAndNormalizeCreate in_) = None →
     fst (validateAndNormalizeUpdate (patchOf in_))
     = patchOf (fst (validateAndNormalizeCreate in_))).
Proof.
  intros Hy. rewrite create_outcome, update_outcome. cbn [fst snd].
  rewrite (updateIssues_patchOf in_ Hy). split; [reflexivity|].
  intros (Ht & Ha & Hi & _)%issuesError_None%createIssues_empty.
  destruct in_ as [t a i p y]. unfold updateNormalized, createNormalized, patchOf.
  cbn [UpdateBookInput.Title UpdateBookInput.Author UpdateBookInput.ISBN
       UpdateBookInput.Price UpdateBookInput.PublicationYear
       CreateBookInput.Title CreateBookInput.Author CreateBookInput.ISBN
       CreateBookInput.Price CreateBookInput.PublicationYear
       fmap option_fmap option_map] in *.
  by rewrite Ht, Ha, Hi.
Qed.

(** A request that both validators accept. *)
Lemma update_full_patch_agrees_with_create_witness :
  let in_ := CreateBookInput.mk " Dune" "Frank Herbert" "0-306-40615-2" 10.5%float 1965 in
  CreateBookInput.PublicationYear in_ ≠ 0
  ∧ snd (@validateAndNormalizeUpdate asciiCase (patchOf in_)) = None
  ∧ fst (@validateAndNormalizeUpdate asciiCase (patchOf in_))
    = patchOf (CreateBookInput.mk "Dune" "Frank Herbert" "0306406152" 10.5%float 1965).
Proof.
  cbv zeta. split; [discriminate|].
  pose proof (@update_full_patch_agrees_with_create asciiCase
                (CreateBookInput.mk " Dune" "Frank Herbert" "0-306-40615-2" 10.5%float 1965)
                ltac:(discriminate)) as [H1 H2].
  split; [rewrite H1; vm_compute; reflexivity|].
  rewrite H2; [vm_compute; reflexivity|vm_compute; reflexivity].
Defined.

(** X7: [normalizeISBN] is idempotent on ASCII text, and its result holds
    neither a space nor a hyphen nor a lower-case letter. *)
Theorem normalizeISBN_is_idempotent_on_ASCII `{UnicodeCase} (s : string) :
  isASCII s = true →
  normalizeISBN (normalizeISBN s) = normalizeISBN s
  ∧ noByte " " (normalizeISBN s) ∧ noByte "-" (normalizeISBN s)
  ∧ allS (λ c, negb (isLowerASCII (byteZ c))) (normalizeISBN s) = true.
Proof.
  intros Hs. destruct (normalizeISBN_ASCII s Hs) as (Ha & Hsp & Hhy & Hup).
  split; [|split; [exact Hsp|split; [exact Hhy|]]].
  - unfold normalizeISBN at 1.
    rewrite (ReplaceAll_id _ " " "" Hsp), (ReplaceAll_id _ "-" "" Hhy).
    unfold ToUpper. by rewrite Ha.
  - rewrite <- Hup, allS_mapS. unfold isASCII in Ha. eapply allS_impl; [|exact Ha].
    intros c. clear.
    destruct c as [[] [] [] [] [] [] [] []]; vm_compute; intros; try discriminate; reflexivity.
Qed.

Lemma normalizeISBN_is_idempotent_on_ASCII_witness :
  @isASCII "0-306-40615-x " = true
  ∧ @normalizeISBN asciiCase "0-306-40615-x " = "030640615X"
  ∧ @normalizeISBN asciiCase (@normalizeISBN asciiCase "0-306-40615-x ")
    = @normalizeISBN asciiCase "0-306-40615-x ".
Proof.
  split; [reflexivity|]. split; [vm_compute; reflexivity|].
  apply (@normalizeISBN_is_idempotent_on_ASCII asciiCase "0-306-40615-x "). reflexivity.
Defined.

(** X8: the normal form of a valid ISBN is made of digits and X only, is
    left alone by [normalizeISBN] and by [TrimSpace], and is valid: the ISBN
    that a create or update request stores is accepted again as it is. *)
Theorem valid_isbn_has_a_stable_normal_form `{UnicodeCase} (s : string) :
  isValidISBN s = true →
  allS isbnByte (normalizeISBN s) = true
  ∧ normalizeISBN (normalizeISBN s) = normalizeISBN s
  ∧ TrimSpace (normalizeISBN s) = normalizeISBN s
  ∧ isValidISBN (normalizeISBN s) = true.
Proof.
  intros Hv. split; [by apply valid_isbn_text|by apply valid_isbn_normal_form].
Qed.

Lemma valid_isbn_has_a_stable_normal_form_witness :
  @isValidISBN asciiCase "978-0-306-40615-7" = true
  ∧ @normalizeISBN asciiCase "978-0-306-40615-7" = "9780306406157"
  ∧ @isValidISBN asciiCase (@normalizeISBN asciiCase "978-0-306-40615-7") = true.
Proof.
  split; [vm_compute; reflexivity|]. split; [vm_compute; reflexivity|].
  apply (@valid_isbn_has_a_stable_normal_form asciiCase "978-0-306-40615-7").
  vm_compute. reflexivity.
Defined.

(** ** The identifier of a route *)

Section RouteID.

Lemma digitsValue_ge s acc : allS isDigit s = true → 0 <= acc → acc <= digitsValue s acc.
Proof.
  revert acc. induction s as [|c t IH]; intros acc Hs Hacc; cbn [digitsValue]; [lia|].
  cbn [allS] in Hs. apply andb_true_iff in Hs as [Hc%isDigit_range Ht].
  specialize (IH (acc * 10 + (byteZ c - 48)) Ht). lia.
Qed.

Lemma digit_char c :
  isDigit c = true →
  ((48 <=? byteZ c) && (byteZ c <=? 57)) = true ∧ 0 <= byteZ c - 48 <= 9.
Proof. intros Hc. split; [exact Hc|]. apply isDigit_range in Hc. lia. Qed.

Lemma non_digit_char c :
  isDigit c = false →
  ((48 <=? byteZ c) && (byteZ c <=? 57)) = false
  ∧ ((97 <=? strconv.lower c) && (strconv.lower c <=? 122) = true →
     (10 <=? strconv.lower c - 97 + 10) = true).
Proof.
  intros Hc. split; [exact Hc|]. rewrite andb_true_iff, !Z.leb_le. lia.
Qed.

Lemma parseUintLoop_digits s n :
  allS isDigit s = true → 0 <= n → digitsValue s n <= strconv.maxUint64 →
  strconv.parseUintLoop s n = (digitsValue s n, None).
Proof.
  revert n. induction s as [|c t IH]; intros n Hs Hn Hv; [done|].
  cbn [allS] in Hs. apply andb_true_iff in Hs as [Hc Ht].
  destruct (digit_char c Hc) as [Hd Hr]. cbn [strconv.parseUintLoop digitsValue] in *.
  rewrite Hd. cbv zeta.
  pose proof (digitsValue_ge t (n * 10 + (byteZ c - 48)) Ht ltac:(lia)) as Hge.
  unfold strconv.maxUint64 in *.
  replace (2 ^ 64 - 1) with 18446744073709551615 in * by reflexivity.
  replace (2 ^ 64) with 18446744073709551616 in * by reflexivity.
  replace (18446744073709551615 / 10 + 1) with 1844674407370955162 by reflexivity.
  destruct (10 <=? byteZ c - 48) eqn:E1; [apply Z.leb_le in E1; lia|].
  destruct (1844674407370955162 <=? n) eqn:E2; [apply Z.leb_le in E2; lia|].
  apply Z.leb_gt in E2.
  rewrite (Z.mod_small (n * 10)) by lia.
  rewrite (Z.mod_small (n * 10 + (byteZ c - 48))) by lia.
  destruct (n * 10 + (byteZ c - 48) <? n * 10) eqn:E3; [apply Z.ltb_lt in E3; lia|].
  destruct (18446744073709551615 <? n * 10 + (byteZ c - 48)) eqn:E4;
    [apply Z.ltb_lt in E4; lia|].
  cbn [orb]. apply IH; [exact Ht|lia|exact Hv].
Qed.

Lemma parseUintLoop_error s n :
  0 <= n < 2 ^ 64 →
  allS isDigit s = false ∨ strconv.maxUint64 < digitsValue s n →
  ∃ v e, strconv.parseUintLoop s n = (v, Some e)
         ∧ (e = strconv.ErrRange → v = strconv.maxUint64).
Proof.
  revert n. induction s as [|c t IH]; intros n Hn Hbad.
  { cbn in Hbad. unfold strconv.maxUint64 in Hbad. destruct Hbad; [done|lia]. }
  cbn [strconv.parseUintLoop]. destruct (isDigit c) eqn:Hc.
  - destruct (digit_char c Hc) as [Hd Hr]. rewrite Hd. cbv zeta.
    unfold strconv.maxUint64 in *.
    replace (2 ^ 64 - 1) with 18446744073709551615 in * by reflexivity.
    replace (2 ^ 64) with 18446744073709551616 in * by reflexivity.
    replace (18446744073709551615 / 10 + 1) with 1844674407370955162 by reflexivity.
    destruct (10 <=? byteZ c - 48) eqn:E1; [apply Z.leb_le in E1; lia|].
    destruct (1844674407370955162 <=? n) eqn:E2; [by eexists _, _|].
    apply Z.leb_gt in E2. rewrite (Z.mod_small (n * 10)) by lia.
    destruct (((n * 10 + (byteZ c - 48)) mod 18446744073709551616 <? n * 10)
              || (18446744073709551615 <? (n * 10 + (byteZ c - 48)) mod 18446744073709551616))
      eqn:E3; [by eexists _, _|].
    apply orb_false_iff in E3 as [E3 E4]. apply Z.ltb_ge in E3, E4.
    assert (Hsmall : n * 10 + (byteZ c - 48) < 18446744073709551616).
    { destruct (Z_lt_ge_dec (n * 10 + (byteZ c - 48)) 18446744073709551616) as [?|Hge];
        [done|exfalso].
      assert ((n * 10 + (byteZ c - 48)) mod 18446744073709551616
              = n * 10 + (byteZ c - 48) - 18446744073709551616) as Hm.
      { symmetry. apply (Z.mod_unique_pos _ _ 1); lia. }
      lia. }
    rewrite (Z.mod_small (n * 10 + (byteZ c - 48))) in * by lia.
    apply IH; [replace (2 ^ 64) with 18446744073709551616 by reflexivity; lia|].
    cbn [allS digitsValue] in Hbad. rewrite Hc in Hbad. exact Hbad.
  - destruct (non_digit_char c Hc) as [Hd Hl]. rewrite Hd.
    destruct ((97 <=? strconv.lower c) && (strconv.lower c <=? 122)) eqn:E.
    + rewrite (Hl eq_refl). by eexists _, _.
    + by eexists _, _.
Qed.

Lemma int64_small z : - 2 ^ 63 <= z < 2 ^ 63 → strconv.int64 z = z.
Proof.
  intros Hz. unfold strconv.int64.
  replace (2 ^ 63) with 9223372036854775808 in * by reflexivity.
  replace (2 ^ 64) with 18446744073709551616 by reflexivity.
  rewrite Z.mod_small; lia.
Qed.

Lemma int64_neg_nonpos un :
  0 <= un <= 2 ^ 63 → strconv.int64 (- strconv.int64 un) <= 0.
Proof.
  intros Hu. destruct (Z_lt_ge_dec un (2 ^ 63)) as [Hlt|Hge].
  - rewrite (int64_small un) by lia. rewrite int64_small; lia.
  - assert (un = 2 ^ 63) as -> by lia. vm_compute. discriminate.
Qed.

Lemma ParseUint_digits s :
  s ≠ "" → allS isDigit s = true → digitsValue s 0 <= strconv.maxUint64 →
  strconv.ParseUint s = (digitsValue s 0, None).
Proof.
  intros Hne Hs Hv. unfold strconv.ParseUint.
  rewrite (proj2 (isEmpty_false s) Hne). by apply parseUintLoop_digits.
Qed.

Lemma ParseUint_error s :
  s = "" ∨ allS isDigit s = false ∨ strconv.maxUint64 < digitsValue s 0 →
  ∃ v e, strconv.ParseUint s = (v, Some e) ∧ (e = strconv.ErrRange → v = strconv.maxUint64).
Proof.
  intros [->|Hbad]; [by eexists _, _|]. unfold strconv.ParseUint.
  destruct (isEmpty s); [by eexists _, _|].
  apply parseUintLoop_error; [vm_compute; split; [discriminate|reflexivity]|exact Hbad].
Qed.

(** [ParseUint] succeeds on the strings of digits whose value fits, and on
    no other. *)
Lemma ParseUint_spec s :
  (s ≠ "" ∧ allS isDigit s = true ∧ digitsValue s 0 <= strconv.maxUint64
   ∧ strconv.ParseUint s = (digitsValue s 0, None))
  ∨ ((s = "" ∨ allS isDigit s = false ∨ strconv.maxUint64 < digitsValue s 0)
     ∧ ∃ v e, strconv.ParseUint s = (v, Some e)
              ∧ (e = strconv.ErrRange → v = strconv.maxUint64)).
Proof.
  destruct (decide (s = "")) as [->|Hne]; [right; split; [by left|by apply ParseUint_error; left]|].
  destruct (allS isDigit s) eqn:Hs.
  2:{ right. split; [by right; left|]. apply ParseUint_error. by right; left. }
  destruct (Z_le_gt_dec (digitsValue s 0) strconv.maxUint64) as [Hv|Hv].
  - left. split; [done|]. split; [done|]. split; [done|]. by apply ParseUint_digits.
  - right. split; [right; right; lia|]. apply ParseUint_error. right; right. lia.
Qed.

(** The outcome of [ParseInt] on the text after the sign. *)
Lemma ParseInt_tail (neg : bool) s1 :
  (let '(un, err) := strconv.ParseUint s1 in
   match err with
   | Some strconv.ErrSyntax => (0, Some strconv.ErrSyntax)
   | _ =>
       if negb neg && (2 ^ 63 <=? un) then (strconv.int64 (2 ^ 63 - 1), Some strconv.ErrRange)
       else if neg && (2 ^ 63 <? un)
       then (strconv.int64 (- strconv.int64 (2 ^ 63)), Some strconv.ErrRange)
       else (if neg then strconv.int64 (- strconv.int64 un) else strconv.int64 un, None)
   end)
  = (if neg then strconv.int64 (- strconv.int64 (digitsValue s1 0)) else digitsValue s1 0, None)
    ∧ s1 ≠ "" ∧ allS isDigit s1 = true
    ∧ (if neg then digitsValue s1 0 <= 2 ^ 63 else digitsValue s1 0 < 2 ^ 63)
  ∨ (∃ v e, (let '(un, err) := strconv.ParseUint s1 in
             match err with
             | Some strconv.ErrSyntax => (0, Some strconv.ErrSyntax)
             | _ =>
                 if negb neg && (2 ^ 63 <=? un)
                 then (strconv.int64 (2 ^ 63 - 1), Some strconv.ErrRange)
                 else if neg && (2 ^ 63 <? un)
                 then (strconv.int64 (- strconv.int64 (2 ^ 63)), Some strconv.ErrRange)
                 else (if neg then strconv.int64 (- strconv.int64 un)
                       else strconv.int64 un, None)
             end) = (v, Some e))
    ∧ (s1 = "" ∨ allS isDigit s1 = false ∨ 2 ^ 63 <= digitsValue s1 0).
Proof.
  destruct (ParseUint_spec s1) as [(Hne & Hs & Hv & ->)|[Hbad (v & e & -> & He)]].
  - pose proof (digitsValue_ge s1 0 Hs ltac:(lia)) as Hpos.
    destruct neg; cbn [negb andb].
    + destruct (2 ^ 63 <? digitsValue s1 0) eqn:E.
      * right. split; [by eexists _, _|]. apply Z.ltb_lt in E. right; right; lia.
      * left. apply Z.ltb_ge in E. done.
    + destruct (2 ^ 63 <=? digitsValue s1 0) eqn:E.
      * right. split; [by eexists _, _|]. apply Z.leb_le in E. right; right; lia.
      * left. apply Z.leb_gt in E. rewrite int64_small by lia. done.
  - right. split.
    + destruct e; [by eexists _, _|]. rewrite (He eq_refl).
      destruct neg; cbn [negb andb]; by eexists _, _.
    + unfold strconv.maxUint64 in Hbad. destruct Hbad as [?|[?|?]]; [by left|by right; left|].
      right; right. lia.
Qed.

Lemma not_digit_sign c : Ascii.eqb c "+" = true ∨ Ascii.eqb c "-" = true → isDigit c = false.
Proof. intros [->%Ascii.eqb_eq| ->%Ascii.eqb_eq]; reflexivity. Qed.

End RouteID.

Lemma parseIDParam_spec (idStr : string) (id : Z) :
  Handler.parseIDParam idStr = Some id
  ↔ ∃ ds, (idStr = ds ∨ idStr = String "+" ds)
          ∧ ds ≠ "" ∧ allS isDigit ds = true
          ∧ id = digitsValue ds 0 ∧ 0 < id < 2 ^ 63.
Proof.
  unfold Handler.parseIDParam, strconv.ParseInt.
  destruct idStr as [|c t].
  { cbn. split; [discriminate|]. intros (ds & [<-|?] & ? & _); done. }
  cbn [isEmpty at_ String.get dropS]. change (at_ (String c t) 0) with c.
  destruct (Ascii.eqb c "+") eqn:Eplus; [|destruct (Ascii.eqb c "-") eqn:Eminus].
  - apply Ascii.eqb_eq in Eplus as ->.
    destruct (ParseInt_tail false t) as [(-> & Hne & Hs & Hv)|[(v & e & ->) Hbad]].
    + pose proof (digitsValue_ge t 0 Hs ltac:(lia)) as Hpos.
      destruct (digitsValue t 0 <=? 0) eqn:E.
      * apply Z.leb_le in E. split; [discriminate|].
        intros (ds & [Hd|[= <-]] & _ & Hds & -> & Hr); [by rewrite <- Hd in Hds|lia].
      * apply Z.leb_gt in E. split.
        -- intros [= <-]. exists t. split; [by right|]. done.
        -- intros (ds & [Hd|[= <-]] & _ & Hds & -> & Hr); [by rewrite <- Hd in Hds|done].
    + split; [discriminate|].
      intros (ds & [Hd|[= <-]] & Hne & Hds & -> & Hr); [by rewrite <- Hd in Hds|].
      destruct Hbad as [?|[?|?]]; [done|congruence|lia].
  - apply Ascii.eqb_eq in Eminus as ->.
    assert (Hno : ¬ ∃ ds, (String "-" t = ds ∨ String "-" t = String "+" ds)
                          ∧ ds ≠ "" ∧ allS isDigit ds = true
                          ∧ id = digitsValue ds 0 ∧ 0 < id < 2 ^ 63).
    { intros (ds & [Hd|?] & _ & Hds & _); [by rewrite <- Hd in Hds|done]. }
    destruct (ParseInt_tail true t) as [(-> & Hne & Hs & Hv)|[(v & e & ->) Hbad]].
    + pose proof (digitsValue_ge t 0 Hs ltac:(lia)) as Hpos.
      pose proof (int64_neg_nonpos (digitsValue t 0) ltac:(lia)) as Hle.
      apply Z.leb_le in Hle. rewrite Hle. split; [discriminate|]. intros ?. by destruct Hno.
    + split; [discriminate|]. intros ?. by destruct Hno.
  - destruct (ParseInt_tail false (String c t)) as [(-> & Hne & Hs & Hv)|[(v & e & ->) Hbad]].
    + pose proof (digitsValue_ge (String c t) 0 Hs ltac:(lia)) as Hpos.
      destruct (digitsValue (String c t) 0 <=? 0) eqn:E.
      * apply Z.leb_le in E. split; [discriminate|].
        intros (ds & [<-|[= -> _]] & _ & Hds & -> & Hr); [lia|done].
      * apply Z.leb_gt in E. split.
        -- intros [= <-]. exists (String c t). split; [by left|]. done.
        -- intros (ds & [<-|[= -> _]] & _ & Hds & -> & Hr); done.
    + split; [discriminate|].
      intros (ds & [<-|[= -> _]] & Hne & Hds & -> & Hr); [|done].
      destruct Hbad as [?|[?|?]]; [done|congruence|lia].
Qed.

(** X9: [parseIDParam] accepts a route parameter exactly when it is a
    non-empty string of decimal digits, with an optional plus sign in front,
    whose value lies between 1 and 2^63 - 1, and returns that value; zero,
    negative numbers, blanks and anything above the int64 range are answered
    with [400 invalid id]. *)
Theorem parseIDParam_accepts_iff (idStr : string) (id : Z) :
  Handler.parseIDParam idStr = Some id
  ↔ ∃ ds, (idStr = ds ∨ idStr = String "+" ds)
          ∧ ds ≠ "" ∧ allS isDigit ds = true
          ∧ id = digitsValue ds 0 ∧ 0 < id < 2 ^ 63.
Proof. apply parseIDParam_spec. Qed.

(** ** The books that reach the repository *)

Section Service.
Context `{UnicodeCase} {S : Type} `{!ports.BookRepository S}.

Lemma withinBytes_trimmed n s : withinBytes n s → withinBytes n (TrimSpace s).
Proof. unfold withinBytes. by rewrite TrimSpace_idempotent. Qed.

Lemma validBook_bookOf in_ now :
  createIssues in_ = ∅ → validBook (bookOf (createNormalized in_) now).
Proof.
  intros (Ht & Ha & Hi & Hy & Hp)%createIssues_empty.
  destruct in_ as [t a i p y]. unfold validBook, bookOf, createNormalized.
  cbn [CreateBookInput.Title CreateBookInput.Author CreateBookInput.ISBN
       CreateBookInput.Price CreateBookInput.PublicationYear
       domain.Title domain.Author domain.ISBN domain.Price domain.PublicationYear] in *.
  rewrite Hi. pose proof Hi as Hv%isbnInvalid_valid.
  destruct (valid_isbn_text _ Hv) as [Htext _].
  destruct (valid_isbn_normal_form _ Hv) as (_ & _ & Hvn).
  split; [by apply withinBytes_trimmed, titleInvalid_bytes|].
  split; [apply TrimSpace_idempotent|].
  split; [by apply withinBytes_trimmed, authorInvalid_bytes|].
  split; [apply TrimSpace_idempotent|].
  split; [exact Htext|]. split; [exact Hvn|].
  split; [by apply yearInvalid_range|exact Hp].
Qed.

Lemma CreateBook_run now in_ st :
  bookService.CreateBook now in_ st
  = match issuesError (createIssues in_) with
    | Some ve => ((None, Some (builtin.validationError ve)), st)
    | None =>
        afterCreate (bookOf (createNormalized in_) now)
          (ports.Create (bookOf (createNormalized in_) now) st)
    end.
Proof.
  unfold bookService.CreateBook. rewrite create_outcome.
  destruct (issuesError (createIssues in_)); [reflexivity|].
  unfold afterCreate, bookOf, withID.
  destruct (ports.Create _ st) as [[id [e|]] st']; reflexivity.
Qed.

Lemma UpdateBook_run now id in_ st :
  bookService.UpdateBook now id in_ st
  = match ports.GetByID id st with
    | ((_, Some e), st1) => ((None, Some e), st1)
    | ((None, None), st1) => ((None, Some (builtin.errorString "book not found")), st1)
    | ((Some existing, None), st1) =>
        match issuesError (updateIssues in_) with
        | Some ve => ((None, Some (builtin.validationError ve)), st1)
        | None =>
            afterUpdate (bookService.applyPatch existing (updateNormalized in_) now)
              (ports.Update (bookService.applyPatch existing (updateNormalized in_) now) st1)
        end
    end.
Proof.
  unfold bookService.UpdateBook. destruct (ports.GetByID id st) as [[[ex|] [e|]] st1]; try done.
  rewrite update_outcome. destruct (issuesError (updateIssues in_)); [reflexivity|].
  unfold afterUpdate. destruct (ports.Update _ st1) as [[e|] st2]; reflexivity.
Qed.

Lemma validBook_applyPatch ex in_ now :
  validBook ex → updateIssues in_ = ∅ →
  validBook (bookService.applyPatch ex (updateNormalized in_) now).
Proof.
  intros (V1 & V2 & V3 & V4 & V5 & V6 & V7 & V8) (Ht & Ha & Hi & Hy & Hp)%updateIssues_empty.
  destruct in_ as [t a i p y]. unfold validBook, bookService.applyPatch, updateNormalized.
  cbn [UpdateBookInput.Title UpdateBookInput.Author UpdateBookInput.ISBN
       UpdateBookInput.Price UpdateBookInput.PublicationYear
       domain.Title domain.Author domain.ISBN domain.Price domain.PublicationYear] in *.
  split; [|split; [|split; [|split; [|split; [|split; [|split]]]]]].
  - destruct t as [v|]; cbn [fmap option_fmap option_map]; [|exact V1].
    rewrite (Ht v eq_refl). by apply withinBytes_trimmed, titleInvalid_bytes, Ht.
  - destruct t as [v|]; cbn [fmap option_fmap option_map]; [|exact V2].
    rewrite (Ht v eq_refl). apply TrimSpace_idempotent.
  - destruct a as [v|]; cbn [fmap option_fmap option_map]; [|exact V3].
    rewrite (Ha v eq_refl). by apply withinBytes_trimmed, authorInvalid_bytes, Ha.
  - destruct a as [v|]; cbn [fmap option_fmap option_map]; [|exact V4].
    rewrite (Ha v eq_refl). apply TrimSpace_idempotent.
  - destruct i as [v|]; cbn [fmap option_fmap option_map]; [|exact V5].
    rewrite (Hi v eq_refl). by apply valid_isbn_text, isbnInvalid_valid, Hi.
  - destruct i as [v|]; cbn [fmap option_fmap option_map]; [|exact V6].
    rewrite (Hi v eq_refl). by apply valid_isbn_normal_form, isbnInvalid_valid, Hi.
  - destruct y as [v|]; [by apply yearInvalidUpdate_range, Hy|exact V7].
  - destruct p as [v|]; [by apply Hp|exact V8].
Qed.

End Service.

Lemma validBook_dune : @validBook asciiCase dune.
Proof.
  unfold validBook, withinBytes.
  repeat split; try (vm_compute; reflexivity); try (vm_compute; lia); vm_compute; discriminate.
Qed.

(** X10: [CreateBook] calls the repository only with a book that satisfies
    the invariant of stored books.  When validation fails the repository is
    not called: the state of the store is the one before the call and the
    error is the validation error.  Otherwise [Create] is called once, with
    a valid book whose identifier is zero and whose two time stamps are the
    time read; the service returns that book with the identifier that
    [Create] gave, or the error of [Create]. *)
Theorem CreateBook_hands_only_valid_books_to_the_repository
    `{UnicodeCase} {S : Type} `{!ports.BookRepository S}
    (now : domain.Time) (in_ : CreateBookInput.t) (st : S) :
  (∀ ve, snd (validateAndNormalizeCreate in_) = Some ve →
     bookService.CreateBook now in_ st = ((None, Some (builtin.validationError ve)), st))
  ∧ (snd (validateAndNormalizeCreate in_) = None →
     ∃ b, validBook b ∧ domain.ID b = 0
          ∧ domain.CreatedAt b = now ∧ domain.UpdatedAt b = now
          ∧ bookService.CreateBook now in_ st = afterCreate b (ports.Create b st)).
Proof.
  rewrite CreateBook_run, create_outcome. cbn [snd]. split.
  - intros ve ->. reflexivity.
  - intros Hnone. rewrite Hnone. apply issuesError_None in Hnone.
    exists (bookOf (createNormalized in_) now).
    split; [by apply validBook_bookOf|]. done.
Qed.

(** X11: [UpdateBook] preserves the invariant of stored books.  For a book
    that the repository returns and that satisfies the invariant: when the
    patch fails validation [Update] is not called; otherwise [Update] is
    called once with a book that satisfies the invariant again, has the
    identifier and the creation time of the book read, the time read as its
    update time, and the old value in every field that the patch leaves
    out. *)
Theorem UpdateBook_preserves_the_invariant
    `{UnicodeCase} {S : Type} `{!ports.BookRepository S}
    (now : domain.Time) (id : Z) (in_ : UpdateBookInput.t) (st st1 : S)
    (existing : domain.Book) :
  ports.GetByID id st = ((Some existing, None), st1) →
  validBook existing →
  (∀ ve, snd (validateAndNormalizeUpdate in_) = Some ve →
     bookService.UpdateBook now id in_ st = ((None, Some (builtin.validationError ve)), st1))
  ∧ (snd (validateAndNormalizeUpdate in_) = None →
     ∃ b, validBook b
          ∧ domain.ID b = domain.ID existing
          ∧ domain.CreatedAt b = domain.CreatedAt existing
          ∧ domain.UpdatedAt b = now
          ∧ (UpdateBookInput.Title in_ = None → domain.Title b = domain.Title existing)
          ∧ (UpdateBookInput.Author in_ = None → domain.Author b = domain.Author existing)
          ∧ (UpdateBookInput.ISBN in_ = None → domain.ISBN b = domain.ISBN existing)
          ∧ (UpdateBookInput.Price in_ = None → domain.Price b = domain.Price existing)
          ∧ (UpdateBookInput.PublicationYear in_ = None →
             domain.PublicationYear b = domain.PublicationYear existing)
          ∧ bookService.UpdateBook now id in_ st = afterUpdate b (ports.Update b st1)).
Proof.
  intros Hget Hvalid. rewrite UpdateBook_run, Hget, update_outcome. cbn [snd]. split.
  - intros ve ->. reflexivity.
  - intros Hnone. rewrite Hnone. apply issuesError_None in Hnone.
    exists (bookService.applyPatch existing (updateNormalized in_) now).
    split; [by apply validBook_applyPatch|].
    unfold bookService.applyPatch, updateNormalized.
    cbn [domain.ID domain.Title domain.Author domain.ISBN domain.Price
         domain.PublicationYear domain.CreatedAt domain.UpdatedAt
         UpdateBookInput.Title UpdateBookInput.Author UpdateBookInput.ISBN
         UpdateBookInput.Price UpdateBookInput.PublicationYear].
    repeat split; by intros ->.
Qed.

(** A patch of the price of a stored book. *)
Lemma UpdateBook_preserves_the_invariant_witness :
  @ports.GetByID unit (mockRepo.repository duneRepo) 7 tt = ((Some dune, None), tt)
  ∧ @validBook asciiCase dune
  ∧ ∃ b, @validBook asciiCase b
         ∧ domain.Title b = "Dune" ∧ domain.Price b = 12.25%float
         ∧ domain.UpdatedAt b = 200
         ∧ @bookService.UpdateBook asciiCase unit (mockRepo.repository duneRepo) 200 7
             (pricePatch 12.25%float) tt
           = ((Some b, None), tt).
Proof.
  split; [reflexivity|]. split; [exact validBook_dune|].
  destruct (@UpdateBook_preserves_the_invariant asciiCase unit (mockRepo.repository duneRepo)
              200 7 (pricePatch 12.25%float) tt tt dune eq_refl validBook_dune)
    as [_ Hok].
  destruct (Hok ltac:(vm_compute; reflexivity))
    as (b & Hv & _ & _ & Hu & Ht & _ & _ & _ & _ & Hrun).
  exists b. split; [exact Hv|]. split; [exact (Ht eq_refl)|].
  rewrite Hrun. unfold afterUpdate. cbn.
  assert (Hb : b = domain.mk 7 "Dune" "Frank Herbert" "0306406152" 12.25%float 1965 100 200).
  { cbn in Hrun. vm_compute in Hrun. by injection Hrun as <-. }
  subst b. done.
Defined.

(** X12: an identifier that the repository does not know is answered with
    [404 not found] before the patch is looked at: whatever the patch, valid
    or not, the handler of PUT writes that answer and [Update] is not
    called. *)
Theorem UpdateBook_answers_not_found_before_validation
    `{UnicodeCase} {S : Type} `{!ports.BookRepository S}
    (now : domain.Time) (idStr : string) (id : Z) (in_ : UpdateBookInput.t) (st st1 : S) :
  Handler.parseIDParam idStr = Some id →
  ports.GetByID id st = ((None, None), st1) →
  Handler.UpdateBook now idStr (Some in_) st = (Handler.httpError 404 "not found", st1)
  ∧ bookService.UpdateBook now id in_ st
    = ((None, Some (builtin.errorString "book not found")), st1).
Proof.
  intros Hid Hget. unfold Handler.UpdateBook. rewrite Hid, UpdateBook_run, Hget. done.
Qed.

(** An empty store and a patch that would fail validation. *)
Lemma UpdateBook_answers_not_found_before_validation_witness :
  Handler.parseIDParam "42" = Some 42
  ∧ snd (@validateAndNormalizeUpdate asciiCase (pricePatch (-1)%float)) ≠ None
  ∧ @Handler.UpdateBook asciiCase unit (mockRepo.repository emptyRepo) 5 "42"
      (Some (pricePatch (-1)%float)) tt
    = (Handler.httpError 404 "not found", tt).
Proof.
  split; [vm_compute; reflexivity|]. split; [vm_compute; discriminate|].
  apply (@UpdateBook_answers_not_found_before_validation asciiCase unit
           (mockRepo.repository emptyRepo) 5 "42" 42 (pricePatch (-1)%float) tt tt).
  - vm_compute; reflexivity.
  - reflexivity.
Defined.

(** X13: a route parameter that is not the decimal text of a positive int64
    never reaches the service: the handlers of GET, PUT and DELETE answer
    [400 invalid id] and leave the store as it is. *)
Theorem bad_identifier_never_reaches_the_repository
    `{UnicodeCase} {S : Type} `{!ports.BookRepository S}
    (idStr : string) (now : domain.Time) (decoded : option UpdateBookInput.t) (st : S) :
  (∀ ds, (idStr = ds ∨ idStr = String "+" ds) → ds ≠ "" → allS isDigit ds = true →
         ¬ 0 < digitsValue ds 0 < 2 ^ 63) →
  Handler.GetBook idStr st = (Handler.httpError 400 "invalid id", st)
  ∧ Handler.UpdateBook now idStr decoded st = (Handler.httpError 400 "invalid id", st)
  ∧ Handler.DeleteBook idStr st = (Handler.httpError 400 "invalid id", st).
Proof.
  intros Hbad.
  assert (Hid : Handler.parseIDParam idStr = None).
  { destruct (Handler.parseIDParam idStr) as [id|] eqn:E; [|reflexivity].
    apply parseIDParam_spec in E as (ds & Hs & Hne & Hds & -> & Hr).
    by destruct (Hbad ds Hs Hne Hds). }
  unfold Handler.GetBook, Handler.UpdateBook, Handler.DeleteBook. by rewrite Hid.
Qed.

(** The identifier zero. *)
Lemma bad_identifier_never_reaches_the_repository_witness :
  @Handler.DeleteBook unit (mockRepo.repository duneRepo) "0" tt
  = (Handler.httpError 400 "invalid id", tt).
Proof.
  apply (@bad_identifier_never_reaches_the_repository asciiCase unit
           (mockRepo.repository duneRepo) "0" 0 None tt).
  intros ds [<-|[=]] _ _. vm_compute. intros [? _]. discriminate.
Defined.

(** X14: the answers of the handler of POST.  A body that does not decode
    is answered 400 and a request that fails validation 422 with its error
    set, both without a call of the repository; and every answer 201
    carries a book that satisfies the invariant of stored books, created at
    the time read. *)
Theorem CreateBook_handler_answers
    `{UnicodeCase} {S : Type} `{!ports.BookRepository S}
    (now : domain.Time) (decoded : option CreateBookInput.t) (st : S) :
  (decoded = None →
     Handler.CreateBook now decoded st = (Handler.httpError 400 "invalid JSON body", st))
  ∧ (∀ in_ ve, decoded = Some in_ → snd (validateAndNormalizeCreate in_) = Some ve →
       Handler.CreateBook now decoded st = (Handler.httpValidation ve, st))
  ∧ (Handler.status (fst (Handler.CreateBook now decoded st)) = 201 →
     ∃ in_ b, decoded = Some in_
              ∧ snd (validateAndNormalizeCreate in_) = None
              ∧ Handler.body (fst (Handler.CreateBook now decoded st))
                = Handler.encBook (Some b)
              ∧ validBook b ∧ domain.CreatedAt b = now ∧ domain.UpdatedAt b = now).
Proof.
  split; [by intros ->|]. split.
  - intros in_ ve -> Hve. unfold Handler.CreateBook.
    rewrite CreateBook_run. rewrite create_outcome in Hve. cbn [snd] in Hve. by rewrite Hve.
  - destruct decoded as [in_|]; [|discriminate]. unfold Handler.CreateBook.
    rewrite CreateBook_run.
    destruct (issuesError (createIssues in_)) as [ve|] eqn:Hi; [discriminate|].
    pose proof Hi as Hnone.
    apply issuesError_None in Hi.
    pose proof (validBook_bookOf in_ now Hi) as Hv.
    unfold afterCreate. destruct (ports.Create _ st) as [[id [e|]] st'].
    + destruct e; cbn; [discriminate|]. discriminate.
    + cbn. intros _. exists in_, (withID id (bookOf (createNormalized in_) now)).
      split; [done|]. split; [by rewrite create_outcome|]. split; [done|].
      split; [exact Hv|]. done.
Qed.

Section Cleanup.
Context `{UnicodeCase}.

Lemma dispatch_not_invalid_url op u : dispatch op u ≠ inr invalid_url.
Proof.
  unfold dispatch.
  destruct (String.eqb op "canonical"); [discriminate|].
  destruct (String.eqb op "redirection"); [discriminate|].
  destruct (String.eqb op "all"); [|discriminate].
  destruct (Parse (applyRedirection u)); discriminate.
Qed.

Lemma fold_splitAndTrim l acc :
  fold_left
    (λ out p, let p := TrimSpace p in if negb (isEmpty p) then out ++ [p] else out) l acc
  = acc ++ filter (λ p, p ≠ "") (TrimSpace <$> l).
Proof.
  revert acc. induction l as [|p l IH]; intros acc; cbn [fold_left fmap list_fmap].
  - by rewrite filter_nil, app_nil_r.
  - rewrite IH. cbv zeta. rewrite filter_cons.
    destruct (TrimSpace p) eqn:E; cbn [isEmpty negb].
    + by rewrite decide_False by (intros ?; done).
    + rewrite decide_True by done. by rewrite <- app_assoc.
Qed.

End Cleanup.

(** X15: the answers of [CleanupURL].  A body that does not decode is
    answered 400.  A URL that does not parse with a scheme and a host is
    answered [400 invalid url] whatever the operation, and this answer is
    given in no other case.  The answer is 200 exactly when [processURL]
    returns a text for the operation in lower case and trimmed, and is 400
    otherwise. *)
Theorem CleanupURL_answers `{UnicodeCase} (req : Handler.cleanupRequest) :
  Handler.CleanupURL None = Handler.httpError 400 "invalid JSON body"
  ∧ (Handler.CleanupURL (Some req) = Handler.httpError 400 "invalid url"
     ↔ ¬ ∃ u, validURL (Handler.URL req) u)
  ∧ (Handler.status (Handler.CleanupURL (Some req)) = 200
     ↔ ∃ out, processURL (ToLower (TrimSpace (Handler.Operation req))) (Handler.URL req)
              = inl out
              ∧ Handler.CleanupURL (Some req) = Handler.jsonOK (Handler.encCleanup out))
  ∧ (Handler.status (Handler.CleanupURL (Some req)) = 200
     ∨ Handler.status (Handler.CleanupURL (Some req)) = 400).
Proof.
  split; [reflexivity|]. unfold Handler.CleanupURL.
  set (op := ToLower (TrimSpace (Handler.Operation req))).
  split; [|split].
  - split.
    + intros Hr [u Hu]. rewrite (processURL_valid op _ u Hu) in Hr.
      pose proof (dispatch_not_invalid_url op u) as Hd.
      destruct (dispatch op u) as [out|[]]; try discriminate. by apply Hd.
    + intros Hn. by rewrite (processURL_invalid op _ Hn).
  - destruct (processURL op (Handler.URL req)) as [out|e]; cbn.
    + split; [intros _; by exists out|done].
    + split; [discriminate|]. by intros (out & ? & _).
  - destruct (processURL op (Handler.URL req)) as [out|e]; cbn; [by left|by right].
Qed.

(** X16: [splitAndTrim] returns, in order, the trimmed pieces of the split
    that are not empty: no element is empty and every element is a fixed
    point of [TrimSpace]. *)
Theorem splitAndTrim_elements_are_trimmed_and_not_empty (s sep : string) :
  main.splitAndTrim s sep = filter (λ p, p ≠ "") (TrimSpace <$> Strings.Split s sep)
  ∧ Forall (λ p, p ≠ "" ∧ TrimSpace p = p ∧ ∃ piece, piece ∈ Strings.Split s sep
                                                    ∧ p = TrimSpace piece)
      (main.splitAndTrim s sep).
Proof.
  unfold main.splitAndTrim. rewrite fold_splitAndTrim. cbn [app].
  split; [reflexivity|]. apply Forall_forall. intros p Hp.
  apply list_elem_of_filter in Hp as [Hne Hp].
  apply list_elem_of_fmap in Hp as (piece & -> & Hpiece).
  split; [exact Hne|]. split; [apply TrimSpace_idempotent|eauto].
Qed.

(** X17: an environment variable that is set to the empty string counts as
    not set: [getEnv] returns the value of a variable exactly when that
    value is not empty, and the default otherwise; the five defaulted fields
    of [loadConfig] are therefore never empty. *)
Theorem getEnv_never_returns_an_empty_setting (env : gmap string string) (k def : string) :
  (main.getEnv env k def = def ∨ (main.getEnv env k def ≠ "" ∧ env !! k = Some (main.getEnv env k def)))
  ∧ (∀ v, v ≠ "" → main.getEnv (<[k := v]> env) k def = v)
  ∧ main.getEnv (<[k := ""]> env) k def = def
  ∧ main.getEnv (delete k env) k def = def
  ∧ main.Host (main.loadConfig env) ≠ ""
  ∧ main.PortDB (main.loadConfig env) ≠ ""
  ∧ main.DBName (main.loadConfig env) ≠ ""
  ∧ main.Params (main.loadConfig env) ≠ ""
  ∧ main.Port (main.loadConfig env) ≠ "".
Proof.
  assert (Hne : ∀ e k' d, d ≠ "" → main.getEnv e k' d ≠ "").
  { intros e k' d Hd. unfold main.getEnv, main.Getenv. cbv zeta.
    destruct (e !! k') as [[|c t]|]; cbn; done. }
  split; [|split; [|split; [|split]]].
  - unfold main.getEnv, main.Getenv. cbv zeta.
    destruct (env !! k) as [[|c t]|]; cbn; [by left|right; done|by left].
  - intros v Hv. unfold main.getEnv, main.Getenv. rewrite lookup_insert_eq. cbn.
    by destruct v.
  - unfold main.getEnv, main.Getenv. by rewrite lookup_insert_eq.
  - unfold main.getEnv, main.Getenv. by rewrite lookup_delete_eq.
  - unfold main.loadConfig. cbn. repeat split; by apply Hne.
Qed.

(** ** The host of a redirection *)

Section RedirectHost.
Context `{UnicodeCase}.

Lemma lowerByte_facts c :
  (byteZ c <? RuneSelf) = true →
  (byteZ (lowerByte c) <? RuneSelf) = true
  ∧ isUpperASCII (byteZ (lowerByte c)) = false
  ∧ Ascii.eqb (lowerByte c) ":" = Ascii.eqb c ":".
Proof.
  destruct c as [[] [] [] [] [] [] [] []]; vm_compute; intros; try discriminate; done.
Qed.

(** A text in ASCII without capital letters. *)
Lemma ToLower_ASCII s :
  isASCII s = true →
  ToLower s = mapS lowerByte s
  ∧ isASCII (ToLower s) = true
  ∧ allS (λ c, negb (isUpperASCII (byteZ c))) (ToLower s) = true.
Proof.
  intros Hs. unfold ToLower. rewrite Hs. split; [reflexivity|].
  unfold isASCII in *. split.
  - clear H. induction s as [|c s IH]; [done|]. cbn [allS mapS] in *.
    apply andb_true_iff in Hs as [Hc Hs]. destruct (lowerByte_facts c Hc) as (-> & _).
    by apply IH.
  - clear H. induction s as [|c s IH]; [done|]. cbn [allS mapS] in *.
    apply andb_true_iff in Hs as [Hc Hs]. destruct (lowerByte_facts c Hc) as (_ & -> & _).
    by apply IH.
Qed.

Lemma ToLower_fixed s :
  isASCII s = true → allS (λ c, negb (isUpperASCII (byteZ c))) s = true → ToLower s = s.
Proof. intros Hs Hl. unfold ToLower. rewrite Hs. by apply mapS_lowerByte_id. Qed.

Lemma needsWWW_www s : needsWWW ("www." +:+ s) = false.
Proof. unfold needsWWW. by rewrite HasPrefix_app. Qed.

(** Putting [www.] in front of a name, when [needsWWW] asks for it, gives a
    name for which it asks no more. *)
Lemma needsWWW_settled s :
  needsWWW (if needsWWW s then "www." +:+ s else s) = false.
Proof. destruct (needsWWW s) eqn:E; [apply needsWWW_www|exact E]. Qed.

Lemma redirectHost_lower h :
  redirectHost h
  = match IndexByte (ToLower h) ":" with
    | Some idx =>
        (if needsWWW (takeS idx (ToLower h))
         then "www." +:+ takeS idx (ToLower h) else takeS idx (ToLower h))
        +:+ dropS idx (ToLower h)
    | None => if needsWWW (ToLower h) then "www." +:+ ToLower h else ToLower h
    end.
Proof. reflexivity. Qed.

Lemma www_prefix_props (p : ascii → bool) s (b : bool) :
  allS p "www." = true → allS p s = true →
  allS p (if b then "www." +:+ s else s) = true.
Proof. intros Hw Hs. destruct b; [|exact Hs]. by rewrite allS_app, Hw, Hs. Qed.

Lemma redirectHost_idem h :
  isASCII h = true → redirectHost (redirectHost h) = redirectHost h.
Proof.
  intros Hh. destruct (ToLower_ASCII h Hh) as (_ & Ha & Hl).
  rewrite (redirectHost_lower h). set (host := ToLower h) in *.
  destruct (IndexByte host ":") as [idx|] eqn:Hi.
  - destruct (IndexByte_Some _ _ _ Hi) as (t & Hsplit & Hno & Hdrop & Hlen).
    set (a := takeS idx host) in *. rewrite Hdrop.
    set (a' := if needsWWW a then "www." +:+ a else a).
    assert (Ha' : noByte ":" a') by (by apply www_prefix_props).
    assert (HaA : isASCII a = true) by (by apply allS_takeS).
    assert (HaL : allS (λ c, negb (isUpperASCII (byteZ c))) a = true) by (by apply allS_takeS).
    assert (HtA : isASCII (String ":" t) = true
                  ∧ allS (λ c, negb (isUpperASCII (byteZ c))) (String ":" t) = true).
    { rewrite <- Hdrop. split; by apply allS_dropS. }
    destruct HtA as [HtA HtL].
    assert (Hfix : ToLower (a' +:+ String ":" t) = a' +:+ String ":" t).
    { apply ToLower_fixed.
      - unfold isASCII. rewrite allS_app. fold (isASCII (String ":" t)). rewrite HtA, andb_true_r.
        by apply www_prefix_props.
      - rewrite allS_app, HtL, andb_true_r. by apply www_prefix_props. }
    rewrite (redirectHost_lower (a' +:+ String ":" t)), Hfix.
    rewrite (IndexByte_app ":" a' t Ha'), takeS_app, dropS_length_app.
    unfold a'. by rewrite needsWWW_settled.
  - apply IndexByte_None in Hi.
    set (r := if needsWWW host then "www." +:+ host else host).
    assert (Hr : noByte ":" r) by (by apply www_prefix_props).
    assert (Hfix : ToLower r = r).
    { apply ToLower_fixed; by apply www_prefix_props. }
    rewrite (redirectHost_lower r), Hfix.
    apply IndexByte_None in Hr. rewrite Hr. unfold r. by rewrite needsWWW_settled.
Qed.

Lemma set_Path_same u : set_Path (Path u) u = u.
Proof. by destruct u. Qed.

End RedirectHost.

(** X18: what [canonical] keeps and what it drops.  On a URL that parses
    with a scheme and a host (a host in brackets having only ASCII in its
    zone) the output of [processURL] for [canonical] parses again, into a
    URL with the same scheme, user information and host, the path without
    one trailing slash, no query and no fragment. *)
Theorem canonical_output_parses_back `{UnicodeCase} (raw : string) (u : URL) :
  validURL raw u →
  bracketedZoneASCII (Host u) = true →
  ∃ out u2,
    processURL "canonical" raw = inl out
    ∧ Parse out = Some u2
    ∧ Scheme u2 = Scheme u ∧ User u2 = User u ∧ Host u2 = Host u
    ∧ Path u2 = TrimSuffix (Path u) "/"
    ∧ RawQuery u2 = "" ∧ Fragment u2 = "" ∧ ForceQuery u2 = ForceQuery u.
Proof.
  intros Hv Hzone. pose proof (Parse_inv raw u Hv) as (Hsch & Hop & [a Ha] & Hwf).
  destruct Hv as (HP & Hs & Hh).
  destruct (parseAuthority_shape _ _ _ Ha) as [[r Hr] Huser].
  pose proof (parseHost_escape _ (parseHost_shape _ _ Hr Hh) Hh Hzone) as Hhost.
  pose proof (parseAuthority_text _ _ Huser Hhost) as Hauth.
  set (v := canonicalized u).
  assert (Hwfv : pathWF v).
  { destruct Hwf as [Hp1 Hp2]. split; [by apply TrimSuffix_first|exact Hp2]. }
  destruct (EscapedPath_round_trip v Hwfv) as (Hep & Hq & Hhash & Hctl & rp & Hsp & Hrt).
  assert (Hout : String_ v
                 = canonicalText (Scheme u) (User u) (Host u) (EscapedPath v) (ForceQuery u)).
  { rewrite (String_canonicalText v);
      [reflexivity|exact Hs|exact Hop|exact Hh|reflexivity|reflexivity|exact Hep]. }
  eexists (String_ v), _. split.
  { unfold processURL. rewrite HP.
    by rewrite (proj2 (isEmpty_false _) Hs), (proj2 (isEmpty_false _) Hh). }
  rewrite Hout.
  rewrite (Parse_canonicalText _ _ _ _ _ _ _ Hsch Hauth Hep Hq Hhash Hctl Hsp).
  split; [reflexivity|]. cbn. done.
Qed.

(** A URL with a query, a fragment and a trailing slash. *)
Lemma canonical_output_parses_back_witness :
  ∃ u, @validURL asciiCase "https://User@Example.com:8080/A/b/?x=1#top" u
       ∧ bracketedZoneASCII (Host u) = true
       ∧ ∃ out u2,
           @processURL asciiCase "canonical" "https://User@Example.com:8080/A/b/?x=1#top"
           = inl out
           ∧ @Parse asciiCase out = Some u2
           ∧ Scheme u2 = Scheme u ∧ User u2 = User u ∧ Host u2 = Host u
           ∧ Path u2 = TrimSuffix (Path u) "/"
           ∧ RawQuery u2 = "" ∧ Fragment u2 = "" ∧ ForceQuery u2 = ForceQuery u.
Proof.
  eexists. split; [split; [vm_compute; reflexivity|split; vm_compute; discriminate]|].
  split; [vm_compute; reflexivity|].
  eapply (@canonical_output_parses_back asciiCase "https://User@Example.com:8080/A/b/?x=1#top").
  - split; [vm_compute; reflexivity|split; vm_compute; discriminate].
  - vm_compute; reflexivity.
Defined.

(** X19: operation [all] is [canonical] after [redirection] whenever the
    output of the redirection parses into a URL with a scheme and a host
    whose path has no trailing slash; the second step of [all] clears query
    and fragment but strips no slash. *)
Theorem all_is_canonical_after_redirection `{UnicodeCase} (raw : string) (u u2 : URL) :
  validURL raw u →
  Parse (applyRedirection u) = Some u2 →
  Scheme u2 ≠ "" → Host u2 ≠ "" →
  HasSuffix (Path u2) "/" = false →
  processURL "redirection" raw = inl (applyRedirection u)
  ∧ processURL "all" raw = processURL "canonical" (applyRedirection u).
Proof.
  intros Hv HP2 Hs Hh Hpath.
  rewrite !(processURL_valid _ raw u Hv).
  assert (Hv2 : validURL (applyRedirection u) u2) by done.
  rewrite (processURL_valid _ _ u2 Hv2). unfold dispatch. cbn [String.eqb Ascii.eqb Bool.eqb].
  split; [reflexivity|]. rewrite HP2. f_equal. f_equal.
  unfold canonicalized. rewrite (TrimSuffix_id _ _ Hpath).
  by destruct u2.
Qed.

Lemma all_is_canonical_after_redirection_witness :
  ∃ u u2,
    @validURL asciiCase "https://Example.com/Path/To/?b=1&a=2#f" u
    ∧ @Parse asciiCase (@applyRedirection asciiCase u) = Some u2
    ∧ @processURL asciiCase "all" "https://Example.com/Path/To/?b=1&a=2#f"
      = inl "https://www.example.com/path/to"
    ∧ @processURL asciiCase "all" "https://Example.com/Path/To/?b=1&a=2#f"
      = @processURL asciiCase "canonical" (@applyRedirection asciiCase u).
Proof.
  eexists _, _.
  split; [split; [vm_compute; reflexivity|split; vm_compute; discriminate]|].
  split; [vm_compute; reflexivity|]. split; [vm_compute; reflexivity|].
  eapply (@all_is_canonical_after_redirection asciiCase
            "https://Example.com/Path/To/?b=1&a=2#f").
  - split; [vm_compute; reflexivity|split; vm_compute; discriminate].
  - vm_compute; reflexivity.
  - vm_compute; discriminate.
  - vm_compute; discriminate.
  - vm_compute; reflexivity.
Defined.

(** X20: the host rewriting of a redirection is idempotent on ASCII hosts:
    a host that has been lower-cased and given [www.] is left as it is by a
    second pass, and [www.] is never put in front of a name that starts
    with it. *)
Theorem redirectHost_is_idempotent_on_ASCII `{UnicodeCase} (h : string) :
  isASCII h = true →
  redirectHost (redirectHost h) = redirectHost h
  ∧ (∀ s, needsWWW ("www." +:+ s) = false)
  ∧ (∀ s, needsWWW (if needsWWW s then "www." +:+ s else s) = false).
Proof.
  intros Hh. split; [by apply redirectHost_idem|].
  split; [apply needsWWW_www|apply needsWWW_settled].
Qed.

Lemma redirectHost_is_idempotent_on_ASCII_witness :
  isASCII "Example.COM:8080" = true
  ∧ @redirectHost asciiCase "Example.COM:8080" = "www.example.com:8080"
  ∧ @redirectHost asciiCase (@redirectHost asciiCase "Example.COM:8080")
    = @redirectHost asciiCase "Example.COM:8080".
Proof.
  split; [reflexivity|]. split; [vm_compute; reflexivity|].
  apply (@redirectHost_is_idempotent_on_ASCII asciiCase "Example.COM:8080"). reflexivity.
Defined.



(** ** Prices *)

Section Prices.

Lemma SFcompare_swap x y :
  SpecFloat.SFcompare y x
  = match SpecFloat.SFcompare x y with Some c => Some (CompOpp c) | None => None end.
Proof.
  destruct x as [sx|sx| |sx mx ex], y as [sy|sy| |sy my ey]; cbn;
    try reflexivity; try (by destruct sx); try (by destruct sy);
    try (by destruct sx, sy).
  destruct sx, sy; try reflexivity.
  - rewrite (Z.compare_antisym ex ey). destruct (ex ?= ey) eqn:E; cbn; try reflexivity.
    fold (Pos.compare my mx). fold (Pos.compare mx my).
    by rewrite (Pos.compare_antisym mx my).
  - rewrite (Z.compare_antisym ex ey). destruct (ex ?= ey) eqn:E; cbn; try reflexivity.
    fold (Pos.compare my mx). fold (Pos.compare mx my).
    by rewrite (Pos.compare_antisym mx my).
Qed.

Lemma not_ltb_leb (x y : PrimFloat.float) :
  PrimFloat.is_nan x = false → PrimFloat.is_nan y = false →
  PrimFloat.ltb x y = false → PrimFloat.leb y x = true.
Proof.
  unfold PrimFloat.is_nan. rewrite !negb_false_iff, !FloatAxioms.eqb_spec, FloatAxioms.ltb_spec, FloatAxioms.leb_spec.
  unfold SpecFloat.SFeqb, SpecFloat.SFltb, SpecFloat.SFleb.
  rewrite (SFcompare_swap (FloatOps.Prim2SF x) (FloatOps.Prim2SF y)).
  generalize (FloatOps.Prim2SF x) (FloatOps.Prim2SF y). intros X Y HX HY.
  assert (Hc : SpecFloat.SFcompare X Y ≠ None).
  { destruct X as [sx|sx| |sx mx ex], Y as [sy|sy| |sy my ey]; cbn in *; done. }
  destruct (SpecFloat.SFcompare X Y) as [[]|]; cbn; done.
Qed.

Lemma accepted_price_facts p :
  priceInvalid p = false →
  PrimFloat.is_nan p = false ∧ PrimFloat.is_infinity p = false
  ∧ PrimFloat.ltb p 0%float = false ∧ PrimFloat.ltb 1000000%float p = false
  ∧ hasMax2Decimals p = true.
Proof.
  unfold priceInvalid. rewrite !orb_false_iff, negb_false_iff. intros [[H1 H2] H3].
  unfold hasMax2Decimals, math.IsNaN, math.IsInf in H3.
  destruct (PrimFloat.is_nan p || PrimFloat.is_infinity p) eqn:E; [discriminate|].
  apply orb_false_iff in E as [E1 E2].
  unfold hasMax2Decimals, math.IsNaN, math.IsInf. by rewrite E1, E2.
Qed.

End Prices.

(** X22: a price that passes is a number in range: a price for which the
    three tests record no error is neither NaN nor infinite and lies
    between 0 and 1,000,000 inclusive, in the order of float64. *)
Theorem accepted_price_is_finite_and_in_range (p : math.float64) :
  priceInvalid p = false →
  PrimFloat.is_nan p = false ∧ PrimFloat.is_infinity p = false
  ∧ PrimFloat.leb 0%float p = true ∧ PrimFloat.leb p 1000000%float = true
  ∧ ∀ errs, fieldsOf (checkPrice p errs) = fieldsOf errs.
Proof.
  intros Hp. destruct (accepted_price_facts p Hp) as (Hn & Hi & Hlo & Hhi & _).
  split; [exact Hn|]. split; [exact Hi|].
  split; [by apply not_ltb_leb|]. split; [by apply not_ltb_leb|].
  intros errs. by rewrite checkPrice_valid.
Qed.

Lemma accepted_price_is_finite_and_in_range_witness :
  priceInvalid 1000000%float = false
  ∧ PrimFloat.leb 1000000%float 1000000%float = true
  ∧ PrimFloat.is_nan 1000000%float = false.
Proof.
  split; [vm_compute; reflexivity|].
  pose proof (accepted_price_is_finite_and_in_range 1000000%float
                ltac:(vm_compute; reflexivity)) as (Hn & _ & _ & Hhi & _).
  split; [exact Hhi|exact Hn].
Defined.

(** X23: method [add] of [ValidationError] keeps the first message of a
    field: a second message for the same field changes nothing, messages for
    two different fields can be recorded in either order, the set is never
    [ok] after an [add], and it grows by one entry at most. *)
Theorem add_keeps_the_first_message (v : ValidationError) (f g m n : string) :
  fieldsOf (add f n (add f m v)) = fieldsOf (add f m v)
  ∧ (f ≠ g → fieldsOf (add f m (add g n v)) = fieldsOf (add g n (add f m v)))
  ∧ ok (add f m v) = false
  ∧ (size (fieldsOf v) <= size (fieldsOf (add f m v)) <= S (size (fieldsOf v)))%nat
  ∧ (∀ k x, fieldsOf v !! k = Some x → fieldsOf (add f m v) !! k = Some x).
Proof.
  split; [apply add_first_wins|]. split; [|split; [apply ok_add|split]].
  - intros Hfg. apply map_eq. intros k. rewrite !lookup_add.
    repeat case_decide; subst; try done.
  - unfold add. destruct (fieldsOf v !! f) eqn:E; cbn [fieldsOf Fields]; [lia|].
    rewrite map_size_insert_None by done. lia.
  - intros k x Hk. rewrite lookup_add. case_decide; [subst; by rewrite Hk|done].
Qed.

(** ** Waiting for the database *)

Section Ping.
Context {S : Type} (Ping : S → option builtin.error * S).

Lemma pingState_shift i st :
  pingState Ping i (snd (Ping st)) = pingState Ping (Datatypes.S i) st.
Proof.
  induction i as [|i IH]; [reflexivity|]. cbn [pingState] in *. by rewrite IH.
Qed.

Lemma pingLoop_spec k st sleeps :
  ∃ n, (n <= k)%nat
       ∧ (∀ i, (i < n)%nat → pingResult Ping i st ≠ None)
       ∧ ((pingResult Ping n st = None ∧ (n < k)%nat
           ∧ main.pingLoop Ping k st sleeps
             = ((None, pingState Ping (Datatypes.S n) st), (sleeps + n)%nat))
          ∨ (n = k
             ∧ main.pingLoop Ping k st sleeps
               = ((Some (builtin.errorString "unable to connect to DB after retries"),
                   pingState Ping n st), (sleeps + n)%nat))).
Proof.
  revert st sleeps. induction k as [|k IH]; intros st sleeps.
  - exists 0%nat. split; [lia|]. split; [intros i Hi; lia|]. right.
    split; [reflexivity|]. cbn. by rewrite Nat.add_0_r.
  - cbn [main.pingLoop]. destruct (Ping st) as [[e|] st1] eqn:HP.
    + destruct (IH st1 (Datatypes.S sleeps)) as (n & Hn & Hfail & Hres).
      assert (Hst : st1 = snd (Ping st)) by (by rewrite HP).
      exists (Datatypes.S n). split; [lia|]. split.
      { intros [|i] Hi.
        - unfold pingResult. cbn [pingState]. by rewrite HP.
        - unfold pingResult in *. rewrite <- pingState_shift, <- Hst. apply Hfail. lia. }
      destruct Hres as [(Hok & Hlt & ->)|[-> ->]].
      * left. unfold pingResult in *. rewrite <- !pingState_shift, <- Hst.
        split; [exact Hok|]. split; [lia|]. f_equal. lia.
      * right. split; [reflexivity|]. rewrite <- pingState_shift, <- Hst. f_equal. lia.
    + exists 0%nat. split; [lia|]. split; [intros i Hi; lia|]. left.
      unfold pingResult. cbn [pingState]. rewrite HP. cbn [fst snd].
      split; [reflexivity|]. split; [lia|]. by rewrite Nat.add_0_r.
Qed.

End Ping.

(** X24: [ping] tries the connection until it answers, twenty times at most,
    and sleeps once after every failure: it returns no error exactly when one
    of the first twenty calls of [Ping] succeeds, right after the first such
    call and after as many sleeps as calls have failed; when all twenty fail
    it has slept twenty times and returns the error of the retries. *)
Theorem ping_stops_at_the_first_success {S : Type} (Ping : S → option builtin.error * S)
    (st : S) :
  ∃ n, (n <= 20)%nat
       ∧ (∀ i, (i < n)%nat → pingResult Ping i st ≠ None)
       ∧ ((pingResult Ping n st = None ∧ (n < 20)%nat
           ∧ main.ping Ping st = ((None, pingState Ping (Datatypes.S n) st), n))
          ∨ (n = 20%nat
             ∧ main.ping Ping st
               = ((Some (builtin.errorString "unable to connect to DB after retries"),
                   pingState Ping 20 st), 20%nat))).
Proof.
  destruct (pingLoop_spec Ping 20 st 0) as (n & Hn & Hfail & Hres).
  exists n. split; [exact Hn|]. split; [exact Hfail|].
  destruct Hres as [(Hok & Hlt & Hrun)|[-> Hrun]]; [left|right]; unfold main.ping; by rewrite Hrun.
Qed.
